(** * Neighborhood Finder: the recommendation pipeline of server.js

    A shallow embedding of the JavaScript server: forum discovery, post
    retrieval, the relevance filter, the amenity locator, the neighborhood
    scorer and the two [/api/recommendations] handlers (amenity-first and
    query-first), followed by the properties the specification states about
    them.

    Conventions of the embedding.
    - An [async] function is a function into [completion]: it either
      returns a value or throws.  [try]/[catch] is [try_catch].
    - Every answer of an external collaborator (the language model, the
      Reddit search endpoint, the Google Maps client) is an input: a field
      of a [World] record, one per call site.  A rejected promise is
      [Throw].
    - [JSON.parse] is a built-in of the language, not code of this
      repository; it is a parameter [JSON_parse] ([None] is a thrown
      SyntaxError).
    - Strings are sequences of ASCII code units; [toLowerCase] and [trim]
      leave every other code unit alone.
    - A plain object used as a dictionary ([{}], indexed by amenity type or
      by neighborhood name) is the finite map of its own properties; keys
      that name a member of [Object.prototype] are outside the model.
    - What [JSON.parse] returns is a [JSValue], of any shape: the replies
      of the language model are not trusted to have the shape the prompt
      asks for.  Conversions are the language's: ToString ([to_string])
      throws on an object with a [toString] property of its own, [> 0]
      converts to a number, and a method that a value lacks is a
      TypeError.  The brand names of an amenity type are kept as the value
      the reply had ([specificBrands] maps to [JSValue]).
    - The source holds three versions of server.js.  The second is the
      amenity-first design ([post_recommendations]); the third is the
      query-first design ([post_recommendations_query_first]).  The first
      is the third without neighborhood boundaries and with the amenity
      types for the map read off the preferences by keyword
      ([post_recommendations_first_version]).  The functions the versions
      share are modelled once; where they differ, the second version's
      text is the one modelled (the locator of the simpler design is
      [getAmenityCoordinates_simple]). *)

From Stdlib Require Import ZArith List Ascii String Permutation Sorted.
From stdpp Require Import base option list strings pretty gmap fin_maps.

Set Warnings "-register-all".

Local Open Scope string_scope.
Local Open Scope Z_scope.

(** ** Completions: values and thrown errors *)

Module JS.

Inductive error : Type :=
  | SyntaxError
  | TypeError
  | ReferenceError
  | TransportError.

Inductive completion (A : Type) : Type :=
  | Ok (a : A)
  | Throw (e : error).
Arguments Ok {A} a.
Arguments Throw {A} e.

#[export] Instance completion_ret : MRet completion := fun A a => Ok a.
#[export] Instance completion_bind : MBind completion := fun A B f m =>
  match m with
  | Ok a => f a
  | Throw e => Throw e
  end.

(** [try { body } catch (e) { handler }] *)
Definition try_catch {A} (body : completion A) (handler : error -> completion A)
  : completion A :=
  match body with
  | Ok a => Ok a
  | Throw e => handler e
  end.

Definition returns {A} (c : completion A) : Prop := exists a, c = Ok a.

Fixpoint map_completion {A B} (f : A -> completion B) (l : list A)
  : completion (list B) :=
  match l with
  | [] => Ok []
  | x :: rest =>
      y ← f x;
      ys ← map_completion f rest;
      Ok (y :: ys)
  end.

(** ** Values produced by [JSON.parse] *)

Inductive JSValue : Type :=
  | JUndefined
  | JNull
  | JBool (b : bool)
  | JNum (z : Z)                (* a number whose value is the integer z *)
  | JNumNonInt (lit : string)   (* any other number, as the text ToString gives it *)
  | JStr (s : string)
  | JArr (items : list JSValue)
  | JObj (fields : list (string * JSValue)).   (* distinct names *)

(** ToBoolean *)
Definition truthy (v : JSValue) : bool :=
  match v with
  | JUndefined | JNull => false
  | JBool b => b
  | JNum z => negb (z =? 0)
  | JNumNonInt _ => true
  | JStr s => negb (String.eqb s "")
  | JArr _ | JObj _ => true
  end.

Fixpoint assoc (k : string) (fields : list (string * JSValue)) : option JSValue :=
  match fields with
  | [] => None
  | (k', v) :: rest => if String.eqb k k' then Some v else assoc k rest
  end.

(** [v.k] for the property names this program reads ([postIndex],
    [isRelevant], [amenities], [type], ...): none of them is defined on a
    primitive or on an array, so only an object can answer. *)
Definition get (v : JSValue) (k : string) : completion JSValue :=
  match v with
  | JUndefined | JNull => Throw TypeError
  | JObj fields => Ok (default JUndefined (assoc k fields))
  | _ => Ok JUndefined
  end.

(** [v === n] for a number [n] with integer value *)
Definition strict_eq_int (v : JSValue) (n : Z) : bool :=
  match v with
  | JNum z => z =? n
  | _ => false
  end.

(** [arr.find(pred)]: a TypeError when [arr] has no [find] method *)
Fixpoint find_first (pred : JSValue -> completion bool) (items : list JSValue)
  : completion JSValue :=
  match items with
  | [] => Ok JUndefined
  | s :: rest =>
      b ← pred s;
      if b : bool then Ok s else find_first pred rest
  end.

Definition array_find (arr : JSValue) (pred : JSValue -> completion bool)
  : completion JSValue :=
  match arr with
  | JArr items => find_first pred items
  | _ => Throw TypeError
  end.

(** ** Strings *)

Definition lower_ascii (c : ascii) : ascii :=
  let n := nat_of_ascii c in
  if ((65 <=? n) && (n <=? 90))%nat then ascii_of_nat (n + 32) else c.

Fixpoint toLowerCase (s : string) : string :=
  match s with
  | EmptyString => EmptyString
  | String c t => String (lower_ascii c) (toLowerCase t)
  end.

(** [hay.includes(needle)] *)
Fixpoint includes (hay needle : string) : bool :=
  if String.prefix needle hay then true
  else match hay with
       | EmptyString => false
       | String _ t => includes t needle
       end.

Fixpoint drop_string (n : nat) (s : string) : string :=
  match n, s with
  | O, _ => s
  | S n', String _ t => drop_string n' t
  | S _, EmptyString => EmptyString
  end.

Definition newline : string := String (ascii_of_nat 10) EmptyString.

(** [s.replace(/pat\n?/g, '')] for a literal [pat]: matches are taken left
    to right in the original text and do not overlap.  [skip] counts the
    code units of the current match still to be dropped. *)
Fixpoint remove_all (pat : string) (skip : nat) (s : string) : string :=
  match s with
  | EmptyString => EmptyString
  | String c t =>
      match skip with
      | S k => remove_all pat k t
      | O =>
          if (negb (String.eqb pat "") && String.prefix pat s)%bool then
            let after := drop_string (String.length pat) s in
            let nl := if String.prefix newline after then 1%nat else 0%nat in
            remove_all pat (String.length pat - 1 + nl) t
          else String c (remove_all pat O t)
      end
  end.

Definition is_space (c : ascii) : bool :=
  let n := nat_of_ascii c in
  ((n =? 32) || ((9 <=? n) && (n <=? 13)))%nat.

Fixpoint trim_start (s : string) : string :=
  match s with
  | String c t => if is_space c then trim_start t else s
  | EmptyString => EmptyString
  end.

Fixpoint trim_end (s : string) : string :=
  match s with
  | EmptyString => EmptyString
  | String c t =>
      match trim_end t with
      | EmptyString => if is_space c then EmptyString else String c EmptyString
      | t' => String c t'
      end
  end.

Definition trim (s : string) : string := trim_end (trim_start s).

(** [text.replace(/```json\n?/g, '').replace(/```\n?/g, '')] *)
Definition remove_fences (text : string) : string :=
  remove_all "```" 0 (remove_all "```json" 0 text).

(** [text.replace(/```json\n?/g, '').replace(/```\n?/g, '').trim()] *)
Definition strip_fences (text : string) : string :=
  trim (remove_fences text).

Fixpoint last_index (c : ascii) (s : string) : option nat :=
  match s with
  | EmptyString => None
  | String c' t =>
      match last_index c t with
      | Some i => Some (S i)
      | None => if Ascii.eqb c c' then Some O else None
      end
  end.

(** [text.match(/\{[\s\S]*\}/)]: from the first opening brace to the last
    closing brace after it. *)
Definition match_braces (text : string) : option string :=
  match String.index 0 "{" text with
  | Some i =>
      let from_brace := drop_string i text in
      match last_index "}"%char from_brace with
      | Some j => Some (String.substring 0 (S j) from_brace)
      | None => None
      end
  | None => None
  end.

Definition join (sep : string) (l : list string) : string :=
  match l with
  | [] => ""
  | s :: rest => fold_left (fun acc x => acc ++ sep ++ x) rest s
  end.

Definition chars (s : string) : list string :=
  map (fun c => String c EmptyString) (list_ascii_of_string s).

(** *** Number::toString on integers

    Up to 2^53 every integer is a Number and prints as its digits.  Above,
    a Number prints as the shortest digit string that reads back as the
    same Number (the closest to it among the shortest), followed by zeros
    while it has at most 21 digits and in exponent form beyond.  An
    integer above 2^53 that is not a Number stands for the Number nearest
    to it, which is what [JSON.parse] makes of its digits. *)

(** The Number nearest to the integer [z] above 2^53, a tie going to the
    even significand. *)
Definition nearest_number (z : Z) : Z :=
  let q := Z.log2 z - 52 in
  let m := z / 2 ^ q in
  let r := z mod 2 ^ q in
  let half := 2 ^ (q - 1) in
  if (r <? half) || ((r =? half) && Z.even m) then m * 2 ^ q else (m + 1) * 2 ^ q.

(** The Number nearest to the integer [y] is [z] (a Number above 2^53):
    [y] lies between the midpoints to the neighbours of [z], a midpoint
    going to the neighbour with the even significand. *)
Definition rounds_to (z y : Z) : bool :=
  let q := Z.log2 z - 52 in
  let m := z / 2 ^ q in
  let below := if m =? 2 ^ 52 then 2 ^ (q - 1) else 2 ^ q in
  let lower := 2 * z - below in
  let upper := 2 * z + 2 ^ q in
  ((lower <? 2 * y) && (2 * y <? upper))
  || (Z.even m && ((2 * y =? lower) || (2 * y =? upper))).

Definition digit_count (z : Z) : Z := Z.of_nat (String.length (pretty z)).

(** The [k]-digit number [s] and the exponent [p] with [s * 10^p] reading
    back as [z], if there is one: the closer of the two next to [z], the
    even one when they are as close. *)
Definition shortest_at (z k : Z) : option (Z * Z) :=
  let p := digit_count z - k in
  let lo := z / 10 ^ p in
  let hi := lo + 1 in
  let below := z - lo * 10 ^ p in
  let above := hi * 10 ^ p - z in
  match rounds_to z (lo * 10 ^ p), rounds_to z (hi * 10 ^ p) with
  | true, true =>
      if below <? above then Some (lo, p)
      else if above <? below then Some (hi, p)
      else Some (if Z.even lo then lo else hi, p)
  | true, false => Some (lo, p)
  | false, true => Some (hi, p)
  | false, false => None
  end.

Fixpoint shortest_from (fuel : nat) (z k : Z) : Z * Z :=
  match fuel with
  | O => (z, 0)
  | S fuel' =>
      match shortest_at z k with
      | Some r => r
      | None => shortest_from fuel' z (k + 1)
      end
  end.

Fixpoint strip_zeros (s : string) : string :=
  match s with
  | EmptyString => EmptyString
  | String c t =>
      match strip_zeros t with
      | EmptyString => if Ascii.eqb c "0" then EmptyString else String c EmptyString
      | t' => String c t'
      end
  end.

Definition positive_text (z : Z) : string :=
  if z <=? 2 ^ 53 then pretty z
  else
    let x := nearest_number z in
    if 2 ^ 1024 <=? x then "Infinity"
    else
      let '(s, p) := shortest_from (String.length (pretty x)) x 1 in
      let n := digit_count s + p in
      if n <=? 21 then pretty (s * 10 ^ p)
      else
        match strip_zeros (pretty s) with
        | String d EmptyString => String d ("e+" ++ pretty (n - 1))
        | String d rest => String d ("." ++ rest ++ "e+" ++ pretty (n - 1))
        | EmptyString => "0"
        end.

Definition number_text (z : Z) : string :=
  if z <? 0 then "-" ++ positive_text (- z) else positive_text z.

(** *** ToString

    As applied by a template literal, by [+] with a string, by [join] and
    by a computed property key.  A parsed object prints through
    [Object.prototype.toString], unless it has a property named [toString]
    of its own: that is never a function, [valueOf] does not yield a
    primitive either, and the conversion throws a TypeError.  An array
    prints through [join]: inside it [null] and [undefined] print as
    nothing. *)
Fixpoint to_string (v : JSValue) : completion string :=
  match v with
  | JUndefined => Ok "undefined"
  | JNull => Ok "null"
  | JBool b => Ok (if b then "true" else "false")
  | JNum z => Ok (number_text z)
  | JNumNonInt lit => Ok lit
  | JStr s => Ok s
  | JArr items =>
      parts ← map_completion (fun i => match i with
                                       | JUndefined | JNull => Ok ""
                                       | _ => to_string i
                                       end) items;
      Ok (join "," parts)
  | JObj fields =>
      match assoc "toString" fields with
      | Some _ => Throw TypeError
      | None => Ok "[object Object]"
      end
  end.

(** [items.join(sep)] *)
Definition join_values (sep : string) (items : list JSValue) : completion string :=
  parts ← map_completion (fun i => match i with
                                   | JUndefined | JNull => Ok ""
                                   | _ => to_string i
                                   end) items;
  Ok (join sep parts).

(** [v.join(sep)]: only an array has the method. *)
Definition array_join (v : JSValue) (sep : string) : completion string :=
  match v with
  | JArr items => join_values sep items
  | _ => Throw TypeError
  end.

(** [for (const x of v)]: the entries of an array, the code units of a
    string; no other parsed value is iterable. *)
Definition iterate (v : JSValue) : completion (list JSValue) :=
  match v with
  | JArr items => Ok items
  | JStr s => Ok (map JStr (chars s))
  | _ => Throw TypeError
  end.

(** *** StringToNumber, as far as [> 0] needs it *)

Definition is_digit (c : ascii) : bool :=
  let n := nat_of_ascii c in ((48 <=? n) && (n <=? 57))%nat.

Definition is_hex_digit (c : ascii) : bool :=
  let n := nat_of_ascii c in
  (is_digit c || ((65 <=? n) && (n <=? 70)) || ((97 <=? n) && (n <=? 102)))%nat.

Definition is_octal_digit (c : ascii) : bool :=
  let n := nat_of_ascii c in ((48 <=? n) && (n <=? 55))%nat.

Definition is_binary_digit (c : ascii) : bool :=
  let n := nat_of_ascii c in ((48 <=? n) && (n <=? 49))%nat.

(** The longest prefix of decimal digits, and what follows it. *)
Fixpoint take_digits (s : string) : string * string :=
  match s with
  | String c t =>
      if is_digit c then let '(ds, rest) := take_digits t in (String c ds, rest)
      else (EmptyString, s)
  | EmptyString => (EmptyString, EmptyString)
  end.

Fixpoint digits_value (acc : Z) (s : string) : Z :=
  match s with
  | String c t => digits_value (10 * acc + Z.of_nat (nat_of_ascii c - 48)) t
  | EmptyString => acc
  end.

Fixpoint all_chars (p : ascii -> bool) (s : string) : bool :=
  match s with
  | String c t => p c && all_chars p t
  | EmptyString => true
  end.

(** [digits] is a literal in the given digits, not empty, and not zero. *)
Definition nonzero_literal (p : ascii -> bool) (digits : string) : bool :=
  negb (String.eqb digits "") && all_chars p digits
  && negb (all_chars (fun c => Ascii.eqb c "0") digits).

(** The exponent part after the digits of a decimal literal: nothing, or
    [e] or [E], a sign or none, and digits to the end. *)
Definition exponent_part (s : string) : option Z :=
  match s with
  | EmptyString => Some 0
  | String c t =>
      if Ascii.eqb c "e" || Ascii.eqb c "E" then
        let '(negative, t') :=
          match t with
          | String "-" u => (true, u)
          | String "+" u => (false, u)
          | _ => (false, t)
          end in
        let '(ds, rest) := take_digits t' in
        if negb (String.eqb ds "") && String.eqb rest ""
        then Some (if negative : bool then - digits_value 0 ds else digits_value 0 ds)
        else None
      else None
  end.

(** An unsigned decimal literal denotes a Number above zero: it is
    [Infinity], or it is well formed, some digit of it is not zero, and
    its value is above 2^-1075, below which a value rounds to zero. *)
Definition decimal_positive (s : string) : bool :=
  if String.eqb s "Infinity" then true
  else
    let '(whole, r1) := take_digits s in
    let '(fraction, r2) :=
      match r1 with
      | String "." t => take_digits t
      | _ => (EmptyString, r1)
      end in
    if String.eqb whole "" && String.eqb fraction "" then false
    else
      match exponent_part r2 with
      | None => false
      | Some e =>
          let d := digits_value 0 (whole ++ fraction) in
          let e' := e - Z.of_nat (String.length fraction) in
          (0 <? d) && ((0 <=? e') || (10 ^ (- e') <? d * 2 ^ 1075))
      end.

(** [Number(s) > 0] *)
Definition string_positive (s : string) : bool :=
  match trim s with
  | String "0" (String "x" digits) | String "0" (String "X" digits) =>
      nonzero_literal is_hex_digit digits
  | String "0" (String "o" digits) | String "0" (String "O" digits) =>
      nonzero_literal is_octal_digit digits
  | String "0" (String "b" digits) | String "0" (String "B" digits) =>
      nonzero_literal is_binary_digit digits
  | String "-" _ => false
  | String "+" t => decimal_positive t
  | t => decimal_positive t
  end.

(** [x > 0]: ToPrimitive, then ToNumber. *)
Definition gt_zero (x : JSValue) : completion bool :=
  match x with
  | JUndefined | JNull => Ok false
  | JBool b => Ok b
  | JNum z => Ok (0 <? z)
  | JNumNonInt lit => Ok (string_positive lit)
  | JStr s => Ok (string_positive s)
  | JArr _ | JObj _ => s ← to_string x; Ok (string_positive s)
  end.

(** [v.length > 0]: an array and a string have a length; so has an object
    with a property of that name; a number and a boolean have none. *)
Definition length_gt_zero (v : JSValue) : completion bool :=
  match v with
  | JUndefined | JNull => Throw TypeError
  | JArr items => Ok (0 <? length items)%nat
  | JStr s => Ok (0 <? String.length s)%nat
  | JObj fields => gt_zero (default JUndefined (assoc "length" fields))
  | JBool _ | JNum _ | JNumNonInt _ => Ok false
  end.

(** [v.length === 0] for a truthy [v] *)
Definition length_is_zero (v : JSValue) : bool :=
  match v with
  | JArr [] => true
  | JObj fields =>
      match assoc "length" fields with
      | Some (JNum 0) => true
      | _ => false
      end
  | _ => false
  end.

(** A [const] binding of a block: [None] from the entry of the block until
    its declaration has been evaluated.  Reading it before that is a
    ReferenceError. *)
Definition read_binding {A} (binding : option A) : completion A :=
  match binding with
  | Some v => Ok v
  | None => Throw ReferenceError
  end.

End JS.
Export JS.

(** ** External collaborators *)

(** An entry of [response.data.data.children] of the subreddit search:
    [child.data].  A field the provider left out is [None]; calling
    [toLowerCase] on it is a TypeError. *)
Record Subreddit : Type := {
  subscribers : Z;
  over18 : bool;
  display_name : option string;
  public_description : option string;
}.

(** [child.data] of the post search; a missing [title] or [selftext] is the
    empty string (both are falsy). *)
Record RedditPost : Type := {
  title : string;
  selftext : string;
  subreddit : string;
}.

(** A place of [response.data.results] of the Places API, with the
    coordinates of [place.geometry.location]. *)
Record RawPlace : Type := {
  place_name : string;
  place_lat : Z;
  place_lng : Z;
}.

(** [{ name, lat, lng, type }] as built by the amenity locator.  Latitude
    and longitude are carried around and never computed with; they are
    kept as integers (micro-degrees). *)
Record Place : Type := {
  name : string;
  lat : Z;
  lng : Z;
  type : string;
}.

(** [response.data] of [placesNearby]; [results = None] when the field is
    absent. *)
Record NearbyResponse : Type := {
  results : option (list RawPlace);
  next_page_token : option string;
}.

(** [response.data.results[0]] of [reverseGeocode]. *)
Record AddressComponent : Type := {
  long_name : string;
  types : list string;
}.

Record GeocodeResult : Type := {
  address_components : option (list AddressComponent);
  formatted_address : string;
}.

(** [response.data.features[0]] of the Nominatim search. *)
Record Feature : Type := {
  geometry_type : string;
  geometry_coordinates : JSValue;
}.

(** The answers of the collaborators during one request.  The language
    model is asked once per call site; [choices[0].message.content] is the
    reply. *)
Record World : Type := {
  (* openai.chat.completions.create, by call site *)
  amenityReply : completion string;
  neighborhoodReply : completion string;
  qualitativeReply : completion string;
  filterReply : completion string;
  scoringReply : completion string;
  concernsReply : completion string;
  parsingReply : completion string;
  analysisReply : completion string;
  (* axios.get on reddit.com: [None] when data.data.children is absent *)
  subredditSearch : string -> completion (option (list Subreddit));
  postSearch : string -> completion (option (list RedditPost));
  (* mapsClient *)
  geocode : string -> completion (option (list (Z * Z)));
  (* by location, radius, keyword (as passed, a string or not) and type *)
  placesNearbyKeyword : Z * Z -> Z -> JSValue -> string -> completion NearbyResponse;
  placesNearbyType : Z * Z -> Z -> string -> option string -> completion NearbyResponse;
  reverseGeocode : Z * Z -> completion (option (list GeocodeResult));
  (* axios.get on nominatim: [None] when data.features is absent or empty *)
  nominatimSearch : string -> completion (option Feature);
}.

(** [req.body] of the two POST endpoints; a field is [None] when it is
    absent.  The fields are text, as the data model has them. *)
Record Request : Type := {
  body_city : option string;
  body_preferences : option string;
}.

Inductive Response (B : Type) : Type :=
  | Status200 (body : B)
  | Status400 (error_message : string)
  | Status500 (e : error).
Arguments Status200 {B} body.
Arguments Status400 {B} error_message.
Arguments Status500 {B} e.

(** * The program *)

Section Server.

(** [JSON.parse]: [None] when it throws a SyntaxError. *)
Variable JSON_parse : string -> option JSValue.

Variable w : World.

(** ** Forum discovery (discoverSubreddits) *)

Definition lowered (field : option string) : completion string :=
  match field with
  | Some s => Ok (toLowerCase s)
  | None => Throw TypeError
  end.

(** The relevance test of one search result, with the short circuits of
    [&&] and [||]. *)
Definition subreddit_isRelevant (city : string) (sr : Subreddit) : completion bool :=
  if negb (100 <? subscribers sr) then Ok false
  else if over18 sr then Ok false
  else
    dn ← lowered (display_name sr);
    if includes dn (toLowerCase city) then Ok true
    else
      pd ← lowered (public_description sr);
      Ok (includes pd "neighborhood" || includes pd "live" || includes pd "ask").

(** [children.forEach(child => { ... subreddits.push(display_name) })] *)
Fixpoint collect_subreddits (city : string) (children : list Subreddit)
  : completion (list string) :=
  match children with
  | [] => Ok []
  | sr :: rest =>
      b ← subreddit_isRelevant city sr;
      found ← collect_subreddits city rest;
      Ok (if b : bool then
            match display_name sr with
            | Some n => n :: found
            | None => found
            end
          else found)
  end.

Definition nonempty_string (s : string) : bool := (0 <? String.length s)%nat.

Definition fallbackSubreddits (city : string) : list string :=
  let cityLower := toLowerCase city in
  List.filter nonempty_string
    [cityLower; cityLower ++ "housing"; "Ask" ++ city; cityLower ++ "neighborhoods"].

Definition ultimateFallback (city : string) : list string :=
  [toLowerCase city; "Ask" ++ city].

Definition discoverSubreddits (city : string) : completion (list string) :=
  try_catch
    (response ← subredditSearch w city;
     subreddits ← match response with
                  | Some children => collect_subreddits city children
                  | None => Ok []
                  end;
     if (0 <? length subreddits)%nat then Ok subreddits
     else Ok (fallbackSubreddits city))
    (fun _ => Ok (ultimateFallback city)).

(** ** Relevance filter (filterRelevantPosts) *)

(** The callback of [posts.filter((_, i) => ...)] at index [i]. *)
Definition post_is_kept (relevanceScores : JSValue) (i : nat) : completion bool :=
  score ← array_find relevanceScores
            (fun s => idx ← get s "postIndex"; Ok (strict_eq_int idx (Z.of_nat i + 1)));
  if truthy score then
    rel ← get score "isRelevant";
    Ok (truthy rel)
  else Ok false.

Fixpoint filter_from (relevanceScores : JSValue) (i : nat) (posts : list string)
  : completion (list string) :=
  match posts with
  | [] => Ok []
  | p :: rest =>
      keep ← post_is_kept relevanceScores i;
      kept ← filter_from relevanceScores (S i) rest;
      Ok (if keep : bool then p :: kept else kept)
  end.

Definition filterRelevantPosts (posts : list string) (preferences : string)
  : completion (list string) :=
  content ← filterReply w;
  let filterText := strip_fences content in
  match JSON_parse filterText with
  | None => Ok posts
  | Some relevanceScores => filter_from relevanceScores 0 posts
  end.

(** ** Post retrieval (scrapeReddit) *)

Fixpoint substring_to (n : nat) (s : string) : string :=
  match n, s with
  | S n', String c t => String c (substring_to n' t)
  | _, _ => EmptyString
  end.

Definition post_content (post : RedditPost) : string :=
  "Title: " ++ title post ++ newline ++
  "Content: " ++ substring_to 300 (selftext post) ++ newline ++
  "Subreddit: r/" ++ subreddit post.

Definition has_title_and_text (post : RedditPost) : bool :=
  nonempty_string (title post) && nonempty_string (selftext post).

(** One iteration of [for (const query of queries)]: the posts found for
    the query, none when the search fails. *)
Definition scrape_query (searchSubreddits : list string) (query : string)
  : list string :=
  let subredditFilter := join " OR " (map (fun s => "subreddit:" ++ s) searchSubreddits) in
  let fullQuery := query ++ " " ++ subredditFilter in
  match postSearch w fullQuery with
  | Ok (Some children) => map post_content (List.filter has_title_and_text children)
  | Ok None => []
  | Throw _ => []
  end.

(** The queries the loop [for (const query of queries)] visits, as the
    text they are in the search.  Reading [queries.length] of [null] and
    iterating a value that is not iterable both throw a TypeError; a
    string is iterated code unit by code unit.  The [try] of an iteration
    starts by printing the query; for a query that cannot be made a string
    that throws, the [catch] prints the query again, and this second
    TypeError leaves the loop and the function. *)
Definition queries_of (queries : JSValue) : completion (list string) :=
  match queries with
  | JArr items => map_completion to_string items
  | JStr s => Ok (chars s)
  | _ => Throw TypeError
  end.

Definition scrapeReddit (queries : JSValue) (city : option string)
    (subreddits : option (list string)) : completion (list string) :=
  qs ← queries_of queries;
  searchSubreddits ←
    match subreddits, city with
    | Some subs, _ => Ok subs
    | None, Some c =>
        if nonempty_string c then discoverSubreddits c else Ok ["AskReddit"]
    | None, None => Ok ["AskReddit"]
    end;
  Ok (concat (map (scrape_query searchSubreddits) qs)).

(** ** Amenity locator *)

Definition getCityCoordinates (city : string) : option (Z * Z) :=
  match geocode w city with
  | Ok (Some (location :: _)) => Some location
  | Ok _ => None
  | Throw _ => None
  end.

(** The words of [s.split(/\s+/)] that are not empty; the empty pieces that
    [split] yields at the ends are dropped by the length filter that
    follows every use. *)
Fixpoint words_from (cur : string) (s : string) : list string :=
  match s with
  | EmptyString => if nonempty_string cur then [cur] else []
  | String c t =>
      if is_space c
      then (if nonempty_string cur then [cur] else []) ++ words_from "" t
      else words_from (cur ++ String c EmptyString) t
  end.

Definition brandParts (brandLower : string) : list string :=
  List.filter (fun p => (2 <? String.length p)%nat) (words_from "" brandLower).

Definition matches_brand (brandName : string) (place : RawPlace) : bool :=
  let placeName := toLowerCase (place_name place) in
  existsb (fun part => includes placeName part) (brandParts (toLowerCase brandName)).

(** The stricter test of [getAllAmenityCoordinates]. *)
Definition matches_brand_strict (brandName : string) (place : RawPlace) : bool :=
  let placeName := toLowerCase (place_name place) in
  matches_brand brandName place
  && negb (includes placeName "google")
  && negb (includes placeName "test").

Definition to_place (amenityType : string) (place : RawPlace) : Place :=
  {| name := place_name place; lat := place_lat place; lng := place_lng place;
     type := amenityType |}.

(** One iteration of [for (const brandName of specificNames)] in
    [getAllAmenityCoordinates], inside its own [try].  The [try] starts by
    printing the brand and its [catch] prints it again: a brand that cannot
    be made a string throws out of the loop.  A failed query adds nothing;
    for a brand that is not a string [brandName.toLowerCase()] throws and
    nothing is added. *)
Definition brand_results (cityCoords : Z * Z) (amenityType : string) (brandName : JSValue)
  : completion (list RawPlace) :=
  _ ← to_string brandName;
  Ok match brandName with
     | JStr brand =>
         match placesNearbyKeyword w cityCoords 8000 brandName amenityType with
         | Ok response =>
             match results response with
             | Some rs => List.filter (matches_brand_strict brand) rs
             | None => []
             end
         | Throw _ => []
         end
     | _ => []
     end.

(** The same iteration in [getAmenityCoordinates]: the brand is printed
    only by the [catch], which is entered when the query fails and when
    [brandName.toLowerCase()] throws on results that are there. *)
Definition display_brand_results (cityCoords : Z * Z) (amenityType : string)
    (brandName : JSValue) : completion (list RawPlace) :=
  match placesNearbyKeyword w cityCoords 8000 brandName amenityType with
  | Ok response =>
      match results response with
      | Some rs =>
          match brandName with
          | JStr brand => Ok (List.filter (matches_brand brand) rs)
          | _ => _ ← to_string brandName; Ok []
          end
      | None => Ok []
      end
  | Throw _ => _ ← to_string brandName; Ok []
  end.

Definition token_truthy (t : option string) : bool :=
  match t with
  | Some s => nonempty_string s
  | None => false
  end.

(** [for (let page = 0; page < 3; page++)], with [pages] iterations left. *)
Fixpoint generic_pages (pages : nat) (cityCoords : Z * Z) (amenityType : string)
    (nextPageToken : option string) : list RawPlace :=
  match pages with
  | O => []
  | S pages' =>
      match placesNearbyType w cityCoords 8000 amenityType nextPageToken with
      | Ok response =>
          default [] (results response) ++
          (if token_truthy (next_page_token response)
           then generic_pages pages' cityCoords amenityType (next_page_token response)
           else [])
      | Throw _ => []
      end
  end.

(** [specificNames] is the value passed, whatever it is; the [try] around
    the body answers any error with the empty list. *)
Definition getAllAmenityCoordinates (city amenityType : string)
    (specificNames : JSValue) : list Place :=
  match getCityCoordinates city with
  | None => []
  | Some cityCoords =>
      let allPlaces :=
        branded ← length_gt_zero specificNames;
        if branded : bool then
          brands ← iterate specificNames;
          found ← map_completion (brand_results cityCoords amenityType) brands;
          Ok (concat found)
        else Ok (generic_pages 3 cityCoords amenityType None) in
      match allPlaces with
      | Ok places => map (to_place amenityType) places
      | Throw _ => []
      end
  end.

(** The amenity-first [getAmenityCoordinates(city, amenityType, limit = 5,
    specificNames = [])]; [places.slice(0, limit)] is [take]. *)
Definition getAmenityCoordinates (city amenityType : string) (limit : nat)
    (specificNames : JSValue) : list Place :=
  match getCityCoordinates city with
  | None => []
  | Some cityCoords =>
      let places :=
        branded ← length_gt_zero specificNames;
        if branded : bool then
          brands ← iterate specificNames;
          found ← map_completion (display_brand_results cityCoords amenityType) brands;
          Ok (concat found)
        else
          response ← placesNearbyType w cityCoords 8000 amenityType None;
          Ok (default [] (results response)) in
      match places with
      | Ok ps => map (to_place amenityType) (take limit ps)
      | Throw _ => []
      end
  end.

(** The query-first [getAmenityCoordinates(city, amenityType, limit = 5)]. *)
Definition getAmenityCoordinates_simple (city amenityType : string) (limit : nat)
  : list Place :=
  match getCityCoordinates city with
  | None => []
  | Some cityCoords =>
      match placesNearbyType w cityCoords 5000 amenityType None with
      | Ok response => map (to_place amenityType) (take limit (default [] (results response)))
      | Throw _ => []
      end
  end.

(** ** Neighborhood resolver (getNeighborhoodFromCoordinates) *)

Definition has_type (t : string) (component : AddressComponent) : bool :=
  existsb (String.eqb t) (types component).

(** [s.split(',')[0]] *)
Fixpoint before_comma (s : string) : string :=
  match s with
  | EmptyString => EmptyString
  | String c t => if Ascii.eqb c ","%char then EmptyString else String c (before_comma t)
  end.

Definition getNeighborhoodFromCoordinates (lat lng : Z) : option string :=
  match reverseGeocode w (lat, lng) with
  | Ok (Some (result :: _)) =>
      let addressComponents := default [] (address_components result) in
      match List.find (has_type "neighborhood") addressComponents with
      | Some component => Some (long_name component)
      | None =>
          match List.find (has_type "locality") addressComponents with
          | Some component => Some (long_name component)
          | None => Some (before_comma (formatted_address result))
          end
      end
  | Ok _ => None
  | Throw _ => None
  end.

(** ** Neighborhood scorer (scoreNeighborhoodsByAmenities) *)

(** The two dictionaries the scorer fills, with the order in which the
    neighborhood keys were created ([Object.entries] lists them in that
    order). *)
Record Buckets : Type := {
  neighborhoodScores : gmap string (gmap string Z);
  neighborhoodAmenities : gmap string (gmap string (list Place));
  created : list string;
}.

Definition no_buckets : Buckets :=
  {| neighborhoodScores := ∅; neighborhoodAmenities := ∅; created := [] |}.

(** [if (!neighborhoodScores[neighborhood]) { ... = {}; ... = {} }] *)
Definition open_neighborhood (neighborhood : string) (b : Buckets) : Buckets :=
  match neighborhoodScores b !! neighborhood with
  | Some _ => b
  | None =>
      {| neighborhoodScores := <[neighborhood := ∅]> (neighborhoodScores b);
         neighborhoodAmenities := <[neighborhood := ∅]> (neighborhoodAmenities b);
         created := created b ++ [neighborhood] |}
  end.

(** [if (!neighborhoodScores[neighborhood][amenityType]) { ... = 0; ... = [] }]:
    a missing count and a count of 0 are both falsy. *)
Definition open_type (neighborhood amenityType : string) (b : Buckets) : Buckets :=
  let counts := default ∅ (neighborhoodScores b !! neighborhood) in
  let lists := default ∅ (neighborhoodAmenities b !! neighborhood) in
  let fresh :=
    match counts !! amenityType with
    | Some c => c =? 0
    | None => true
    end in
  if fresh then
    {| neighborhoodScores := <[neighborhood := <[amenityType := 0]> counts]> (neighborhoodScores b);
       neighborhoodAmenities := <[neighborhood := <[amenityType := []]> lists]> (neighborhoodAmenities b);
       created := created b |}
  else b.

(** [neighborhoodScores[neighborhood][amenityType]++;
     neighborhoodAmenities[neighborhood][amenityType].push(amenity)] *)
Definition count_amenity (neighborhood amenityType : string) (amenity : Place)
    (b : Buckets) : Buckets :=
  let counts := default ∅ (neighborhoodScores b !! neighborhood) in
  let lists := default ∅ (neighborhoodAmenities b !! neighborhood) in
  {| neighborhoodScores :=
       <[neighborhood := <[amenityType := default 0 (counts !! amenityType) + 1]> counts]>
         (neighborhoodScores b);
     neighborhoodAmenities :=
       <[neighborhood := <[amenityType := (default [] (lists !! amenityType) ++ [amenity])%list]> lists]>
         (neighborhoodAmenities b);
     created := created b |}.

(** The body of [for (const amenity of amenities)], given the neighborhood
    the resolver answered; [null] and the empty string are falsy. *)
Definition attribute (amenityType : string) (b : Buckets)
    (amenity : Place) (neighborhood : option string) : Buckets :=
  match neighborhood with
  | Some n =>
      if nonempty_string n
      then count_amenity n amenityType amenity
             (open_type n amenityType (open_neighborhood n b))
      else b
  | None => b
  end.

(** The inner loop for one amenity type over the places located for it. *)
Definition bucket_amenities (resolve : Place -> option string) (amenityType : string)
    (amenities : list Place) (b : Buckets) : Buckets :=
  fold_left (fun acc amenity => attribute amenityType acc amenity (resolve amenity))
            amenities b.

(** The outer loop, over pairs of an amenity type and its located places. *)
Definition bucket_all (resolve : Place -> option string)
    (located : list (string * list Place)) (b : Buckets) : Buckets :=
  fold_left (fun acc '(amenityType, amenities) =>
               bucket_amenities resolve amenityType amenities acc)
            located b.

(** An element of [scoredNeighborhoods].  The records of the no-amenity
    branch of the handler have no [amenityTypes] field. *)
Record ScoredNeighborhood : Type := {
  neighborhood : string;
  amenityScore : Z;
  amenityCounts : gmap string Z;
  totalAmenities : Z;
  amenityTypes : option Z;
}.

(** [Object.values(amenityCount).reduce((a, b) => a + b, 0)] *)
Definition reduce_sum (amenityCount : gmap string Z) : Z :=
  fold_left (fun a b => a + b) (map_to_list amenityCount).*2 0.

Definition score_entry (entry : string * gmap string Z) : ScoredNeighborhood :=
  let '(n, amenityCount) := entry in
  let total := reduce_sum amenityCount in
  let kinds := Z.of_nat (size amenityCount) in
  let score := total + kinds * 5 in
  {| neighborhood := n;
     amenityScore := score;
     amenityCounts := amenityCount;
     totalAmenities := total;
     amenityTypes := Some kinds |}.

(** [Object.entries(neighborhoodScores)], in creation order (a name that
    is a canonical array index would be listed first; neighborhood names
    are taken not to be numbers). *)
Definition entries (b : Buckets) : list (string * gmap string Z) :=
  omap (fun n => pair n <$> neighborhoodScores b !! n) (created b).

(** [.sort((a, b) => b.amenityScore - a.amenityScore)]: descending and
    stable. *)
Fixpoint insert_by_score (x : ScoredNeighborhood) (l : list ScoredNeighborhood)
  : list ScoredNeighborhood :=
  match l with
  | [] => [x]
  | y :: ys =>
      if amenityScore x <? amenityScore y then y :: insert_by_score x ys
      else x :: y :: ys
  end.

Definition sort_by_score (l : list ScoredNeighborhood) : list ScoredNeighborhood :=
  foldr insert_by_score [] l.

Definition rank (b : Buckets) : list ScoredNeighborhood :=
  sort_by_score (map score_entry (entries b)).

Definition resolve_place (amenity : Place) : option string :=
  getNeighborhoodFromCoordinates (lat amenity) (lng amenity).

(** [specificBrands[amenityType] || []] *)
Definition brands_of (specificBrands : gmap string JSValue) (amenityType : string)
  : JSValue :=
  match specificBrands !! amenityType with
  | Some brandNames => if truthy brandNames then brandNames else JArr []
  | None => JArr []
  end.

(** The first statement of the [try] of the outer loop prints
    [brandNames.length > 0 ? ` (${brandNames.join(', ')})` : '']. *)
Definition print_brands (brandNames : JSValue) : completion unit :=
  branded ← length_gt_zero brandNames;
  if branded : bool then _ ← array_join brandNames ", "; Ok tt
  else Ok tt.

(** The places the [try] of the outer loop gets to attribute for one
    amenity type: none when printing the brands throws, which skips the
    type.  Nothing else inside the [try] throws: the locator and the
    resolver catch their own errors. *)
Definition locate (city amenityType : string) (brandNames : JSValue) : list Place :=
  match print_brands brandNames with
  | Ok _ => getAllAmenityCoordinates city amenityType brandNames
  | Throw _ => []
  end.

Definition locate_all (city : string) (amenitiesNeeded : list string)
    (specificBrands : gmap string JSValue) : list (string * list Place) :=
  map (fun amenityType =>
         (amenityType, locate city amenityType (brands_of specificBrands amenityType)))
      amenitiesNeeded.

Definition scoreNeighborhoodsByAmenities (city : string) (amenitiesNeeded : list string)
    (specificBrands : gmap string JSValue)
  : list ScoredNeighborhood * gmap string (gmap string (list Place)) :=
  let b := bucket_all resolve_place (locate_all city amenitiesNeeded specificBrands)
                      no_buckets in
  (rank b, neighborhoodAmenities b).

(** ** The amenity-first handler of POST /api/recommendations *)

(** [!field] is false exactly for a non-empty string. *)
Definition present (field : option string) : bool :=
  match field with
  | Some s => nonempty_string s
  | None => false
  end.

Definition defaultAmenities : list string := ["gym"; "grocery_or_supermarket"].

(** [JSON.parse(amenityText)] and [parsed.amenities], the value on which
    [map] and [forEach] are called: only an array has these methods. *)
Definition read_amenities (amenityText : string) : completion (list JSValue) :=
  match JSON_parse amenityText with
  | None => Throw SyntaxError
  | Some parsed =>
      amenities ← get parsed "amenities";
      match amenities with
      | JArr items => Ok items
      | _ => Throw TypeError
      end
  end.

(** [parsed.amenities.forEach(a => { specificBrands[a.type] = a.specificNames || [] })]:
    the amenity types written as keys so far and [specificBrands] as it
    stands, and the error if an [a.type] could not be made a key (an
    entry that is [null] has already failed the [map] before).  An amenity
    type that is not a string is kept as the string it becomes when used
    as a property key. *)
Fixpoint write_brands (items : list JSValue) (written : list string)
    (specificBrands : gmap string JSValue)
  : list string * gmap string JSValue * option error :=
  match items with
  | [] => (written, specificBrands, None)
  | a :: rest =>
      match (t ← get a "type";
             key ← to_string t;
             names ← get a "specificNames";
             Ok (key, if truthy names then names else JArr [])) with
      | Ok (key, names) =>
          write_brands rest (written ++ [key]) (<[key := names]> specificBrands)
      | Throw e => (written, specificBrands, Some e)
      end
  end.

(** The [try] of step 1 up to the loop that writes [specificBrands]:
    [parsed.amenities.map(a => a.type)] reads every [a.type] and writes
    nothing. *)
Definition parse_amenities (amenityText : string)
  : completion (list JSValue) :=
  items ← read_amenities amenityText;
  _ ← map_completion (fun a => get a "type") items;
  Ok items.

(** [try { ... } catch (e) { amenitiesNeeded = ['gym', 'grocery_or_supermarket'] }].
    The [catch] replaces [amenitiesNeeded]; [specificBrands] keeps what the
    loop had written when it threw (nothing, unless an [a.type] could not
    be made a key). *)
Definition extract_amenities (amenityText : string)
  : completion (list string * gmap string JSValue) :=
  match parse_amenities amenityText with
  | Throw _ => Ok (defaultAmenities, ∅)
  | Ok items =>
      match write_brands items [] ∅ with
      | (amenitiesNeeded, specificBrands, None) => Ok (amenitiesNeeded, specificBrands)
      | (_, specificBrands, Some _) => Ok (defaultAmenities, specificBrands)
      end
  end.

Definition unscored (n : string) : ScoredNeighborhood :=
  {| neighborhood := n; amenityScore := 0; amenityCounts := ∅;
     totalAmenities := 0; amenityTypes := None |}.

(** The [try] of the no-amenity branch.  A name that is not a string is
    kept as the string it becomes when used as a property key; one that
    cannot be made a string fails the request when the names are joined
    for the scoring prompt. *)
Definition neighborhoods_from_posts (neighborhoodText : string)
  : completion (list ScoredNeighborhood) :=
  match JSON_parse neighborhoodText with
  | Some (JArr mentionedNeighborhoods) =>
      map_completion (fun n => name ← to_string n; Ok (unscored name))
                     mentionedNeighborhoods
  | _ => Ok [unscored "Downtown"]
  end.

(** [concernsMap]: what the reply parsed to, and the properties assigned
    to it afterwards.  Assigning to a primitive has no effect. *)
Record ConcernsMap : Type := {
  parsed_concerns : JSValue;
  assigned : gmap string JSValue;
}.

Definition concerns_lookup (cm : ConcernsMap) (k : string) : completion JSValue :=
  match assigned cm !! k with
  | Some v => Ok v
  | None => get (parsed_concerns cm) k
  end.

Definition concerns_assign (cm : ConcernsMap) (k : string) (v : JSValue) : ConcernsMap :=
  match parsed_concerns cm with
  | JObj _ | JArr _ =>
      {| parsed_concerns := parsed_concerns cm; assigned := <[k := v]> (assigned cm) |}
  | _ => cm
  end.

(** [a < b] where [a] may be [undefined]: false then. *)
Definition lt_undefined (a : option Z) (b : Z) : bool :=
  match a with
  | Some x => x <? b
  | None => false
  end.

Definition fallback_concerns (amenitiesNeeded redditPosts : list string)
    (n : ScoredNeighborhood) : list string :=
  let concerns :=
    ((if totalAmenities n <? 5
      then ["Limited number of requested amenities nearby"] else []) ++
     (if lt_undefined (amenityTypes n) (Z.of_nat (length amenitiesNeeded))
      then ["Not all requested amenity types available in this neighborhood"] else []) ++
     (if (length redditPosts =? 0)%nat
      then ["Limited community feedback available"] else []))%list in
  if (length concerns =? 0)%nat
  then ["Research more on community forums and local resources"]
  else concerns.

(** [scoredNeighborhoods.slice(0, 5).forEach(n => { ... })] *)
Fixpoint fill_concerns (amenitiesNeeded redditPosts : list string)
    (top : list ScoredNeighborhood) (cm : ConcernsMap) : completion ConcernsMap :=
  match top with
  | [] => Ok cm
  | n :: rest =>
      v ← concerns_lookup cm (neighborhood n);
      let cm' :=
        if negb (truthy v) || length_is_zero v
        then concerns_assign cm (neighborhood n)
               (JArr (map JStr (fallback_concerns amenitiesNeeded redditPosts n)))
        else cm in
      fill_concerns amenitiesNeeded redditPosts rest cm'
  end.

Record Recommendation : Type := {
  rec_neighborhood : string;
  matchReasons : list string;
  concerns : JSValue;
  amenityBreakdown : gmap string Z;
}.

Definition recommendation (amenitiesNeeded redditPosts : list string) (cm : ConcernsMap)
    (n : ScoredNeighborhood) : completion Recommendation :=
  let reasons :=
    ((if 0 <? totalAmenities n
      then [(pretty (totalAmenities n) ++ " " ++
             (if (1 <? length amenitiesNeeded)%nat then "amenities" else "amenity") ++
             " nearby")%string]
      else []) ++
     (if (0 <? size (amenityCounts n))%nat
      then [(pretty (size (amenityCounts n)) ++ " types of amenities")%string] else []) ++
     (if (0 <? length redditPosts)%nat
      then ["Well-reviewed on community forums"] else []))%list in
  v ← concerns_lookup cm (neighborhood n);
  Ok {| rec_neighborhood := neighborhood n;
        matchReasons := if (0 <? length reasons)%nat then reasons
                        else ["Strong neighborhood match"];
        concerns := if truthy v then v else JArr [];
        amenityBreakdown := amenityCounts n |}.

Record MapData : Type := {
  cityCoordinates : option (Z * Z);
  amenities : gmap string (list Place);
  mapNeighborhoodAmenities : gmap string (gmap string (list Place));
}.

(** [for (const amenityType of amenitiesNeeded)
       mapData.amenities[amenityType] = await getAmenityCoordinates(city, amenityType, 10, brandNames)] *)
Definition display_amenities (city : string) (amenitiesNeeded : list string)
    (specificBrands : gmap string JSValue) : gmap string (list Place) :=
  fold_left (fun m amenityType =>
               <[amenityType := getAmenityCoordinates city amenityType 10
                                  (brands_of specificBrands amenityType)]> m)
            amenitiesNeeded ∅.

(** The inner loop of "Add neighborhood-specific amenities". *)
Definition amenities_of_neighborhood (amenitiesNeeded : list string)
    (found : option (gmap string (list Place))) : gmap string (list Place) :=
  fold_left (fun m amenityType =>
               <[amenityType := match found with
                                | Some byType =>
                                    match byType !! amenityType with
                                    | Some places => take 5 places
                                    | None => []
                                    end
                                | None => []
                                end]> m)
            amenitiesNeeded ∅.

Definition neighborhood_amenities (amenitiesNeeded : list string)
    (neighborhoodAmenities : gmap string (gmap string (list Place)))
    (recs : list Recommendation) : gmap string (gmap string (list Place)) :=
  fold_left (fun m r =>
               <[rec_neighborhood r :=
                   amenities_of_neighborhood amenitiesNeeded
                     (neighborhoodAmenities !! rec_neighborhood r)]> m)
            recs ∅.

Record Body : Type := {
  city : string;
  userPreferences : string;
  recommendations : list Recommendation;
  mapData : MapData;
}.

(** Steps 3 and 4 and the assembly of the response, once the ranked
    neighborhoods are known. *)
Definition qualitative_and_assembly (city preferences : string)
    (amenitiesNeeded : list string) (specificBrands : gmap string JSValue)
    (scoredNeighborhoods : list ScoredNeighborhood)
    (neighborhoodAmenities : gmap string (gmap string (list Place)))
  : completion (Response Body) :=
  qualText ← qualitativeReply w;
  let redditQueries :=
    match JSON_parse (strip_fences qualText) with
    | Some queries => queries
    | None => JArr [JStr ("neighborhoods in " ++ city);
                    JStr ("best places to live in " ++ city)]
    end in
  redditPosts ← scrapeReddit redditQueries (Some city) None;
  filteredPosts ← (if (0 <? length redditPosts)%nat
                   then filterRelevantPosts redditPosts preferences
                   else Ok []);
  let redditData :=
    if (0 <? length filteredPosts)%nat then join newline filteredPosts
    else "Limited Reddit posts found." in
  scoringText ← scoringReply w;
  concernsText ← concernsReply w;
  let parsed := default (JObj []) (JSON_parse (strip_fences concernsText)) in
  let top := take 5 scoredNeighborhoods in
  concernsMap ← fill_concerns amenitiesNeeded redditPosts top
                  {| parsed_concerns := parsed; assigned := ∅ |};
  recs ← map_completion (recommendation amenitiesNeeded redditPosts concernsMap) top;
  Ok (Status200
        {| city := city;
           userPreferences := preferences;
           recommendations := recs;
           mapData :=
             {| cityCoordinates := getCityCoordinates city;
                amenities := display_amenities city amenitiesNeeded specificBrands;
                mapNeighborhoodAmenities :=
                  neighborhood_amenities amenitiesNeeded neighborhoodAmenities recs |} |}).

(** The [try] block of the handler.  [redditData] is declared by [const]
    in this block, after step 2; until then its binding is empty. *)
Definition recommendations_try (req : Request) : completion (Response Body) :=
  let redditData_binding : option string := None in
  if negb (present (body_city req)) || negb (present (body_preferences req))
  then Ok (Status400 "City and preferences are required")
  else
    let city := default "" (body_city req) in
    let preferences := default "" (body_preferences req) in
    amenityText ← amenityReply w;
    '(amenitiesNeeded, specificBrands) ← extract_amenities (strip_fences amenityText);
    if (0 <? length amenitiesNeeded)%nat then
      let '(scoredNeighborhoods, neighborhoodAmenities) :=
        scoreNeighborhoodsByAmenities city amenitiesNeeded specificBrands in
      if (length scoredNeighborhoods =? 0)%nat
      then Ok (Status400 ("No neighborhoods found with requested amenities in " ++ city))
      else qualitative_and_assembly city preferences amenitiesNeeded specificBrands
             scoredNeighborhoods neighborhoodAmenities
    else
      redditData ← read_binding redditData_binding;
      neighborhoodText ← neighborhoodReply w;
      mentioned ← neighborhoods_from_posts (strip_fences neighborhoodText);
      qualitative_and_assembly city preferences amenitiesNeeded specificBrands
        mentioned ∅.

(** [catch (error) { res.status(500).json({ error: error.message }) }] *)
Definition post_recommendations (req : Request) : Response Body :=
  match recommendations_try req with
  | Ok response => response
  | Throw e => Status500 e
  end.

(** ** The query-first handler of POST /api/recommendations *)

(** What [getNeighborhoodBoundaries] returns; [center], an average of
    floating-point bounding-box corners, is left out. *)
Record Boundary : Type := {
  boundary_neighborhood : JSValue;
  boundary_type : string;
  boundary_coordinates : JSValue;
}.

(** [neighborhood + ', ' + city] is the first thing the [try] computes;
    its [catch] prints the neighborhood, so that a neighborhood that cannot
    be made a string throws out of the function. *)
Definition getNeighborhoodBoundaries (neighborhood : JSValue) (city : string)
  : completion (option Boundary) :=
  name ← to_string neighborhood;
  Ok match nominatimSearch w (name ++ ", " ++ city) with
     | Ok (Some feature) =>
         Some {| boundary_neighborhood := neighborhood;
                 boundary_type := geometry_type feature;
                 boundary_coordinates := geometry_coordinates feature |}
     | Ok None => None
     | Throw _ => None
     end.

Record QueryMapData : Type := {
  q_cityCoordinates : option (Z * Z);
  q_amenities : gmap string (list Place);
  q_neighborhoods : list Boundary;
}.

(** The response of the query-first handler: [recommendations] is the
    object the language model wrote (or the fallback literal), and the
    fallback response has no [mapData]. *)
Record QueryBody : Type := {
  q_city : string;
  q_userPreferences : string;
  q_recommendations : JSValue;
  q_mapData : option QueryMapData;
}.

Definition as_array (v : JSValue) : completion (list JSValue) :=
  match v with
  | JArr items => Ok items
  | _ => Throw TypeError
  end.

(** The body of the logging loop over [recommendations.recommendations]:
    it prints [rec.neighborhood], multiplies [rec.matchScore] by 100
    (ToNumber throws where ToString does) and prints
    [rec.matchReasons.join(', ')]. *)
Definition log_recommendation (rec : JSValue) : completion unit :=
  neighborhood ← get rec "neighborhood";
  _ ← to_string neighborhood;
  matchScore ← get rec "matchScore";
  _ ← to_string matchScore;
  reasons ← get rec "matchReasons";
  _ ← array_join reasons ", ";
  Ok tt.

Definition fallback_recommendations (preferences : JSValue) : JSValue :=
  JObj [("recommendations",
         JArr [JObj [("neighborhood", JStr "Downtown");
                     ("matchScore", JNumNonInt "0.7");
                     ("matchReasons", preferences);
                     ("concerns", JArr [JStr "Limited Reddit data available"])]]);
        ("summary",
         JStr "Unable to find specific Reddit data. Please verify the city name and try again.")].

(** [for (const amenityType of amenitiesNeeded) { try { mapData.amenities[amenityType] = ... } catch ... }]:
    an amenity type is made a string when it is used as a key, and in the
    [catch] again. *)
Definition query_display_amenities (city : string) (amenitiesNeeded : list JSValue)
  : completion (gmap string (list Place)) :=
  keys ← map_completion to_string amenitiesNeeded;
  Ok (fold_left (fun m amenityType =>
                   <[amenityType := getAmenityCoordinates_simple city amenityType 5]> m)
                keys ∅).

(** [for (const rec of recommendations.recommendations) { try { ... } catch ... }]:
    the [catch] prints [rec.neighborhood]. *)
Definition neighborhood_boundaries (city : string) (recs : list JSValue)
  : completion (list Boundary) :=
  match map_completion
          (fun rec => getNeighborhoodBoundaries
                        (default JUndefined
                           (assoc "neighborhood"
                              (match rec with JObj fields => fields | _ => [] end)))
                        city) recs with
  | Ok found => Ok (omap (fun boundaries : option Boundary => boundaries) found)
  | Throw e => Throw e
  end.

Definition query_recommendations_try (req : Request) : completion (Response QueryBody) :=
  if negb (present (body_city req)) || negb (present (body_preferences req))
  then Ok (Status400 "City and preferences are required")
  else
    let city := default "" (body_city req) in
    let preferences := default "" (body_preferences req) in
    parsingText ← parsingReply w;
    parsedData ← match JSON_parse (remove_fences parsingText) with
                 | Some v => Ok v
                 | None => Throw SyntaxError
                 end;
    extracted ← get parsedData "preferences";
    redditQueries ← get parsedData "redditQueries";
    redditPosts ← scrapeReddit redditQueries (Some city) None;
    filteredPosts ← (if (0 <? length redditPosts)%nat
                     then filterRelevantPosts redditPosts preferences
                     else Ok []);
    responseText ← analysisReply w;
    match match_braces (strip_fences responseText) with
    | None =>
        Ok (Status200 {| q_city := city; q_userPreferences := preferences;
                         q_recommendations := fallback_recommendations extracted;
                         q_mapData := None |})
    | Some jsonMatch =>
        recommendations ← match JSON_parse jsonMatch with
                          | Some v => Ok v
                          | None => Throw SyntaxError
                          end;
        listed ← get recommendations "recommendations";
        recs ← as_array listed;
        _ ← map_completion log_recommendation recs;
        amenityText ← amenityReply w;
        let amenitiesNeeded :=
          default (JArr (map JStr defaultAmenities))
                  (JSON_parse (strip_fences amenityText)) in
        _ ← array_join amenitiesNeeded ", ";
        types ← as_array amenitiesNeeded;
        neighborhoods ← neighborhood_boundaries city recs;
        shown ← query_display_amenities city types;
        Ok (Status200 {| q_city := city; q_userPreferences := preferences;
                         q_recommendations := recommendations;
                         q_mapData :=
                           Some {| q_cityCoordinates := getCityCoordinates city;
                                   q_amenities := shown;
                                   q_neighborhoods := neighborhoods |} |})
    end.

Definition post_recommendations_query_first (req : Request) : Response QueryBody :=
  match query_recommendations_try req with
  | Ok response => response
  | Throw e => Status500 e
  end.

(** ** POST /api/test-scrape *)

Record ScrapeReport : Type := {
  queriesCount : nat;
  postsScraped : nat;
  posts : list string;
}.

(** [queries] is [req.body.queries], [None] when absent.  An array is
    truthy, so [!queries || !Array.isArray(queries)] is "not an array". *)
Definition test_scrape_try (queries : option JSValue)
  : completion (Response ScrapeReport) :=
  match queries with
  | Some (JArr items) =>
      found ← scrapeReddit (JArr items) None None;
      Ok (Status200 {| queriesCount := length items;
                       postsScraped := length found;
                       posts := found |})
  | _ => Ok (Status400 "Queries array is required")
  end.

Definition post_test_scrape (queries : option JSValue) : Response ScrapeReport :=
  match test_scrape_try queries with
  | Ok response => response
  | Throw e => Status500 e
  end.

(** ** POST /api/debug-recommendations *)

Record DebugReport : Type := {
  debug_city : string;
  debug_preferences : string;
  subredditsDiscovered : list string;
  allPostsScraped : list string;
  filteredPosts : list string;
  totalScraped : nat;
  totalKept : nat;
}.

Definition debug_recommendations_try (req : Request)
  : completion (Response DebugReport) :=
  if negb (present (body_city req)) || negb (present (body_preferences req))
  then Ok (Status400 "City and preferences are required")
  else
    let city := default "" (body_city req) in
    let preferences := default "" (body_preferences req) in
    parsingText ← parsingReply w;
    parsedData ← match JSON_parse (remove_fences parsingText) with
                 | Some v => Ok v
                 | None => Throw SyntaxError
                 end;
    subreddits ← discoverSubreddits city;
    redditQueries ← get parsedData "redditQueries";
    allPosts ← scrapeReddit redditQueries (Some city) (Some subreddits);
    kept ← (if (0 <? length allPosts)%nat
            then filterRelevantPosts allPosts preferences
            else Ok []);
    Ok (Status200 {| debug_city := city;
                     debug_preferences := preferences;
                     subredditsDiscovered := subreddits;
                     allPostsScraped := allPosts;
                     filteredPosts := kept;
                     totalScraped := length allPosts;
                     totalKept := length kept |}).

Definition post_debug_recommendations (req : Request) : Response DebugReport :=
  match debug_recommendations_try req with
  | Ok response => response
  | Throw e => Status500 e
  end.

(** ** The first version of POST /api/recommendations

    As the query-first handler up to the analysis; the amenity types for
    the map are read off the preferences by keyword, and [mapData] has no
    [neighborhoods] field ([q_neighborhoods] stays empty). *)

Definition mentions (preferences : string) (keywords : list string) : bool :=
  existsb (fun kw => includes (toLowerCase preferences) kw) keywords.

(** The three [if (...) amenitiesNeeded.push(...)] statements. *)
Definition keyword_amenities (preferences : string) : list string :=
  ((if mentions preferences ["gym"; "fitness"] then ["gym"] else []) ++
   (if mentions preferences ["grocery"; "supermarket"]
    then ["grocery_or_supermarket"] else []) ++
   (if mentions preferences ["transit"; "bus"; "metro"]
    then ["transit_station"] else []))%list.

Definition keyword_display_amenities (city : string) (amenitiesNeeded : list string)
  : gmap string (list Place) :=
  fold_left (fun m amenityType =>
               <[amenityType := getAmenityCoordinates_simple city amenityType 5]> m)
            amenitiesNeeded ∅.

Definition first_recommendations_try (req : Request) : completion (Response QueryBody) :=
  if negb (present (body_city req)) || negb (present (body_preferences req))
  then Ok (Status400 "City and preferences are required")
  else
    let city := default "" (body_city req) in
    let preferences := default "" (body_preferences req) in
    parsingText ← parsingReply w;
    parsedData ← match JSON_parse (remove_fences parsingText) with
                 | Some v => Ok v
                 | None => Throw SyntaxError
                 end;
    extracted ← get parsedData "preferences";
    redditQueries ← get parsedData "redditQueries";
    redditPosts ← scrapeReddit redditQueries (Some city) None;
    kept ← (if (0 <? length redditPosts)%nat
            then filterRelevantPosts redditPosts preferences
            else Ok []);
    responseText ← analysisReply w;
    match match_braces (strip_fences responseText) with
    | None =>
        Ok (Status200 {| q_city := city; q_userPreferences := preferences;
                         q_recommendations := fallback_recommendations extracted;
                         q_mapData := None |})
    | Some jsonMatch =>
        recommendations ← match JSON_parse jsonMatch with
                          | Some v => Ok v
                          | None => Throw SyntaxError
                          end;
        listed ← get recommendations "recommendations";
        recs ← as_array listed;
        _ ← map_completion log_recommendation recs;
        Ok (Status200 {| q_city := city; q_userPreferences := preferences;
                         q_recommendations := recommendations;
                         q_mapData :=
                           Some {| q_cityCoordinates := getCityCoordinates city;
                                   q_amenities :=
                                     keyword_display_amenities city
                                       (keyword_amenities preferences);
                                   q_neighborhoods := [] |} |})
    end.

Definition post_recommendations_first_version (req : Request) : Response QueryBody :=
  match first_recommendations_try req with
  | Ok response => response
  | Throw e => Status500 e
  end.

End Server.
(** * Specification-side definitions *)

(** ** Relevance verdicts *)

(** The data model's RelevanceVerdict and the JSON object that carries it. *)
Record RelevanceVerdict : Type := {
  postIndex : Z;
  isRelevant : bool;
  reason : string;
}.

Definition verdict_json (v : RelevanceVerdict) : JSValue :=
  JObj [("postIndex", JNum (postIndex v));
        ("isRelevant", JBool (isRelevant v));
        ("reason", JStr (reason v))].

(** The verdict of the post at 1-based position [position]. *)
Definition matching_verdict (verdicts : list RelevanceVerdict) (position : Z)
  : option RelevanceVerdict :=
  List.find (fun v => postIndex v =? position) verdicts.

Definition relevant_at (verdicts : list RelevanceVerdict) (i : nat) : bool :=
  match matching_verdict verdicts (Z.of_nat i + 1) with
  | Some v => isRelevant v
  | None => false
  end.

(** The posts whose verdict says relevant, in their original order. *)
Definition kept_posts (verdicts : list RelevanceVerdict) (posts : list string)
  : list string :=
  (List.filter (fun ip => relevant_at verdicts ip.1) (imap pair posts)).*2.

(** ** Neighborhood aggregates *)

(** sum(amenityCounts.values()) *)
Definition sum_of_values (m : gmap string Z) : Z :=
  map_fold (fun _ v acc => v + acc) 0 m.

(** The number of non-zero entries of amenityCounts. *)
Definition nonzero_entries (m : gmap string Z) : nat :=
  size (filter (fun kv => kv.2 <> 0) m).

(** The located Place records of a run, each with the amenity type it was
    located for, in the order the scorer visits them. *)
Definition tagged (located : list (string * list Place)) : list (string * Place) :=
  flat_map (fun '(t, ps) => map (pair t) ps) located.

(** The aggregate of neighborhood [n] in a ranked sequence. *)
Definition aggregate_of (n : string) (scored : list ScoredNeighborhood)
  : option ScoredNeighborhood :=
  List.find (fun r => String.eqb (neighborhood r) n) scored.

(** What attributing one place of type [t] to neighborhood [n] does to the
    counts. *)
Definition bump (n t : string) (scores : gmap string (gmap string Z))
  : gmap string (gmap string Z) :=
  let counts := default ∅ (scores !! n) in
  <[n := <[t := default 0 (counts !! t) + 1]> counts]> scores.

Definition bump_resolved (t : string) (resolved : option string)
    (scores : gmap string (gmap string Z)) : gmap string (gmap string Z) :=
  match resolved with
  | Some n => if nonempty_string n then bump n t scores else scores
  | None => scores
  end.

(** Every count that is recorded is at least 1. *)
Definition counts_positive (scores : gmap string (gmap string Z)) : Prop :=
  forall n counts t c, scores !! n = Some counts -> counts !! t = Some c -> (1 <= c)%Z.

(** The creation order lists exactly the neighborhoods that have counts,
    each once. *)
Definition well_keyed (b : Buckets) : Prop :=
  NoDup (created b) /\ (forall n, n ∈ created b <-> is_Some (neighborhoodScores b !! n)).

(** ** Forum discovery *)

(** The search answered and none of its results passed the relevance
    test. *)
Definition zero_matches (w : World) (city : string) : Prop :=
  match subredditSearch w city with
  | Ok (Some children) => collect_subreddits city children = Ok []
  | Ok None => True
  | Throw _ => False
  end.

(** ** Sample collaborators

    A request for Springfield with concrete answers of the collaborators,
    used to run the program on. *)

Definition dq : string := String (ascii_of_nat 34) EmptyString.

Definition quoted (s : string) : string := dq ++ s ++ dq.

Definition sample_verdicts : list RelevanceVerdict :=
  [ {| postIndex := 1; isRelevant := true; reason := "names quiet areas" |};
    {| postIndex := 3; isRelevant := false; reason := "about parking fines" |} ].

Definition verdicts_text : string :=
  "[{" ++ quoted "postIndex" ++ ":1," ++ quoted "isRelevant" ++ ":true,"
       ++ quoted "reason" ++ ":" ++ quoted "names quiet areas" ++ "},{"
       ++ quoted "postIndex" ++ ":3," ++ quoted "isRelevant" ++ ":false,"
       ++ quoted "reason" ++ ":" ++ quoted "about parking fines" ++ "}]".

Definition gym_text : string :=
  "{" ++ quoted "amenities" ++ ":[{" ++ quoted "type" ++ ":" ++ quoted "gym" ++ ","
      ++ quoted "specificNames" ++ ":[]}]}".

Definition no_amenities_text : string := "{" ++ quoted "amenities" ++ ":[]}".

Definition queries_text : string := "[" ++ quoted "quiet neighborhoods Springfield" ++ "]".

Definition parsing_text : string :=
  "{" ++ quoted "preferences" ++ ":[" ++ quoted "quiet" ++ "],"
      ++ quoted "redditQueries" ++ ":[" ++ quoted "quiet neighborhoods Springfield" ++ "]}".

Definition model_recommendation (n : string) : JSValue :=
  JObj [("neighborhood", JStr n); ("matchScore", JNumNonInt "0.8");
        ("matchReasons", JArr [JStr "quiet"]); ("concerns", JArr [])].

Definition six_neighborhoods : list string :=
  ["Downtown"; "Uptown"; "Eastside"; "Westside"; "Northgate"; "Southgate"].

Definition six_recommendations : JSValue :=
  JObj [("recommendations", JArr (map model_recommendation six_neighborhoods));
        ("summary", JStr "Six quiet areas")].

Definition recommendation_text (n : string) : string :=
  "{" ++ quoted "neighborhood" ++ ":" ++ quoted n ++ "," ++ quoted "matchScore" ++ ":0.8,"
      ++ quoted "matchReasons" ++ ":[" ++ quoted "quiet" ++ "]," ++ quoted "concerns" ++ ":[]}".

Definition six_text : string :=
  "{" ++ quoted "recommendations" ++ ":[" ++ join "," (map recommendation_text six_neighborhoods)
      ++ "]," ++ quoted "summary" ++ ":" ++ quoted "Six quiet areas" ++ "}".

(** [JSON.parse] on the texts above; any other text is taken to be
    malformed. *)
Definition sample_parse (text : string) : option JSValue :=
  snd <$> List.find (fun entry => String.eqb text (fst entry))
    [ (verdicts_text, JArr (map verdict_json sample_verdicts));
      (gym_text, JObj [("amenities",
                        JArr [JObj [("type", JStr "gym"); ("specificNames", JArr [])]])]);
      (no_amenities_text, JObj [("amenities", JArr [])]);
      (queries_text, JArr [JStr "quiet neighborhoods Springfield"]);
      (parsing_text, JObj [("preferences", JArr [JStr "quiet"]);
                           ("redditQueries", JArr [JStr "quiet neighborhoods Springfield"])]);
      (six_text, six_recommendations);
      ("{}", JObj []);
      ("[]", JArr []) ].

Definition sample_posts : list RedditPost :=
  [ {| title := "Quiet parts of town?"; selftext := "Looking at Downtown and Uptown.";
       subreddit := "springfield" |};
    {| title := "Link only"; selftext := ""; subreddit := "springfield" |};
    {| title := "Gyms near Uptown"; selftext := "Any good ones?"; subreddit := "springfield" |};
    {| title := "Parking fines"; selftext := "Got a ticket again."; subreddit := "springfield" |} ].

Definition gym_a : RawPlace := {| place_name := "Gym A"; place_lat := 1; place_lng := 1 |}.
Definition gym_b : RawPlace := {| place_name := "Gym B"; place_lat := 2; place_lng := 2 |}.

Definition named_neighborhood (n : string) : GeocodeResult :=
  {| address_components := Some [ {| long_name := n; types := ["neighborhood"; "political"] |} ];
     formatted_address := n ++ ", Springfield" |}.

(** The world of the sample request, for a given reply to the amenity
    extraction, a given reply to the relevance filter, a given outcome of
    the subreddit search and given gyms around the city centre. *)
Definition sample_world (amenity filter : completion string)
    (subs : completion (option (list Subreddit))) (found : list RawPlace) : World :=
  {| amenityReply := amenity;
     neighborhoodReply := Ok "[]";
     qualitativeReply := Ok queries_text;
     filterReply := filter;
     scoringReply := Ok "{}";
     concernsReply := Ok "{}";
     parsingReply := Ok parsing_text;
     analysisReply := Ok six_text;
     subredditSearch := fun _ => subs;
     postSearch := fun _ => Ok (Some sample_posts);
     geocode := fun _ => Ok (Some [(39, -89)]);
     placesNearbyKeyword := fun _ _ _ _ => Ok {| results := Some []; next_page_token := None |};
     placesNearbyType := fun _ _ _ _ => Ok {| results := Some found; next_page_token := None |};
     reverseGeocode := fun '(la, lo) =>
       if la =? 1 then Ok (Some [named_neighborhood "Downtown"])
       else if la =? 2 then Ok (Some [named_neighborhood "Uptown"])
       else Ok (Some []);
     nominatimSearch := fun _ => Ok None |}.

Definition sample_request : Request :=
  {| body_city := Some "Springfield"; body_preferences := Some "close to gyms, quiet area" |}.

(** The world of the specification's scenario: Gym A resolves to Downtown
    and Gym B to Uptown. *)
Definition scenario_world : World :=
  sample_world (Ok gym_text) (Ok verdicts_text) (Ok (Some [])) [gym_a; gym_b].

(** The aggregate of Downtown in that scenario: one gym. *)
Definition downtown_aggregate : ScoredNeighborhood :=
  score_entry ("Downtown", {["gym" := 1]}).

Definition place_a : Place := to_place "gym" gym_a.
Definition place_b : Place := to_place "gym" gym_b.

(** ** Requests *)

(** Both required fields of the body are there (and not empty). *)
Definition well_formed (req : Request) : Prop :=
  present (body_city req) = true /\ present (body_preferences req) = true.

(** The amenity list is not empty and the scorer attributes no located
    place to any neighborhood. *)
Definition no_neighborhood_found (JSON_parse : string -> option JSValue) (w : World)
    (req : Request) : Prop :=
  exists amenityText amenitiesNeeded specificBrands,
    amenityReply w = Ok amenityText /\
    extract_amenities JSON_parse (strip_fences amenityText)
      = Ok (amenitiesNeeded, specificBrands) /\
    amenitiesNeeded <> [] /\
    (scoreNeighborhoodsByAmenities w (default "" (body_city req))
       amenitiesNeeded specificBrands).1 = [].

Definition is_400 {B} (r : Response B) : Prop :=
  exists message, r = Status400 message.

(** The scenario with no gym anywhere near the city centre. *)
Definition gymless_world : World :=
  sample_world (Ok gym_text) (Ok verdicts_text) (Ok (Some [])) [].

(** The scenario with an amenity reply that is not JSON (the query-first
    handler then uses the default amenity types). *)
Definition chatty_world : World :=
  sample_world (Ok "They seem to want gyms.") (Ok verdicts_text) (Ok (Some []))
    [gym_a; gym_b].

(** The scenario with a relevance reply that is a JSON object. *)
Definition object_reply_world : World :=
  sample_world (Ok gym_text) (Ok "{}") (Ok (Some [])) [gym_a; gym_b].

(** [recommendations.recommendations.length] of a query-first body. *)
Definition listed_recommendations (body : QueryBody) : option (list JSValue) :=
  match q_recommendations body with
  | JObj fields =>
      match assoc "recommendations" fields with
      | Some (JArr items) => Some items
      | _ => None
      end
  | _ => None
  end.

(** The search queries of step 3: the parsed reply, or the two default
    queries when it does not parse. *)
Definition reddit_queries (JSON_parse : string -> option JSValue) (city qualText : string)
  : JSValue :=
  match JSON_parse (strip_fences qualText) with
  | Some queries => queries
  | None => JArr [JStr ("neighborhoods in " ++ city);
                  JStr ("best places to live in " ++ city)]
  end.

(** The amenity-first handler gets as far as calling the relevance filter
    on [posts]. *)
Definition filter_reached (JSON_parse : string -> option JSValue) (w : World)
    (req : Request) (posts : list string) : Prop :=
  well_formed req /\
  exists amenityText amenitiesNeeded specificBrands qualText,
    amenityReply w = Ok amenityText /\
    extract_amenities JSON_parse (strip_fences amenityText)
      = Ok (amenitiesNeeded, specificBrands) /\
    amenitiesNeeded <> [] /\
    (scoreNeighborhoodsByAmenities w (default "" (body_city req))
       amenitiesNeeded specificBrands).1 <> [] /\
    qualitativeReply w = Ok qualText /\
    scrapeReddit w (reddit_queries JSON_parse (default "" (body_city req)) qualText)
      (body_city req) None = Ok posts.

(** The posts the sample search finds for one query. *)
Definition scraped_posts : list string :=
  map post_content (List.filter has_title_and_text sample_posts).

(** * Further specification-side definitions *)

(** ** What the scorer attributes *)

(** The located places the scorer attributes, in the order it visits them:
    those the resolver gives a non-empty name, with that name and the
    amenity type they were located for. *)
Definition attributions (resolve : Place -> option string)
    (located : list (string * list Place)) : list (string * string * Place) :=
  omap (fun ta =>
          match resolve ta.2 with
          | Some n => if nonempty_string n then Some (n, ta.1, ta.2) else None
          | None => None
          end)
       (tagged located).

(** The attributed places of neighborhood [n] and type [t], in order. *)
Definition attributed_to (n t : string) (attrs : list (string * string * Place))
  : list Place :=
  omap (fun x => if String.eqb x.1.1 n && String.eqb x.1.2 t then Some x.2 else None)
       attrs.

(** [neighborhoodScores[n][t]], 0 when absent. *)
Definition counts_of (b : Buckets) (n t : string) : Z :=
  default 0 (default ∅ (neighborhoodScores b !! n) !! t).

(** [neighborhoodAmenities[n][t]], empty when absent. *)
Definition places_of (b : Buckets) (n t : string) : list Place :=
  default [] (default ∅ (neighborhoodAmenities b !! n) !! t).

(** Every count is the length of the list kept beside it. *)
Definition counts_match (b : Buckets) : Prop :=
  forall n t, counts_of b n t = Z.of_nat (length (places_of b n t)).

(** The scorer's two loops as one loop over the tagged places. *)
Definition bucket_tagged (resolve : Place -> option string)
    (l : list (string * Place)) (b : Buckets) : Buckets :=
  fold_left (fun acc ta => attribute ta.1 acc ta.2 (resolve ta.2)) l b.

(** The attribution of one tagged place, if the resolver names a
    neighborhood for it. *)
Definition attribution_of (resolve : Place -> option string) (ta : string * Place)
  : option (string * string * Place) :=
  match resolve ta.2 with
  | Some n => if nonempty_string n then Some (n, ta.1, ta.2) else None
  | None => None
  end.

(** The sum of [totalAmenities] over a ranked sequence. *)
Definition total_counted (scored : list ScoredNeighborhood) : Z :=
  foldr (fun r acc => totalAmenities r + acc) 0 scored.

(** The sum of all counts of all neighborhoods. *)
Definition grand_total (scores : gmap string (gmap string Z)) : Z :=
  map_fold (fun _ counts acc => sum_of_values counts + acc) 0 scores.

(** No neighborhood is recorded without a count. *)
Definition counts_nonempty (scores : gmap string (gmap string Z)) : Prop :=
  forall n counts, scores !! n = Some counts -> counts <> ∅.

(** Descending by amenityScore. *)
Definition score_ge (x y : ScoredNeighborhood) : Prop :=
  amenityScore y <= amenityScore x.

(** The entries of a sequence that have score [s]. *)
Definition with_score (s : Z) (l : list ScoredNeighborhood) : list ScoredNeighborhood :=
  List.filter (fun r => amenityScore r =? s) l.

(** ** The provider's page size *)

(** Every page of the nearby search by type has at most [k] results. *)
Definition pages_at_most (w : World) (k : nat) : Prop :=
  forall cityCoords radius amenityType token response,
    placesNearbyType w cityCoords radius amenityType token = Ok response ->
    (length (default [] (results response)) <= k)%nat.

(** Every post search answers with at most [k] children. *)
Definition searches_at_most (w : World) (k : nat) : Prop :=
  forall fullQuery children,
    postSearch w fullQuery = Ok (Some children) -> (length children <= k)%nat.

(** A name in which some significant word (more than two characters) of
    the brand occurs, ignoring case. *)
Definition names_brand (brandName placeName : string) : Prop :=
  exists part,
    In part (words_from "" (toLowerCase brandName))
    /\ (2 < String.length part)%nat
    /\ includes (toLowerCase placeName) part = true.

(** A world that differs from [w] in what the keyword search finds. *)
Definition with_keyword_places (found : list RawPlace) (w : World) : World :=
  {| amenityReply := amenityReply w;
     neighborhoodReply := neighborhoodReply w;
     qualitativeReply := qualitativeReply w;
     filterReply := filterReply w;
     scoringReply := scoringReply w;
     concernsReply := concernsReply w;
     parsingReply := parsingReply w;
     analysisReply := analysisReply w;
     subredditSearch := subredditSearch w;
     postSearch := postSearch w;
     geocode := geocode w;
     placesNearbyKeyword := fun _ _ _ _ =>
       Ok {| results := Some found; next_page_token := None |};
     placesNearbyType := placesNearbyType w;
     reverseGeocode := reverseGeocode w;
     nominatimSearch := nominatimSearch w |}.

Definition crunch_downtown : RawPlace :=
  {| place_name := "Crunch Fitness Downtown"; place_lat := 1; place_lng := 1 |}.
Definition crunch_test_site : RawPlace :=
  {| place_name := "Crunch TEST location"; place_lat := 2; place_lng := 2 |}.
Definition yoga_studio : RawPlace :=
  {| place_name := "Sunrise Yoga"; place_lat := 2; place_lng := 2 |}.

(** The scenario with a keyword search that finds three places. *)
Definition brand_world : World :=
  with_keyword_places [crunch_downtown; crunch_test_site; yoga_studio] scenario_world.

(** ** Forum discovery and post retrieval *)

(** The search result [sr], named [n], passes the relevance test for
    [city]. *)
Definition relevant_subreddit (city : string) (sr : Subreddit) (n : string) : Prop :=
  display_name sr = Some n
  /\ 100 < subscribers sr
  /\ over18 sr = false
  /\ (includes (toLowerCase n) (toLowerCase city) = true
      \/ exists d, public_description sr = Some d
           /\ (includes (toLowerCase d) "neighborhood" = true
               \/ includes (toLowerCase d) "live" = true
               \/ includes (toLowerCase d) "ask" = true)).

(** The text of a post made from [child] with body excerpt [excerpt]. *)
Definition post_text (child : RedditPost) (excerpt : string) : string :=
  "Title: " ++ title child ++ newline ++
  "Content: " ++ excerpt ++ newline ++
  "Subreddit: r/" ++ subreddit child.

(** A value that can be made a string: every parsed value but an object
    with a property [toString] of its own, and an array that holds one. *)
Definition printable (v : JSValue) : Prop := returns (to_string v).

(** The amenity-first handler gets as far as scraping with the parsed
    qualitative reply [queries]. *)
Definition scrape_reached (JSON_parse : string -> option JSValue) (w : World)
    (req : Request) (queries : JSValue) : Prop :=
  well_formed req /\
  exists amenityText amenitiesNeeded specificBrands qualText,
    amenityReply w = Ok amenityText /\
    extract_amenities JSON_parse (strip_fences amenityText)
      = Ok (amenitiesNeeded, specificBrands) /\
    amenitiesNeeded <> [] /\
    (scoreNeighborhoodsByAmenities w (default "" (body_city req))
       amenitiesNeeded specificBrands).1 <> [] /\
    qualitativeReply w = Ok qualText /\
    JSON_parse (strip_fences qualText) = Some queries.

(** The scenario with a qualitative reply that is a JSON object. *)
Definition object_queries_world : World :=
  {| amenityReply := Ok gym_text;
     neighborhoodReply := Ok "[]";
     qualitativeReply := Ok "{}";
     filterReply := Ok verdicts_text;
     scoringReply := Ok "{}";
     concernsReply := Ok "{}";
     parsingReply := Ok parsing_text;
     analysisReply := Ok six_text;
     subredditSearch := subredditSearch scenario_world;
     postSearch := postSearch scenario_world;
     geocode := geocode scenario_world;
     placesNearbyKeyword := placesNearbyKeyword scenario_world;
     placesNearbyType := placesNearbyType scenario_world;
     reverseGeocode := reverseGeocode scenario_world;
     nominatimSearch := nominatimSearch scenario_world |}.

Definition springfield_subreddit : Subreddit :=
  {| subscribers := 5200; over18 := false; display_name := Some "SpringfieldIL";
     public_description := Some "News and events" |}.
Definition tiny_subreddit : Subreddit :=
  {| subscribers := 40; over18 := false; display_name := Some "springfieldcats";
     public_description := Some "Cats of Springfield" |}.

(** The scenario with a subreddit search that finds two communities. *)
Definition forum_world : World :=
  sample_world (Ok gym_text) (Ok verdicts_text)
    (Ok (Some [tiny_subreddit; springfield_subreddit])) [gym_a; gym_b].

(** ** Handlers *)

Definition is_500 {B} (r : Response B) : Prop :=
  exists e, r = Status500 e.

(** The scenario seen by the debug endpoint, with a relevance reply that
    is not JSON. *)
Definition debug_world : World :=
  sample_world (Ok gym_text) (Ok "All of these look relevant.") (Ok (Some []))
    [gym_a; gym_b].

(** ** Text *)

(** The text has no backtick. *)
Fixpoint no_backtick (s : string) : bool :=
  match s with
  | EmptyString => true
  | String c t => negb (Ascii.eqb c "`"%char) && no_backtick t
  end.

(** The text does not contain the character [c]. *)
Fixpoint lacks (c : ascii) (s : string) : bool :=
  match s with
  | EmptyString => true
  | String c' t => negb (Ascii.eqb c c') && lacks c t
  end.

(** ** Responses *)

(** A [concerns] value that is there and is not an empty list. *)
Definition some_concern (v : JSValue) : bool :=
  truthy v && negb (length_is_zero v).

(** The concerns reply did not parse, or parsed to a JSON object. *)
Definition concerns_usable (JSON_parse : string -> option JSValue) (w : World) : Prop :=
  exists concernsText,
    concernsReply w = Ok concernsText
    /\ (JSON_parse (strip_fences concernsText) = None
        \/ exists fields, JSON_parse (strip_fences concernsText) = Some (JObj fields)).

(** The query-first handler gets as far as matching braces in the analysis
    reply [responseText], after extracting [extracted] as preferences. *)
Definition analysis_reached (JSON_parse : string -> option JSValue) (w : World)
    (req : Request) (extracted : JSValue) (responseText : string) : Prop :=
  well_formed req /\
  exists parsingText parsedData redditQueries redditPosts,
    parsingReply w = Ok parsingText /\
    JSON_parse (remove_fences parsingText) = Some parsedData /\
    get parsedData "preferences" = Ok extracted /\
    get parsedData "redditQueries" = Ok redditQueries /\
    scrapeReddit w redditQueries (Some (default "" (body_city req))) None
      = Ok redditPosts /\
    (redditPosts = [] \/
     returns (filterRelevantPosts JSON_parse w redditPosts
                (default "" (body_preferences req)))) /\
    analysisReply w = Ok responseText.

(** A world that differs from [w] in the replies to the parsing prompt and
    to the analysis prompt. *)
Definition with_query_replies (parsing analysis : completion string) (w : World) : World :=
  {| amenityReply := amenityReply w;
     neighborhoodReply := neighborhoodReply w;
     qualitativeReply := qualitativeReply w;
     filterReply := filterReply w;
     scoringReply := scoringReply w;
     concernsReply := concernsReply w;
     parsingReply := parsing;
     analysisReply := analysis;
     subredditSearch := subredditSearch w;
     postSearch := postSearch w;
     geocode := geocode w;
     placesNearbyKeyword := placesNearbyKeyword w;
     placesNearbyType := placesNearbyType w;
     reverseGeocode := reverseGeocode w;
     nominatimSearch := nominatimSearch w |}.

(** The scenario with an analysis reply in prose. *)
Definition prose_analysis_world : World :=
  with_query_replies (Ok parsing_text) (Ok "Sorry, nothing specific came up.")
    scenario_world.

(** The scenario with a parsing reply in prose. *)
Definition prose_parsing_world : World :=
  with_query_replies (Ok "Here are some queries you could try.") (Ok six_text)
    scenario_world.

(** The scenario with an analysis reply whose braces do not hold JSON. *)
Definition broken_analysis_world : World :=
  with_query_replies (Ok parsing_text) (Ok "{ recommendations: see above }")
    scenario_world.

(** The amenity-extraction step ends with [amenitiesNeeded] and
    [specificBrands]. *)
Definition amenities_extracted (JSON_parse : string -> option JSValue) (w : World)
    (amenitiesNeeded : list string) (specificBrands : gmap string JSValue)
  : Prop :=
  exists amenityText,
    amenityReply w = Ok amenityText /\
    extract_amenities JSON_parse (strip_fences amenityText)
      = Ok (amenitiesNeeded, specificBrands).

(** The places the scorer lists under a neighborhood and an amenity type. *)
Definition listed_under (found : gmap string (gmap string (list Place)))
    (n t : string) : list Place :=
  default [] (found !! n ≫= fun byType => byType !! t).

(** * Properties *)

(** Case analysis on the first awaited step of a handler body. *)
Ltac bind_step H :=
  lazymatch type of H with
  | @mbind _ _ _ _ _ ?c = _ =>
      let x := fresh "x" in
      let Hx := fresh "H" x in
      destruct c as [x|] eqn:Hx; cbn [mbind completion_bind] in H; [|discriminate H]
  end.

(** ** The relevance filter *)

Lemma find_first_verdict (verdicts : list RelevanceVerdict) (position : Z) :
  find_first
    (fun s => idx ← get s "postIndex"; Ok (strict_eq_int idx position))
    (map verdict_json verdicts)
  = Ok (from_option verdict_json JUndefined (matching_verdict verdicts position)).
Proof.
  induction verdicts as [|v vs IH]; [reflexivity|].
  cbn [map find_first matching_verdict List.find].
  change (get (verdict_json v) "postIndex") with (Ok (JNum (postIndex v))).
  cbn [mbind completion_bind strict_eq_int].
  destruct (postIndex v =? position); [reflexivity|exact IH].
Qed.

Lemma post_is_kept_verdicts (verdicts : list RelevanceVerdict) (i : nat) :
  post_is_kept (JArr (map verdict_json verdicts)) i = Ok (relevant_at verdicts i).
Proof.
  unfold post_is_kept, relevant_at, array_find.
  rewrite find_first_verdict.
  destruct (matching_verdict verdicts (Z.of_nat i + 1)) as [v|]; reflexivity.
Qed.

Lemma filter_from_verdicts (verdicts : list RelevanceVerdict) (posts : list string) :
  forall (i : nat),
    filter_from (JArr (map verdict_json verdicts)) i posts
    = Ok (List.filter (fun ip => relevant_at verdicts ip.1)
                      (imap (fun k p => ((i + k)%nat, p)) posts)).*2.
Proof.
  induction posts as [|p rest IH]; intros i; [reflexivity|].
  cbn [filter_from]. rewrite post_is_kept_verdicts, (IH (S i)).
  cbn [mbind completion_bind imap List.filter].
  replace (i + 0)%nat with i by lia. cbn [fst].
  assert (Hshift : imap ((fun k p => ((i + k)%nat, p)) ∘ S) rest
                   = imap (fun k p => ((S i + k)%nat, p)) rest).
  { apply imap_ext. intros k x _. cbn. f_equal. lia. }
  rewrite Hshift.
  destruct (relevant_at verdicts i); reflexivity.
Qed.

Lemma filtered_indexed_sublist {A} (keep : nat * A -> bool) (f : nat -> nat) (l : list A) :
  (List.filter keep (imap (fun k x => (f k, x)) l)).*2 `sublist_of` l.
Proof.
  revert f. induction l as [|x l IH]; intros f; [constructor|].
  cbn [imap List.filter].
  destruct (keep (f 0%nat, x)).
  - cbn. apply sublist_skip. apply (IH (f ∘ S)).
  - apply sublist_cons. apply (IH (f ∘ S)).
Qed.

Lemma kept_posts_sublist (verdicts : list RelevanceVerdict) (posts : list string) :
  kept_posts verdicts posts `sublist_of` posts.
Proof. apply (filtered_indexed_sublist _ (fun k => k)). Qed.

(** A post is in the result, at its place, exactly when its verdict exists
    and says relevant. *)
Lemma relevant_at_spec (verdicts : list RelevanceVerdict) (i : nat) :
  relevant_at verdicts i = true <->
  exists v, matching_verdict verdicts (Z.of_nat i + 1) = Some v /\ isRelevant v = true.
Proof.
  unfold relevant_at.
  destruct (matching_verdict verdicts (Z.of_nat i + 1)) as [v|].
  - split; [intros H; exists v; auto | intros (v' & Hv & H); congruence].
  - split; [discriminate | intros (v' & Hv & _); discriminate].
Qed.

(** A reply that parses to something other than an array makes the
    callback of [posts.filter] throw at the first post. *)
Lemma filter_from_not_array (v : JSValue) (i : nat) (posts : list string) :
  posts <> [] -> (forall items, v <> JArr items) ->
  filter_from v i posts = Throw TypeError.
Proof.
  intros Hposts Hv. destruct posts as [|p rest]; [congruence|].
  cbn [filter_from]. unfold post_is_kept, array_find.
  destruct v; try reflexivity. exfalso. eapply Hv. reflexivity.
Qed.

(** C2. Fail-open filter: when the reply of the language model is not
    parsable as JSON, [filterRelevantPosts] returns the posts it was given,
    unchanged: same length, same elements, same order. *)
Theorem filter_fails_open (JSON_parse : string -> option JSValue) (w : World)
    (posts : list string) (preferences content : string) :
  filterReply w = Ok content ->
  JSON_parse (strip_fences content) = None ->
  filterRelevantPosts JSON_parse w posts preferences = Ok posts.
Proof.
  intros Hreply Hparse. unfold filterRelevantPosts.
  rewrite Hreply. cbn [mbind completion_bind]. rewrite Hparse. reflexivity.
Qed.

Lemma filter_fails_open_witness :
  filterRelevantPosts sample_parse
    (sample_world (Ok gym_text) (Ok "Sure! Here is my analysis.") (Ok (Some [])) [gym_a])
    ["first post"; "second post"] "quiet area"
  = Ok ["first post"; "second post"].
Proof.
  apply (filter_fails_open sample_parse _ _ _ "Sure! Here is my analysis.");
    reflexivity.
Defined.

(** C6. On a reply that parses to an array of relevance verdicts,
    [filterRelevantPosts] keeps exactly the posts whose matching verdict
    (the entry whose postIndex is the post's 1-based position) has
    isRelevant = true; a post without a matching verdict is dropped; the
    kept posts are in their original relative order. *)
Theorem filter_keeps_relevant (JSON_parse : string -> option JSValue) (w : World)
    (posts : list string) (preferences content : string)
    (verdicts : list RelevanceVerdict) :
  filterReply w = Ok content ->
  JSON_parse (strip_fences content) = Some (JArr (map verdict_json verdicts)) ->
  filterRelevantPosts JSON_parse w posts preferences = Ok (kept_posts verdicts posts)
  /\ kept_posts verdicts posts `sublist_of` posts
  /\ (forall i, relevant_at verdicts i = true <->
        exists v, matching_verdict verdicts (Z.of_nat i + 1) = Some v
                  /\ isRelevant v = true)
  /\ (forall i, matching_verdict verdicts (Z.of_nat i + 1) = None ->
        relevant_at verdicts i = false).
Proof.
  intros Hreply Hparse. split; [|split; [|split]].
  - unfold filterRelevantPosts. rewrite Hreply. cbn [mbind completion_bind].
    rewrite Hparse. rewrite filter_from_verdicts. reflexivity.
  - apply kept_posts_sublist.
  - intros i. apply relevant_at_spec.
  - intros i Hnone. unfold relevant_at. rewrite Hnone. reflexivity.
Qed.

Lemma filter_keeps_relevant_witness :
  filterRelevantPosts sample_parse
    (sample_world (Ok gym_text) (Ok verdicts_text) (Ok (Some [])) [gym_a])
    ["first post"; "second post"; "third post"] "quiet area"
  = Ok ["first post"].
Proof.
  apply (filter_keeps_relevant sample_parse _ ["first post"; "second post"; "third post"]
           "quiet area" verdicts_text sample_verdicts); reflexivity.
Defined.

(** ** Forum discovery *)

Lemma fallbackSubreddits_nonempty (city : string) :
  city <> "" ->
  fallbackSubreddits city
  = [toLowerCase city; toLowerCase city ++ "housing"; "Ask" ++ city;
     toLowerCase city ++ "neighborhoods"].
Proof.
  intros Hcity. destruct city as [|c t]; [congruence|]. reflexivity.
Qed.

Lemma discoverSubreddits_returns (w : World) (city : string) :
  returns (discoverSubreddits w city).
Proof.
  unfold returns, discoverSubreddits, try_catch.
  destruct (subredditSearch w city) as [response|e]; cbn [mbind completion_bind];
    [|eauto].
  destruct (match response with
            | Some children => collect_subreddits city children
            | None => Ok []
            end) as [subreddits|e]; cbn [mbind completion_bind]; [|eauto].
  destruct (0 <? length subreddits)%nat; eauto.
Qed.

(** C7. For a city name (a non-empty string, as forum discovery is
    specified and as every caller guards it), a search without relevant
    matches makes [discoverSubreddits] return the four generated names; a
    failed search makes it return the two-element fallback; and it never
    throws. *)
Theorem discover_fallbacks (w : World) (city : string) :
  (city <> "" -> zero_matches w city ->
   discoverSubreddits w city
   = Ok [toLowerCase city; toLowerCase city ++ "housing"; "Ask" ++ city;
         toLowerCase city ++ "neighborhoods"])
  /\ (forall e, subredditSearch w city = Throw e ->
      discoverSubreddits w city = Ok [toLowerCase city; "Ask" ++ city])
  /\ returns (discoverSubreddits w city).
Proof.
  split; [|split].
  - intros Hcity Hzero. unfold zero_matches in Hzero. unfold discoverSubreddits.
    destruct (subredditSearch w city) as [[children|]|e]; [| |contradiction];
      cbn [mbind completion_bind try_catch].
    + rewrite Hzero, <- (fallbackSubreddits_nonempty city Hcity). reflexivity.
    + rewrite <- (fallbackSubreddits_nonempty city Hcity). reflexivity.
  - intros e He. unfold discoverSubreddits. rewrite He. reflexivity.
  - apply discoverSubreddits_returns.
Qed.

Lemma discover_fallbacks_witness :
  discoverSubreddits (sample_world (Ok gym_text) (Ok verdicts_text) (Ok (Some [])) [gym_a])
    "Springfield"
  = Ok ["springfield"; "springfieldhousing"; "AskSpringfield"; "springfieldneighborhoods"]
  /\ discoverSubreddits
       (sample_world (Ok gym_text) (Ok verdicts_text) (Throw TransportError) [gym_a])
       "Springfield"
     = Ok ["springfield"; "AskSpringfield"].
Proof.
  split.
  - apply (proj1 (discover_fallbacks
                    (sample_world (Ok gym_text) (Ok verdicts_text) (Ok (Some [])) [gym_a])
                    "Springfield")); [discriminate | reflexivity].
  - apply (proj1 (proj2 (discover_fallbacks
                    (sample_world (Ok gym_text) (Ok verdicts_text) (Throw TransportError) [gym_a])
                    "Springfield")) TransportError).
    reflexivity.
Defined.

(** ** Amenity extraction *)

Lemma parse_failure_gives_defaults (JSON_parse : string -> option JSValue)
    (amenityText : string) :
  JSON_parse amenityText = None ->
  extract_amenities JSON_parse amenityText = Ok (defaultAmenities, ∅).
Proof.
  intros Hparse. unfold extract_amenities, parse_amenities, read_amenities.
  rewrite Hparse. reflexivity.
Qed.

(** C8. When the reply to the amenity extraction fails to parse, the
    amenity list of the pipeline is exactly gym, grocery_or_supermarket (no
    brand names), and the extraction step raises no error. *)
Theorem amenity_defaults_on_parse_failure (JSON_parse : string -> option JSValue)
    (amenityText : string) :
  JSON_parse amenityText = None ->
  extract_amenities JSON_parse amenityText = Ok (["gym"; "grocery_or_supermarket"], ∅).
Proof.
  intros Hparse. unfold extract_amenities, parse_amenities, read_amenities.
  rewrite Hparse. reflexivity.
Qed.

Lemma amenity_defaults_on_parse_failure_witness :
  extract_amenities sample_parse (strip_fences "I think they want gyms")
  = Ok (["gym"; "grocery_or_supermarket"], ∅).
Proof.
  apply (amenity_defaults_on_parse_failure sample_parse). reflexivity.
Defined.

(** ** The neighborhood scorer *)

Lemma attribute_scores (t : string) (b : Buckets) (a : Place) (resolved : option string) :
  neighborhoodScores (attribute t b a resolved)
  = bump_resolved t resolved (neighborhoodScores b).
Proof.
  destruct resolved as [n|]; [|reflexivity].
  unfold attribute, bump_resolved. destruct (nonempty_string n); [|reflexivity].
  unfold bump, count_amenity, open_type, open_neighborhood. cbn.
  destruct (neighborhoodScores b !! n) as [counts|] eqn:Hn; cbn.
  - rewrite Hn. cbn.
    destruct (counts !! t) as [c|] eqn:Ht; cbn.
    + destruct (c =? 0) eqn:Hc; cbn.
      * apply Z.eqb_eq in Hc. subst c.
        rewrite lookup_insert_eq. cbn. rewrite lookup_insert_eq. cbn.
        now rewrite !insert_insert_eq.
      * rewrite Hn. cbn. now rewrite Ht.
    + rewrite lookup_insert_eq. cbn. rewrite lookup_insert_eq. cbn.
      now rewrite !insert_insert_eq.
  - rewrite lookup_insert_eq. cbn. rewrite lookup_empty. cbn.
    rewrite lookup_insert_eq. cbn. rewrite lookup_insert_eq. cbn.
    now rewrite !insert_insert_eq.
Qed.

Lemma bucket_amenities_scores (resolve : Place -> option string) (t : string)
    (amenities : list Place) (b : Buckets) :
  neighborhoodScores (bucket_amenities resolve t amenities b)
  = fold_left (fun s ta => bump_resolved ta.1 (resolve ta.2) s)
              (map (pair t) amenities) (neighborhoodScores b).
Proof.
  unfold bucket_amenities. revert b.
  induction amenities as [|a rest IH]; intros b; [reflexivity|].
  cbn [fold_left map]. rewrite IH, attribute_scores. reflexivity.
Qed.

Lemma bucket_all_scores (resolve : Place -> option string)
    (located : list (string * list Place)) (b : Buckets) :
  neighborhoodScores (bucket_all resolve located b)
  = fold_left (fun s ta => bump_resolved ta.1 (resolve ta.2) s)
              (tagged located) (neighborhoodScores b).
Proof.
  unfold bucket_all. revert b.
  induction located as [|[t amenities] rest IH]; intros b; [reflexivity|].
  cbn [fold_left tagged flat_map]. rewrite fold_left_app.
  rewrite IH, bucket_amenities_scores. reflexivity.
Qed.

Lemma bump_comm (n1 t1 n2 t2 : string) (scores : gmap string (gmap string Z)) :
  bump n1 t1 (bump n2 t2 scores) = bump n2 t2 (bump n1 t1 scores).
Proof.
  unfold bump. destruct (decide (n1 = n2)) as [->|Hn].
  - rewrite !lookup_insert_eq. cbn. rewrite !insert_insert_eq. f_equal.
    destruct (decide (t1 = t2)) as [->|Ht]; [reflexivity|].
    rewrite !lookup_insert_ne by congruence.
    apply insert_insert_ne. congruence.
  - rewrite !lookup_insert_ne by congruence.
    apply insert_insert_ne. congruence.
Qed.

Lemma bump_resolved_comm (t1 t2 : string) (r1 r2 : option string)
    (scores : gmap string (gmap string Z)) :
  bump_resolved t1 r1 (bump_resolved t2 r2 scores)
  = bump_resolved t2 r2 (bump_resolved t1 r1 scores).
Proof.
  destruct r1 as [n1|], r2 as [n2|]; unfold bump_resolved; try reflexivity.
  destruct (nonempty_string n1), (nonempty_string n2); try reflexivity.
  apply bump_comm.
Qed.

(** The counts depend on the attributed places only up to their order. *)
Lemma tally_permutation (resolve : Place -> option string)
    (l1 l2 : list (string * Place)) :
  l1 ≡ₚ l2 ->
  forall scores,
    fold_left (fun s ta => bump_resolved ta.1 (resolve ta.2) s) l1 scores
    = fold_left (fun s ta => bump_resolved ta.1 (resolve ta.2) s) l2 scores.
Proof.
  induction 1 as [|x l l' _ IH|x y l|l l' l'' _ IH1 _ IH2]; intros scores.
  - reflexivity.
  - cbn [fold_left]. apply IH.
  - cbn [fold_left]. now rewrite bump_resolved_comm.
  - now rewrite IH1.
Qed.

Lemma bump_positive (n t : string) (scores : gmap string (gmap string Z)) :
  counts_positive scores -> counts_positive (bump n t scores).
Proof.
  intros Hpos n' counts' t' c' Hn' Ht'. unfold bump in Hn'.
  destruct (decide (n = n')) as [->|Hn].
  - rewrite lookup_insert_eq in Hn'. injection Hn' as <-.
    destruct (decide (t = t')) as [->|Ht].
    + rewrite lookup_insert_eq in Ht'. injection Ht' as <-.
      destruct (scores !! n') as [counts|] eqn:Hs; cbn.
      * destruct (counts !! t') as [c|] eqn:Hc; cbn; [|lia].
        specialize (Hpos _ _ _ _ Hs Hc). lia.
      * rewrite lookup_empty. cbn. lia.
    + rewrite lookup_insert_ne in Ht' by congruence.
      destruct (scores !! n') as [counts|] eqn:Hs; cbn in Ht'.
      * exact (Hpos _ _ _ _ Hs Ht').
      * rewrite lookup_empty in Ht'. discriminate.
  - rewrite lookup_insert_ne in Hn' by congruence.
    exact (Hpos _ _ _ _ Hn' Ht').
Qed.

Lemma tally_positive (resolve : Place -> option string) (l : list (string * Place)) :
  forall scores,
    counts_positive scores ->
    counts_positive (fold_left (fun s ta => bump_resolved ta.1 (resolve ta.2) s) l scores).
Proof.
  induction l as [|[t a] rest IH]; intros scores Hpos; [exact Hpos|].
  cbn [fold_left]. apply IH. cbn [fst snd]. unfold bump_resolved.
  destruct (resolve a) as [n|]; [|exact Hpos].
  destruct (nonempty_string n); [|exact Hpos].
  now apply bump_positive.
Qed.

Lemma bucket_all_positive (resolve : Place -> option string)
    (located : list (string * list Place)) :
  counts_positive (neighborhoodScores (bucket_all resolve located no_buckets)).
Proof.
  rewrite bucket_all_scores. apply tally_positive.
  intros n counts t c Hn. cbn in Hn. rewrite lookup_empty in Hn. discriminate.
Qed.

(** The creation order and the keys of the counts stay in step. *)
Lemma attribute_well_keyed (t : string) (b : Buckets) (a : Place) (resolved : option string) :
  well_keyed b -> well_keyed (attribute t b a resolved).
Proof.
  intros [Hnodup Hkeys].
  destruct resolved as [n|]; [|split; assumption].
  unfold attribute. destruct (nonempty_string n); [|split; assumption].
  unfold well_keyed, count_amenity, open_type, open_neighborhood. cbn.
  destruct (neighborhoodScores b !! n) as [counts|] eqn:Hn; cbn.
  - rewrite Hn. cbn.
    destruct (match counts !! t with Some c => c =? 0 | None => true end); cbn;
      (split; [assumption|]); intros n'; rewrite Hkeys;
      destruct (decide (n = n')) as [->|Hd];
      rewrite ?lookup_insert_eq, ?lookup_insert_ne by congruence;
      rewrite ?Hn; split; eauto.
  - rewrite lookup_insert_eq. cbn. rewrite lookup_empty. cbn.
    split.
    + apply NoDup_app. split; [assumption|]. split; [|apply NoDup_singleton].
      intros x Hx Hx'. apply list_elem_of_singleton in Hx'. subst x.
      apply Hkeys in Hx. rewrite Hn in Hx. destruct Hx; discriminate.
    + intros n'. rewrite elem_of_app, list_elem_of_singleton, Hkeys.
      destruct (decide (n = n')) as [->|Hd];
        rewrite ?lookup_insert_eq, ?lookup_insert_ne by congruence.
      * split; eauto.
      * split; [intros [?|?]; [assumption|congruence] | auto].
Qed.

Lemma bucket_amenities_well_keyed (resolve : Place -> option string) (t : string)
    (amenities : list Place) :
  forall b, well_keyed b -> well_keyed (bucket_amenities resolve t amenities b).
Proof.
  unfold bucket_amenities.
  induction amenities as [|a rest IH]; intros b Hb; [exact Hb|].
  cbn [fold_left]. apply IH. now apply attribute_well_keyed.
Qed.

Lemma bucket_all_well_keyed (resolve : Place -> option string)
    (located : list (string * list Place)) :
  well_keyed (bucket_all resolve located no_buckets).
Proof.
  assert (Hgen : forall b, well_keyed b -> well_keyed (bucket_all resolve located b)).
  { unfold bucket_all. induction located as [|[t amenities] rest IH]; intros b Hb;
      [exact Hb|].
    cbn [fold_left]. apply IH. now apply bucket_amenities_well_keyed. }
  apply Hgen. split; [constructor|].
  intros n. cbn. rewrite lookup_empty. split.
  - intros Hin. inversion Hin.
  - intros [x Hx]. discriminate.
Qed.

Lemma insert_by_score_perm (x : ScoredNeighborhood) (l : list ScoredNeighborhood) :
  insert_by_score x l ≡ₚ x :: l.
Proof.
  induction l as [|y ys IH]; [reflexivity|].
  cbn [insert_by_score]. destruct (amenityScore x <? amenityScore y); [|reflexivity].
  rewrite IH. apply perm_swap.
Qed.

Lemma sort_by_score_perm (l : list ScoredNeighborhood) : sort_by_score l ≡ₚ l.
Proof.
  induction l as [|x l IH]; [reflexivity|].
  cbn [sort_by_score foldr]. rewrite insert_by_score_perm.
  now apply perm_skip.
Qed.

Lemma rank_elem (b : Buckets) (r : ScoredNeighborhood) :
  r ∈ rank b ->
  exists n counts, neighborhoodScores b !! n = Some counts /\ r = score_entry (n, counts).
Proof.
  unfold rank. rewrite sort_by_score_perm.
  intros Hr. apply list_elem_of_In, in_map_iff in Hr as ([n counts] & <- & Hin).
  apply list_elem_of_In in Hin. unfold entries in Hin.
  apply list_elem_of_omap in Hin as (n' & _ & Hn').
  destruct (neighborhoodScores b !! n') as [counts'|] eqn:Hs; [|discriminate].
  cbn in Hn'. injection Hn' as <- <-. eauto.
Qed.

Lemma fold_left_sum (l : list (string * Z)) (a : Z) :
  fold_left (fun x y => x + y) l.*2 a
  = a + foldr (fun kv acc => kv.2 + acc) 0 l.
Proof.
  revert a. induction l as [|[k v] l IH]; intros a; cbn; [lia|].
  rewrite IH. lia.
Qed.

Lemma reduce_sum_spec (m : gmap string Z) : reduce_sum m = sum_of_values m.
Proof.
  unfold reduce_sum, sum_of_values. rewrite map_fold_foldr, fold_left_sum.
  cbn. induction (map_to_list m) as [|[k v] l IH]; cbn; [reflexivity|].
  cbn in IH. lia.
Qed.

Lemma size_nonzero_entries (m : gmap string Z) :
  (forall t c, m !! t = Some c -> 1 <= c) ->
  nonzero_entries m = size m.
Proof.
  intros Hpos. unfold nonzero_entries. rewrite map_filter_id; [reflexivity|].
  intros t c Hc. cbn. specialize (Hpos t c Hc). lia.
Qed.

(** C1. Score formula: every record the scoring step returns has
    amenityScore = totalAmenities + 5 * amenityTypeCount, where
    totalAmenities is the sum of the values of amenityCounts and
    amenityTypeCount (the field [amenityTypes]) is the number of non-zero
    entries of amenityCounts. *)
Theorem scoring_formula (w : World) (city : string) (amenitiesNeeded : list string)
    (specificBrands : gmap string JSValue) (r : ScoredNeighborhood) :
  In r (scoreNeighborhoodsByAmenities w city amenitiesNeeded specificBrands).1 ->
  amenityTypes r = Some (Z.of_nat (nonzero_entries (amenityCounts r)))
  /\ totalAmenities r = sum_of_values (amenityCounts r)
  /\ amenityScore r
     = totalAmenities r + 5 * Z.of_nat (nonzero_entries (amenityCounts r)).
Proof.
  unfold scoreNeighborhoodsByAmenities. cbn [fst].
  intros Hr. apply list_elem_of_In, rank_elem in Hr as (n & counts & Hn & ->).
  assert (Hsize : nonzero_entries counts = size counts).
  { apply size_nonzero_entries. intros t c Hc.
    exact (bucket_all_positive _ _ _ _ _ _ Hn Hc). }
  cbn [score_entry amenityTypes totalAmenities amenityScore amenityCounts].
  rewrite Hsize, reduce_sum_spec. repeat split. lia.
Qed.

Lemma scoring_formula_witness :
  In downtown_aggregate
     (scoreNeighborhoodsByAmenities scenario_world "Springfield" ["gym"] ∅).1
  /\ amenityTypes downtown_aggregate
     = Some (Z.of_nat (nonzero_entries (amenityCounts downtown_aggregate)))
  /\ totalAmenities downtown_aggregate = sum_of_values (amenityCounts downtown_aggregate)
  /\ amenityScore downtown_aggregate
     = totalAmenities downtown_aggregate
       + 5 * Z.of_nat (nonzero_entries (amenityCounts downtown_aggregate)).
Proof.
  assert (Hin : In downtown_aggregate
                   (scoreNeighborhoodsByAmenities scenario_world "Springfield"
                      ["gym"] ∅).1).
  { vm_compute. left. reflexivity. }
  split; [exact Hin|].
  exact (scoring_formula scenario_world "Springfield" ["gym"] ∅ downtown_aggregate Hin).
Defined.

Lemma find_by_name_unique (n : string) (l : list ScoredNeighborhood) (r : ScoredNeighborhood) :
  NoDup (map neighborhood l) -> r ∈ l -> neighborhood r = n ->
  aggregate_of n l = Some r.
Proof.
  unfold aggregate_of.
  induction l as [|x l IH]; intros Hnd Hin Hname; [inversion Hin|].
  cbn [map] in Hnd. apply NoDup_cons in Hnd as [Hx Hnd].
  cbn [List.find]. apply elem_of_cons in Hin as [->|Hin].
  - rewrite Hname, String.eqb_refl. reflexivity.
  - destruct (String.eqb (neighborhood x) n) eqn:Heq; [|now apply IH].
    apply String.eqb_eq in Heq. exfalso. apply Hx.
    rewrite Heq, <- Hname. apply list_elem_of_In, in_map, list_elem_of_In, Hin.
Qed.

Lemma aggregate_of_perm (n : string) (l l' : list ScoredNeighborhood) :
  l ≡ₚ l' -> NoDup (map neighborhood l) ->
  aggregate_of n l = aggregate_of n l'.
Proof.
  intros Hperm Hnd.
  assert (Hnd' : NoDup (map neighborhood l')).
  { rewrite <- (Permutation_map neighborhood Hperm). exact Hnd. }
  assert (Hfound : forall k k' r, k ≡ₚ k' -> NoDup (map neighborhood k') ->
                     aggregate_of n k = Some r -> aggregate_of n k' = Some r).
  { intros k k' r Hk Hk' Hfind. unfold aggregate_of in Hfind.
    apply find_some in Hfind as [Hin Heq]. apply String.eqb_eq in Heq.
    apply find_by_name_unique; [assumption| |assumption].
    rewrite <- Hk. now apply list_elem_of_In. }
  destruct (aggregate_of n l) as [r|] eqn:Hl.
  - symmetry. now apply (Hfound l l').
  - destruct (aggregate_of n l') as [r'|] eqn:Hl'; [|reflexivity].
    apply (Hfound l' l) in Hl'; [congruence|now symmetry|assumption].
Qed.

Lemma entries_names (b : Buckets) :
  well_keyed b -> map neighborhood (map score_entry (entries b)) = created b.
Proof.
  intros [_ Hkeys]. unfold entries.
  assert (Hall : forall n, n ∈ created b -> is_Some (neighborhoodScores b !! n)).
  { intros n Hn. now apply Hkeys. }
  clear Hkeys. revert Hall. generalize (created b) as l.
  induction l as [|n l IH]; intros Hall; [reflexivity|].
  destruct (Hall n) as [counts Hc]; [left|].
  cbn [omap list_omap]. rewrite Hc. cbn. f_equal.
  apply IH. intros n' Hn'. apply Hall. now right.
Qed.

Lemma rank_names_unique (b : Buckets) :
  well_keyed b -> NoDup (map neighborhood (rank b)).
Proof.
  intros Hb. unfold rank.
  rewrite (Permutation_map neighborhood (sort_by_score_perm _)).
  rewrite entries_names by assumption. apply Hb.
Qed.

Lemma rank_perm (b1 b2 : Buckets) :
  well_keyed b1 -> well_keyed b2 ->
  neighborhoodScores b1 = neighborhoodScores b2 ->
  rank b1 ≡ₚ rank b2.
Proof.
  intros [Hnd1 Hk1] [Hnd2 Hk2] Hscores. unfold rank.
  rewrite !sort_by_score_perm. apply Permutation_map.
  unfold entries. rewrite Hscores. apply omap_Permutation.
  apply NoDup_Permutation; [assumption..|].
  intros n. now rewrite Hk1, Hk2, Hscores.
Qed.

(** C5. Order independence: for every assignment [resolve] of places to
    neighborhoods, aggregating any permutation of the same located Place
    records gives, for each neighborhood, the same aggregate: the same
    amenityCounts, totalAmenities, amenityTypeCount and amenityScore. *)
Theorem scoring_order_independent (resolve : Place -> option string)
    (located1 located2 : list (string * list Place)) (n : string) :
  tagged located1 ≡ₚ tagged located2 ->
  aggregate_of n (rank (bucket_all resolve located1 no_buckets))
  = aggregate_of n (rank (bucket_all resolve located2 no_buckets)).
Proof.
  intros Hperm. apply aggregate_of_perm.
  - apply rank_perm; try apply bucket_all_well_keyed.
    rewrite !bucket_all_scores. now apply tally_permutation.
  - apply rank_names_unique, bucket_all_well_keyed.
Qed.

Lemma scoring_order_independent_witness :
  aggregate_of "Downtown"
    (rank (bucket_all (resolve_place scenario_world)
                      [("gym", [place_a; place_b; place_a])] no_buckets))
  = aggregate_of "Downtown"
      (rank (bucket_all (resolve_place scenario_world)
                        [("gym", [place_b; place_a; place_a])] no_buckets)).
Proof.
  apply (scoring_order_independent (resolve_place scenario_world)
           [("gym", [place_a; place_b; place_a])]
           [("gym", [place_b; place_a; place_a])] "Downtown").
  cbn [tagged flat_map map app]. apply perm_swap.
Defined.

(** The same, for the scoring step as the handler calls it: two runs whose
    resolver agrees and whose located places are a permutation of one
    another rank the same aggregates. *)
Corollary scoring_runs_agree (w1 w2 : World) (city : string)
    (needed1 needed2 : list string)
    (brands1 brands2 : gmap string JSValue) (n : string) :
  (forall a, resolve_place w1 a = resolve_place w2 a) ->
  tagged (locate_all w1 city needed1 brands1) ≡ₚ tagged (locate_all w2 city needed2 brands2) ->
  aggregate_of n (scoreNeighborhoodsByAmenities w1 city needed1 brands1).1
  = aggregate_of n (scoreNeighborhoodsByAmenities w2 city needed2 brands2).1.
Proof.
  intros Hresolve Hperm. unfold scoreNeighborhoodsByAmenities. cbn [fst].
  apply aggregate_of_perm.
  - apply rank_perm; try apply bucket_all_well_keyed.
    rewrite !bucket_all_scores.
    rewrite (tally_permutation _ _ _ Hperm).
    generalize (tagged (locate_all w2 city needed2 brands2)).
    generalize (neighborhoodScores no_buckets).
    intros s l. revert s. induction l as [|[t a] l IH]; intros s; [reflexivity|].
    cbn [fold_left fst snd]. rewrite Hresolve. apply IH.
  - apply rank_names_unique, bucket_all_well_keyed.
Qed.

(** ** The handlers *)

Lemma map_completion_length {A B} (f : A -> completion B) (l : list A) (l' : list B) :
  map_completion f l = Ok l' -> length l' = length l.
Proof.
  revert l'. induction l as [|x l IH]; intros l' H; cbn [map_completion] in H.
  - now injection H as <-.
  - bind_step H. bind_step H. injection H as <-. cbn. f_equal. now apply IH.
Qed.

Lemma qualitative_and_assembly_200 (JSON_parse : string -> option JSValue) (w : World)
    (city preferences : string) (amenitiesNeeded : list string)
    (specificBrands : gmap string JSValue)
    (scored : list ScoredNeighborhood)
    (found : gmap string (gmap string (list Place))) (r : Response Body) :
  qualitative_and_assembly JSON_parse w city preferences amenitiesNeeded specificBrands
    scored found = Ok r ->
  exists recs,
    length recs = length (take 5 scored) /\
    r = Status200
          {| city := city; userPreferences := preferences; recommendations := recs;
             mapData :=
               {| cityCoordinates := getCityCoordinates w city;
                  amenities := display_amenities w city amenitiesNeeded specificBrands;
                  mapNeighborhoodAmenities :=
                    neighborhood_amenities amenitiesNeeded found recs |} |}.
Proof.
  unfold qualitative_and_assembly. intros H.
  do 6 bind_step H. bind_step H.
  injection H as <-. eexists. split; [|reflexivity].
  eapply map_completion_length. eassumption.
Qed.

Lemma getAmenityCoordinates_length (w : World) (city amenityType : string) (limit : nat)
    (specificNames : JSValue) :
  (length (getAmenityCoordinates w city amenityType limit specificNames) <= limit)%nat.
Proof.
  unfold getAmenityCoordinates.
  destruct (getCityCoordinates w city) as [cityCoords|]; [|cbn; lia].
  match goal with
  | |- context [match ?places with Ok _ => _ | Throw _ => _ end] =>
      destruct places as [ps|]; [|cbn; lia]
  end.
  rewrite length_map, length_take. lia.
Qed.

Lemma getAmenityCoordinates_simple_length (w : World) (city amenityType : string)
    (limit : nat) :
  (length (getAmenityCoordinates_simple w city amenityType limit) <= limit)%nat.
Proof.
  unfold getAmenityCoordinates_simple.
  destruct (getCityCoordinates w city) as [cityCoords|]; [|cbn; lia].
  destruct (placesNearbyType w cityCoords 5000 amenityType None) as [response|];
    [|cbn; lia].
  rewrite length_map, length_take. lia.
Qed.

(** Filling a dictionary by assignments [m[key x] = value x] keeps a bound
    that every assigned value meets. *)
Lemma fold_assign_bound {K X V} `{Countable K} (P : V -> Prop)
    (key : X -> K) (value : X -> V) (l : list X) :
  (forall x, P (value x)) ->
  forall m : gmap K V,
    map_Forall (fun _ v => P v) m ->
    map_Forall (fun _ v => P v) (fold_left (fun m x => <[key x := value x]> m) l m).
Proof.
  intros Hvalue. induction l as [|x l IH]; intros m Hm; [exact Hm|].
  cbn [fold_left]. apply IH. apply map_Forall_insert_2; [apply Hvalue|exact Hm].
Qed.

Lemma display_amenities_bound (w : World) (city : string) (amenitiesNeeded : list string)
    (specificBrands : gmap string JSValue) (t : string) (places : list Place) :
  display_amenities w city amenitiesNeeded specificBrands !! t = Some places ->
  (length places <= 10)%nat.
Proof.
  unfold display_amenities.
  apply (fold_assign_bound (fun places => (length places <= 10)%nat) (fun t => t)
           (fun t => getAmenityCoordinates w city t 10 (brands_of specificBrands t))).
  - intros x. apply getAmenityCoordinates_length.
  - apply map_Forall_empty.
Qed.

Lemma amenities_of_neighborhood_bound (amenitiesNeeded : list string)
    (found : option (gmap string (list Place))) (t : string) (places : list Place) :
  amenities_of_neighborhood amenitiesNeeded found !! t = Some places ->
  (length places <= 5)%nat.
Proof.
  unfold amenities_of_neighborhood.
  apply (fold_assign_bound (fun places => (length places <= 5)%nat) (fun t => t)
           (fun t => match found with
                     | Some byType =>
                         match byType !! t with
                         | Some places => take 5 places
                         | None => []
                         end
                     | None => []
                     end)).
  - intros x. destruct found as [byType|]; [|cbn; lia].
    destruct (byType !! x); [|cbn; lia]. rewrite length_take. lia.
  - apply map_Forall_empty.
Qed.

Lemma neighborhood_amenities_bound (amenitiesNeeded : list string)
    (found : gmap string (gmap string (list Place))) (recs : list Recommendation)
    (nb t : string) (byType : gmap string (list Place)) (places : list Place) :
  neighborhood_amenities amenitiesNeeded found recs !! nb = Some byType ->
  byType !! t = Some places ->
  (length places <= 5)%nat.
Proof.
  unfold neighborhood_amenities. intros Hnb Ht. revert t places Ht.
  change (map_Forall (fun _ places => (length places <= 5)%nat) byType).
  revert nb byType Hnb.
  apply (fold_assign_bound
           (fun byType => map_Forall (fun _ places => (length places <= 5)%nat) byType)
           rec_neighborhood
           (fun r => amenities_of_neighborhood amenitiesNeeded (found !! rec_neighborhood r))).
  - intros r t places. apply amenities_of_neighborhood_bound.
  - apply map_Forall_empty.
Qed.

Lemma query_display_amenities_bound (w : World) (city : string) (types : list JSValue)
    (shown : gmap string (list Place)) (t : string) (places : list Place) :
  query_display_amenities w city types = Ok shown ->
  shown !! t = Some places ->
  (length places <= 5)%nat.
Proof.
  unfold query_display_amenities. intros H. bind_step H. injection H as <-.
  apply (fold_assign_bound (fun places => (length places <= 5)%nat) (fun key : string => key)
           (fun key => getAmenityCoordinates_simple w city key 5)).
  - intros key. apply getAmenityCoordinates_simple_length.
  - apply map_Forall_empty.
Qed.

Lemma present_cases (req : Request) :
  negb (present (body_city req)) || negb (present (body_preferences req)) = false
  <-> well_formed req.
Proof.
  unfold well_formed.
  destruct (present (body_city req)), (present (body_preferences req)); cbn;
    intuition congruence.
Qed.

(** The ways the [try] block of the amenity-first handler completes
    normally. *)
Lemma recommendations_try_cases (JSON_parse : string -> option JSValue) (w : World)
    (req : Request) (r : Response Body) :
  recommendations_try JSON_parse w req = Ok r ->
  (~ well_formed req /\ r = Status400 "City and preferences are required")
  \/ (well_formed req /\
      exists amenityText amenitiesNeeded specificBrands,
        amenityReply w = Ok amenityText /\
        extract_amenities JSON_parse (strip_fences amenityText)
          = Ok (amenitiesNeeded, specificBrands) /\
        amenitiesNeeded <> [] /\
        let city := default "" (body_city req) in
        let scored := scoreNeighborhoodsByAmenities w city amenitiesNeeded specificBrands in
        (scored.1 = [] /\
         r = Status400 ("No neighborhoods found with requested amenities in " ++ city))
        \/ (scored.1 <> [] /\
            qualitative_and_assembly JSON_parse w city (default "" (body_preferences req))
              amenitiesNeeded specificBrands scored.1 scored.2 = Ok r)).
Proof.
  unfold recommendations_try. intros H.
  destruct (negb (present (body_city req)) || negb (present (body_preferences req)))
    eqn:Hpresent.
  - left. split; [|congruence].
    intros Hwf. apply present_cases in Hwf. congruence.
  - right. apply present_cases in Hpresent. split; [assumption|].
    bind_step H. bind_step H. destruct x0 as [amenitiesNeeded specificBrands].
    exists x, amenitiesNeeded, specificBrands.
    destruct amenitiesNeeded as [|t rest]; [discriminate H|].
    split; [reflexivity|]. split; [assumption|]. split; [discriminate|].
    cbn zeta. change (0 <? length (t :: rest))%nat with true in H. cbn iota in H.
    destruct (scoreNeighborhoodsByAmenities w (default "" (body_city req)) (t :: rest)
                specificBrands) as [scored found].
    cbn [fst snd]. destruct scored as [|s scored].
    + left. split; [reflexivity|]. cbn in H. congruence.
    + right. split; [discriminate|]. exact H.
Qed.

(** With an empty amenity list the amenity-first handler reads
    [redditData] before its declaration and the request ends in status
    500, whatever the collaborators answer afterwards. *)
Lemma no_amenity_branch_throws (JSON_parse : string -> option JSValue) (w : World)
    (req : Request) (amenityText : string)
    (specificBrands : gmap string JSValue) :
  well_formed req ->
  amenityReply w = Ok amenityText ->
  extract_amenities JSON_parse (strip_fences amenityText) = Ok ([], specificBrands) ->
  post_recommendations JSON_parse w req = Status500 ReferenceError.
Proof.
  intros Hwf Hreply Hextract. apply present_cases in Hwf.
  unfold post_recommendations, recommendations_try.
  rewrite Hwf, Hreply. cbn [mbind completion_bind]. rewrite Hextract. reflexivity.
Qed.

(** C3. The request of the scenario, with an amenity extraction that
    names no amenity: the response is status 500 (ReferenceError), not a
    single Downtown entry. *)
Theorem no_amenity_request_fails :
  post_recommendations sample_parse
    (sample_world (Ok no_amenities_text) (Ok verdicts_text) (Ok (Some [])) [gym_a; gym_b])
    sample_request
  = Status500 ReferenceError.
Proof.
  apply (no_amenity_branch_throws _ _ _ no_amenities_text ∅).
  - split; reflexivity.
  - reflexivity.
  - reflexivity.
Qed.

(** C9 (amended). The amenity-first handler answers 400 exactly when city
    or preferences is missing, or when the amenity list is not empty and no
    neighborhood is found for it; the query-first handler answers 400
    exactly when city or preferences is missing. *)
Theorem status_400_iff (JSON_parse : string -> option JSValue) (w : World) (req : Request) :
  (is_400 (post_recommendations JSON_parse w req)
   <-> ~ well_formed req \/ (well_formed req /\ no_neighborhood_found JSON_parse w req))
  /\ (is_400 (post_recommendations_query_first JSON_parse w req) <-> ~ well_formed req).
Proof.
  split.
  - unfold post_recommendations, is_400. split.
    + intros [message Hr].
      destruct (recommendations_try JSON_parse w req) as [r|e] eqn:Htry; [|discriminate].
      subst r. apply recommendations_try_cases in Htry
        as [[Hnot _]|(Hwf & amenityText & needed & brands & Hreply & Hextract & Hne & Hcase)].
      * now left.
      * right. split; [assumption|]. destruct Hcase as [[Hnone _]|[_ Hq]].
        -- exists amenityText, needed, brands. auto.
        -- apply qualitative_and_assembly_200 in Hq as (recs & _ & Hq). discriminate.
    + unfold recommendations_try.
      intros [Hnot|(Hwf & amenityText & needed & brands & Hreply & Hextract & Hne & Hnone)].
      * destruct (negb (present (body_city req)) || negb (present (body_preferences req)))
          eqn:Hpresent; [eauto|].
        apply present_cases in Hpresent. contradiction.
      * apply present_cases in Hwf. rewrite Hwf, Hreply. cbn [mbind completion_bind].
        rewrite Hextract. cbn [mbind completion_bind].
        destruct needed as [|t rest]; [congruence|].
        change (0 <? length (t :: rest))%nat with true. cbn iota.
        destruct (scoreNeighborhoodsByAmenities w (default "" (body_city req)) (t :: rest)
                    brands) as [scored found].
        cbn [fst] in Hnone. subst scored. cbn. eauto.
  - unfold post_recommendations_query_first, query_recommendations_try, is_400. split.
    + intros [message Hr].
      destruct (negb (present (body_city req)) || negb (present (body_preferences req)))
        eqn:Hpresent.
      * intros Hwf. apply present_cases in Hwf. congruence.
      * exfalso.
        match type of Hr with
        | match ?body with Ok _ => _ | Throw _ => _ end = _ =>
            destruct body as [r|e] eqn:Htry; [subst r|discriminate]
        end.
        do 7 bind_step Htry.
        destruct (match_braces (strip_fences x5)); [|discriminate Htry].
        repeat bind_step Htry. discriminate Htry.
    + intros Hnot.
      destruct (negb (present (body_city req)) || negb (present (body_preferences req)))
        eqn:Hpresent; [eauto|].
      apply present_cases in Hpresent. contradiction.
Qed.

Lemma status_400_iff_witness :
  is_400 (post_recommendations sample_parse gymless_world sample_request).
Proof.
  apply (proj1 (status_400_iff sample_parse gymless_world sample_request)).
  right. split; [split; reflexivity|].
  exists gym_text, ["gym"], {["gym" := JArr []]}.
  repeat split; [discriminate].
Defined.

(** C9, as stated, fails: both fields are present, the amenity list is
    [gym], no gym is found, and the status is 400. *)
Lemma status_400_with_both_fields :
  well_formed sample_request
  /\ post_recommendations sample_parse gymless_world sample_request
     = Status400 "No neighborhoods found with requested amenities in Springfield".
Proof. split; [split; reflexivity|reflexivity]. Qed.

(** C4 (amended). In every response of the amenity-first handler the
    ranked sequence has at most 5 entries, every per-neighborhood amenity
    sequence has at most 5 entries and every per-type display sequence has
    at most 10; in every response of the query-first handler every per-type
    display sequence has at most 5 entries (its ranked sequence is the
    language model's, of any length). *)
Theorem response_caps (JSON_parse : string -> option JSValue) (w : World) (req : Request) :
  (forall body,
     post_recommendations JSON_parse w req = Status200 body ->
     (length (recommendations body) <= 5)%nat
     /\ (forall nb byType t places,
           mapNeighborhoodAmenities (mapData body) !! nb = Some byType ->
           byType !! t = Some places -> (length places <= 5)%nat)
     /\ (forall t places,
           amenities (mapData body) !! t = Some places -> (length places <= 10)%nat))
  /\ (forall body md,
        post_recommendations_query_first JSON_parse w req = Status200 body ->
        q_mapData body = Some md ->
        forall t places, q_amenities md !! t = Some places -> (length places <= 5)%nat).
Proof.
  split.
  - intros body Hr. unfold post_recommendations in Hr.
    destruct (recommendations_try JSON_parse w req) as [r|e] eqn:Htry; [|discriminate].
    subst r. apply recommendations_try_cases in Htry
      as [[_ Hr]|(_ & amenityText & needed & brands & _ & _ & _ & Hcase)];
      [discriminate|].
    destruct Hcase as [[_ Hr]|[_ Hq]]; [discriminate|].
    apply qualitative_and_assembly_200 in Hq as (recs & Hlen & Hq).
    injection Hq as ->. cbn [recommendations mapData mapNeighborhoodAmenities amenities].
    split; [|split].
    + rewrite Hlen, length_take. lia.
    + intros nb byType t places. apply neighborhood_amenities_bound.
    + intros t places. apply display_amenities_bound.
  - intros body md Hr Hmd. unfold post_recommendations_query_first in Hr.
    destruct (query_recommendations_try JSON_parse w req) as [r|e] eqn:Htry;
      [|discriminate].
    subst r. unfold query_recommendations_try in Htry.
    destruct (negb (present (body_city req)) || negb (present (body_preferences req)));
      [discriminate|].
    do 7 bind_step Htry.
    destruct (match_braces (strip_fences x5)).
    + repeat bind_step Htry. injection Htry as <-. cbn in Hmd. injection Hmd as <-.
      cbn [q_amenities]. intros t places Hshown.
      eapply query_display_amenities_bound; eassumption.
    + injection Htry as <-. discriminate.
Qed.

Lemma response_caps_witness :
  match post_recommendations sample_parse scenario_world sample_request with
  | Status200 body => (length (recommendations body) <= 5)%nat
  | _ => False
  end.
Proof.
  pose proof (proj1 (response_caps sample_parse scenario_world sample_request)) as Hcaps.
  destruct (post_recommendations sample_parse scenario_world sample_request)
    as [body|message|e] eqn:Hr.
  - exact (proj1 (Hcaps body eq_refl)).
  - vm_compute in Hr. discriminate.
  - vm_compute in Hr. discriminate.
Defined.

(** C4, as stated, fails on the query-first path: the six recommendations
    the language model wrote are all in the response. *)
Lemma query_first_six_recommendations :
  exists body items,
    post_recommendations_query_first sample_parse chatty_world sample_request
      = Status200 body
    /\ listed_recommendations body = Some items
    /\ length items = 6%nat
    /\ ~ (length items <= 5)%nat.
Proof.
  eexists. eexists. split; [vm_compute; reflexivity|].
  split; [reflexivity|]. split; [reflexivity|]. cbn. lia.
Qed.

(** C10. A reply to the relevance filter that is valid JSON but not an
    array (an object, say) makes [filterRelevantPosts] throw a TypeError
    instead of falling back; in the handler the exception reaches the
    outer [catch] and the request ends with status 500. *)
Theorem non_array_reply_fails_request (JSON_parse : string -> option JSValue) (w : World)
    (req : Request) (posts : list string) (content : string) (v : JSValue) :
  posts <> [] ->
  filterReply w = Ok content ->
  JSON_parse (strip_fences content) = Some v ->
  (forall items, v <> JArr items) ->
  (forall preferences,
     filterRelevantPosts JSON_parse w posts preferences = Throw TypeError)
  /\ (filter_reached JSON_parse w req posts ->
      post_recommendations JSON_parse w req = Status500 TypeError).
Proof.
  intros Hposts Hreply Hparse Hv.
  assert (Hfilter : forall preferences,
             filterRelevantPosts JSON_parse w posts preferences = Throw TypeError).
  { intros preferences. unfold filterRelevantPosts.
    rewrite Hreply. cbn [mbind completion_bind]. rewrite Hparse.
    now apply filter_from_not_array. }
  split; [exact Hfilter|].
  intros (Hwf & amenityText & needed & brands & qualText
          & Hamenity & Hextract & Hne & Hscored & Hqual & Hscrape).
  pose proof Hwf as [Hcity _]. apply present_cases in Hwf.
  unfold post_recommendations, recommendations_try.
  rewrite Hwf, Hamenity. cbn [mbind completion_bind].
  rewrite Hextract. cbn [mbind completion_bind].
  destruct needed as [|t rest]; [congruence|].
  change (0 <? length (t :: rest))%nat with true. cbn iota.
  destruct (scoreNeighborhoodsByAmenities w (default "" (body_city req)) (t :: rest) brands)
    as [scored found].
  cbn [fst] in Hscored. destruct scored as [|s scored]; [congruence|].
  change (length (s :: scored) =? 0)%nat with false. cbn iota.
  unfold qualitative_and_assembly. rewrite Hqual. cbn [mbind completion_bind].
  destruct (body_city req) as [city|] eqn:Hc; [|discriminate Hcity].
  unfold reddit_queries in Hscrape. cbn [default from_option id] in Hscrape |- *.
  rewrite Hscrape. cbn [mbind completion_bind].
  destruct posts as [|p posts']; [congruence|].
  change (0 <? length (p :: posts'))%nat with true. cbn iota.
  rewrite Hfilter. reflexivity.
Qed.

Lemma non_array_reply_fails_request_witness :
  post_recommendations sample_parse object_reply_world sample_request
  = Status500 TypeError.
Proof.
  apply (proj2 (non_array_reply_fails_request sample_parse object_reply_world
                  sample_request scraped_posts "{}" (JObj [])
                  ltac:(discriminate) eq_refl eq_refl ltac:(discriminate))).
  split; [split; reflexivity|].
  exists gym_text, ["gym"], {["gym" := JArr []]}, queries_text.
  split; [reflexivity|]. split; [reflexivity|]. split; [discriminate|].
  split; [vm_compute; discriminate|]. split; reflexivity.
Defined.

(** After a reply that does not parse, the rest of the amenity-first
    handler runs on the default amenity types. *)
Lemma defaults_reach_scorer (JSON_parse : string -> option JSValue) (w : World)
    (req : Request) (amenityText : string) :
  well_formed req ->
  amenityReply w = Ok amenityText ->
  JSON_parse (strip_fences amenityText) = None ->
  recommendations_try JSON_parse w req
  = let city := default "" (body_city req) in
    let '(scored, found) := scoreNeighborhoodsByAmenities w city defaultAmenities ∅ in
    if (length scored =? 0)%nat
    then Ok (Status400 ("No neighborhoods found with requested amenities in " ++ city))
    else qualitative_and_assembly JSON_parse w city (default "" (body_preferences req))
           defaultAmenities ∅ scored found.
Proof.
  intros Hwf Hreply Hparse. apply present_cases in Hwf.
  unfold recommendations_try. rewrite Hwf, Hreply. cbn [mbind completion_bind].
  rewrite (parse_failure_gives_defaults JSON_parse _ Hparse).
  reflexivity.
Qed.

(** ** The scenarios of the specification *)

(** Gym A resolves to Downtown and Gym B to Uptown: both neighborhoods
    count one gym and score 6, and Downtown, attributed first, is ranked
    first. *)
Example scenario_ranking :
  map (fun r => (neighborhood r, map_to_list (amenityCounts r), amenityScore r))
      (scoreNeighborhoodsByAmenities scenario_world "Springfield" ["gym"] ∅).1
  = [("Downtown", [("gym", 1)], 6); ("Uptown", [("gym", 1)], 6)].
Proof. vm_compute. reflexivity. Qed.

(** A reply wrapped in a code fence is unwrapped before it is parsed. *)
Example fenced_reply :
  strip_fences ("```json" ++ newline ++ gym_text ++ newline ++ "```") = gym_text.
Proof. vm_compute. reflexivity. Qed.

(** The whole amenity-first request of the scenario. *)
Example scenario_response :
  match post_recommendations sample_parse scenario_world sample_request with
  | Status200 body =>
      map rec_neighborhood (recommendations body) = ["Downtown"; "Uptown"]
      /\ city body = "Springfield"
  | _ => False
  end.
Proof. vm_compute. split; reflexivity. Qed.

(** * Further properties *)

(** ** The scorer's buckets *)

Lemma bucket_all_tagged (resolve : Place -> option string)
    (located : list (string * list Place)) (b : Buckets) :
  bucket_all resolve located b = bucket_tagged resolve (tagged located) b.
Proof.
  unfold bucket_all, bucket_tagged. revert b.
  induction located as [|[t amenities] rest IH]; intros b; [reflexivity|].
  cbn [fold_left tagged flat_map]. rewrite fold_left_app, IH. f_equal.
  unfold bucket_amenities. clear IH. revert b.
  induction amenities as [|a l IHl]; intros b; [reflexivity|].
  cbn [fold_left map fst snd]. apply IHl.
Qed.

Lemma places_of_nil_of_count (b : Buckets) (n t : string) :
  counts_match b -> counts_of b n t = 0 -> places_of b n t = [].
Proof.
  intros Hk H0. specialize (Hk n t). rewrite H0 in Hk.
  destruct (places_of b n t); [reflexivity|cbn in Hk; lia].
Qed.

Lemma open_neighborhood_same (n : string) (b : Buckets) :
  counts_match b ->
  forall n' t', places_of (open_neighborhood n b) n' t' = places_of b n' t'
                /\ counts_of (open_neighborhood n b) n' t' = counts_of b n' t'.
Proof.
  intros Hk n' t'. unfold open_neighborhood.
  destruct (neighborhoodScores b !! n) as [counts|] eqn:Hn; [split; reflexivity|].
  unfold places_of, counts_of. cbn.
  destruct (decide (n' = n)) as [->|Hne].
  - rewrite !lookup_insert_eq. cbn. rewrite !lookup_empty. cbn. rewrite Hn. cbn.
    rewrite lookup_empty. cbn. split; [|reflexivity].
    symmetry. apply (places_of_nil_of_count b n t' Hk).
    unfold counts_of. rewrite Hn. cbn. now rewrite lookup_empty.
  - rewrite !lookup_insert_ne by congruence. split; reflexivity.
Qed.

Lemma open_type_same (n t : string) (b : Buckets) :
  counts_match b ->
  forall n' t', places_of (open_type n t b) n' t' = places_of b n' t'
                /\ counts_of (open_type n t b) n' t' = counts_of b n' t'.
Proof.
  intros Hk n' t'. unfold open_type.
  destruct (match default ∅ (neighborhoodScores b !! n) !! t with
            | Some c => c =? 0
            | None => true
            end) eqn:Hfresh; [|split; reflexivity].
  assert (H0 : counts_of b n t = 0).
  { unfold counts_of. destruct (default ∅ (neighborhoodScores b !! n) !! t) as [c|];
      cbn; [|reflexivity]. now apply Z.eqb_eq in Hfresh. }
  pose proof (places_of_nil_of_count b n t Hk H0) as Hnil.
  unfold places_of, counts_of in *. cbn.
  destruct (decide (n' = n)) as [->|Hne].
  - rewrite !lookup_insert_eq. cbn.
    destruct (decide (t' = t)) as [->|Hte].
    + rewrite !lookup_insert_eq. cbn. now rewrite Hnil, H0.
    + rewrite !lookup_insert_ne by congruence. split; reflexivity.
  - rewrite !lookup_insert_ne by congruence. split; reflexivity.
Qed.

Lemma count_amenity_effect (n t : string) (a : Place) (b : Buckets) (n' t' : string) :
  places_of (count_amenity n t a b) n' t'
  = (if String.eqb n' n && String.eqb t' t then places_of b n t ++ [a]
     else places_of b n' t')%list
  /\ counts_of (count_amenity n t a b) n' t'
     = if String.eqb n' n && String.eqb t' t then counts_of b n t + 1
       else counts_of b n' t'.
Proof.
  unfold places_of, counts_of, count_amenity. cbn.
  destruct (String.eqb_spec n' n) as [->|Hne]; cbn.
  - rewrite !lookup_insert_eq. cbn.
    destruct (String.eqb_spec t' t) as [->|Hte]; cbn.
    + rewrite !lookup_insert_eq. split; reflexivity.
    + rewrite !lookup_insert_ne by congruence. split; reflexivity.
  - rewrite !lookup_insert_ne by congruence. split; reflexivity.
Qed.

(** Attributing one place appends it to one list and adds one to the count
    beside it; everything else stays. *)
Lemma attribute_effect (t : string) (b : Buckets) (a : Place) (n : string) :
  counts_match b -> nonempty_string n = true ->
  forall n' t',
    places_of (attribute t b a (Some n)) n' t'
    = (if String.eqb n' n && String.eqb t' t then places_of b n t ++ [a]
       else places_of b n' t')%list
    /\ counts_of (attribute t b a (Some n)) n' t'
       = if String.eqb n' n && String.eqb t' t then counts_of b n t + 1
         else counts_of b n' t'.
Proof.
  intros Hk Hn n' t'. unfold attribute. rewrite Hn.
  assert (Hk1 : counts_match (open_neighborhood n b)).
  { intros x y. destruct (open_neighborhood_same n b Hk x y) as [-> ->]. apply Hk. }
  destruct (count_amenity_effect n t a (open_type n t (open_neighborhood n b)) n' t')
    as [-> ->].
  destruct (open_type_same n t _ Hk1 n t) as [-> ->].
  destruct (open_type_same n t _ Hk1 n' t') as [-> ->].
  destruct (open_neighborhood_same n b Hk n t) as [-> ->].
  destruct (open_neighborhood_same n b Hk n' t') as [-> ->].
  split; reflexivity.
Qed.

Lemma attribute_counts_match (t : string) (b : Buckets) (a : Place)
    (resolved : option string) :
  counts_match b -> counts_match (attribute t b a resolved).
Proof.
  intros Hk. destruct resolved as [n|]; [|exact Hk].
  destruct (nonempty_string n) eqn:Hn; [|unfold attribute; now rewrite Hn].
  intros n' t'. destruct (attribute_effect t b a n Hk Hn n' t') as [-> ->].
  destruct (String.eqb n' n && String.eqb t' t); [|apply Hk].
  rewrite length_app, (Hk n t). cbn. lia.
Qed.

Lemma attributions_tagged (resolve : Place -> option string)
    (located : list (string * list Place)) :
  attributions resolve located = omap (attribution_of resolve) (tagged located).
Proof. reflexivity. Qed.

Lemma attributed_to_app (n t : string) (l1 l2 : list (string * string * Place)) :
  attributed_to n t (l1 ++ l2) = (attributed_to n t l1 ++ attributed_to n t l2)%list.
Proof. unfold attributed_to. apply omap_app. Qed.

Lemma bucket_tagged_exact (resolve : Place -> option string) (l : list (string * Place)) :
  counts_match (bucket_tagged resolve l no_buckets)
  /\ forall n t,
       places_of (bucket_tagged resolve l no_buckets) n t
       = attributed_to n t (omap (attribution_of resolve) l).
Proof.
  induction l as [|[t a] l [Hk IH]] using rev_ind.
  - split; [intros n t; reflexivity|intros n t; reflexivity].
  - unfold bucket_tagged in *. rewrite fold_left_app. cbn [fold_left fst snd].
    split; [now apply attribute_counts_match|].
    intros n' t'. rewrite omap_app, attributed_to_app, <- IH.
    cbn [omap list_omap]. unfold attribution_of. cbn [fst snd].
    destruct (resolve a) as [n|]; [|cbn; now rewrite app_nil_r].
    destruct (nonempty_string n) eqn:Hn.
    + destruct (attribute_effect t _ a n Hk Hn n' t') as [-> _].
      cbn [attributed_to omap list_omap fst snd].
      rewrite (String.eqb_sym n n'), (String.eqb_sym t t').
      destruct (String.eqb_spec n' n) as [->|]; cbn; [|now rewrite app_nil_r].
      destruct (String.eqb_spec t' t) as [->|]; cbn; [reflexivity|now rewrite app_nil_r].
    + unfold attribute. rewrite Hn. cbn. now rewrite app_nil_r.
Qed.

Lemma elem_of_attributed_to (n t : string) (p : Place)
    (attrs : list (string * string * Place)) :
  p ∈ attributed_to n t attrs <-> (n, t, p) ∈ attrs.
Proof.
  unfold attributed_to. rewrite list_elem_of_omap. split.
  - intros ([[n' t'] p'] & Hin & Hsome). cbn in Hsome.
    destruct (String.eqb_spec n' n) as [->|]; [|discriminate].
    destruct (String.eqb_spec t' t) as [->|]; [|discriminate].
    cbn in Hsome. now injection Hsome as ->.
  - intros Hin. exists (n, t, p). split; [assumption|].
    cbn. now rewrite !String.eqb_refl.
Qed.

Lemma elem_of_attributions (resolve : Place -> option string)
    (located : list (string * list Place)) (n t : string) (p : Place) :
  (n, t, p) ∈ attributions resolve located <->
  resolve p = Some n /\ nonempty_string n = true
  /\ exists places, (t, places) ∈ located /\ p ∈ places.
Proof.
  unfold attributions. rewrite list_elem_of_omap. split.
  - intros ([t' p'] & Hin & Hsome). cbn [fst snd] in Hsome.
    destruct (resolve p') as [n'|] eqn:Hr; [|discriminate].
    destruct (nonempty_string n') eqn:Hn; [|discriminate].
    injection Hsome as -> -> ->. split; [assumption|]. split; [assumption|].
    unfold tagged in Hin. apply list_elem_of_In, in_flat_map in Hin
      as ([t0 places] & Hloc & Hp).
    apply in_map_iff in Hp as (p0 & Heq & Hp0). injection Heq as -> ->.
    exists places. split; now apply list_elem_of_In.
  - intros (Hr & Hn & places & Hloc & Hp). exists (t, p). split.
    + unfold tagged. apply list_elem_of_In, in_flat_map. exists (t, places).
      split; [now apply list_elem_of_In|].
      apply in_map. now apply list_elem_of_In.
    + cbn [fst snd]. now rewrite Hr, Hn.
Qed.

(** X1. The lists the scorer returns are exact: under a neighborhood and an
    amenity type it lists the places located for that type that the
    resolver put in that neighborhood, each once, in the order they were
    visited; and the count the ranking shows for that type is the length of
    that list. *)
Theorem amenities_listed_exactly (w : World) (city : string) (amenitiesNeeded : list string)
    (specificBrands : gmap string JSValue) (n t : string) :
  let located := locate_all w city amenitiesNeeded specificBrands in
  let result := scoreNeighborhoodsByAmenities w city amenitiesNeeded specificBrands in
  let listed := default [] (default ∅ (result.2 !! n) !! t) in
  listed = attributed_to n t (attributions (resolve_place w) located)
  /\ (forall p, p ∈ listed <->
        resolve_place w p = Some n /\ nonempty_string n = true
        /\ exists places, (t, places) ∈ located /\ p ∈ places)
  /\ (forall r, In r result.1 -> neighborhood r = n ->
        default 0 (amenityCounts r !! t) = Z.of_nat (length listed)).
Proof.
  cbn zeta. unfold scoreNeighborhoodsByAmenities. cbn [fst snd].
  rewrite bucket_all_tagged.
  destruct (bucket_tagged_exact (resolve_place w)
              (tagged (locate_all w city amenitiesNeeded specificBrands))) as [Hk Hex].
  fold (places_of (bucket_tagged (resolve_place w)
          (tagged (locate_all w city amenitiesNeeded specificBrands)) no_buckets) n t).
  split; [apply Hex|]. split.
  - intros p. rewrite Hex, <- attributions_tagged, elem_of_attributed_to.
    apply elem_of_attributions.
  - intros r Hr Hname. apply list_elem_of_In, rank_elem in Hr as (n' & counts & Hn' & ->).
    cbn in Hname. subst n'. cbn [score_entry amenityCounts].
    rewrite <- (Hk n t). unfold counts_of. now rewrite Hn'.
Qed.

Lemma sum_of_values_insert (m : gmap string Z) (i : string) (x : Z) :
  m !! i = None -> sum_of_values (<[i := x]> m) = x + sum_of_values m.
Proof.
  intros Hi. unfold sum_of_values. apply map_fold_insert_L; [|assumption].
  intros. lia.
Qed.

Lemma sum_of_values_bump (counts : gmap string Z) (t : string) :
  sum_of_values (<[t := default 0 (counts !! t) + 1]> counts) = sum_of_values counts + 1.
Proof.
  destruct (counts !! t) as [c|] eqn:Ht; cbn.
  - rewrite <- (insert_delete_id counts t c Ht) at 2.
    rewrite <- insert_delete_eq.
    rewrite !sum_of_values_insert by apply lookup_delete_eq. lia.
  - rewrite sum_of_values_insert by assumption. lia.
Qed.

Lemma grand_total_insert (scores : gmap string (gmap string Z)) (n : string)
    (counts : gmap string Z) :
  scores !! n = None ->
  grand_total (<[n := counts]> scores) = sum_of_values counts + grand_total scores.
Proof.
  intros Hn. unfold grand_total.
  apply (map_fold_insert_L (fun (_ : string) (c : gmap string Z) (acc : Z) =>
                              sum_of_values c + acc)); [|assumption].
  intros. lia.
Qed.

Lemma grand_total_bump (n t : string) (scores : gmap string (gmap string Z)) :
  grand_total (bump n t scores) = grand_total scores + 1.
Proof.
  unfold bump. destruct (scores !! n) as [counts|] eqn:Hn; cbn.
  - rewrite <- (insert_delete_id scores n counts Hn) at 2.
    rewrite <- insert_delete_eq.
    rewrite !grand_total_insert by apply lookup_delete_eq.
    rewrite sum_of_values_bump. lia.
  - rewrite grand_total_insert by assumption.
    rewrite lookup_empty. cbn.
    rewrite sum_of_values_insert by apply lookup_empty.
    unfold sum_of_values at 1. rewrite map_fold_empty. lia.
Qed.

Lemma grand_total_tally (resolve : Place -> option string) (l : list (string * Place)) :
  forall scores,
    grand_total (fold_left (fun s ta => bump_resolved ta.1 (resolve ta.2) s) l scores)
    = grand_total scores + Z.of_nat (length (omap (attribution_of resolve) l)).
Proof.
  induction l as [|[t a] l IH]; intros scores; [cbn; lia|].
  cbn [fold_left omap list_omap fst snd]. rewrite IH.
  unfold attribution_of at 2, bump_resolved. cbn [fst snd].
  destruct (resolve a) as [n|]; [|lia].
  destruct (nonempty_string n); [|lia].
  rewrite grand_total_bump. cbn [length]. lia.
Qed.

Lemma entries_perm (b : Buckets) :
  well_keyed b -> entries b ≡ₚ map_to_list (neighborhoodScores b).
Proof.
  intros [Hnd Hkeys]. apply NoDup_Permutation.
  - apply (NoDup_fmap_1 fst).
    change (NoDup (map fst (entries b))).
    assert (Hfst : map fst (entries b) = created b).
    { unfold entries.
      assert (Hall : forall n, n ∈ created b -> is_Some (neighborhoodScores b !! n))
        by (intros n Hn; now apply Hkeys).
      clear Hnd Hkeys. revert Hall. generalize (created b) as l.
      induction l as [|n l IH]; intros Hall; [reflexivity|].
      destruct (Hall n) as [counts Hc]; [left|].
      cbn [omap list_omap]. rewrite Hc. cbn. f_equal.
      apply IH. intros n' Hn'. apply Hall. now right. }
    now rewrite Hfst.
  - apply NoDup_map_to_list.
  - intros [n counts]. rewrite elem_of_map_to_list. unfold entries.
    rewrite list_elem_of_omap. split.
    + intros (n' & _ & Hsome).
      destruct (neighborhoodScores b !! n') as [c|] eqn:Hc; [|discriminate].
      cbn in Hsome. now injection Hsome as -> ->.
    + intros Hc. exists n. split; [apply Hkeys; eauto|]. now rewrite Hc.
Qed.

Lemma total_counted_perm (l l' : list ScoredNeighborhood) :
  l ≡ₚ l' -> total_counted l = total_counted l'.
Proof.
  unfold total_counted.
  induction 1 as [|x l l' _ IH|x y l|l l' l'' _ IH1 _ IH2]; cbn; lia.
Qed.

Lemma total_counted_rank (b : Buckets) :
  well_keyed b -> total_counted (rank b) = grand_total (neighborhoodScores b).
Proof.
  intros Hb. unfold rank.
  rewrite (total_counted_perm _ _ (sort_by_score_perm _)).
  rewrite (total_counted_perm _ _ (Permutation_map score_entry (entries_perm b Hb))).
  unfold grand_total, total_counted. rewrite map_fold_foldr.
  induction (map_to_list (neighborhoodScores b)) as [|[n counts] l IH]; [reflexivity|].
  cbn [map foldr score_entry totalAmenities uncurry]. rewrite IH, reduce_sum_spec.
  reflexivity.
Qed.

(** X2. Nothing is lost and nothing is counted twice: the totalAmenities of
    the ranked neighborhoods add up to the number of located places that
    the resolver attributed to a neighborhood. *)
Theorem totals_conserved (w : World) (city : string) (amenitiesNeeded : list string)
    (specificBrands : gmap string JSValue) :
  total_counted (scoreNeighborhoodsByAmenities w city amenitiesNeeded specificBrands).1
  = Z.of_nat (length (attributions (resolve_place w)
                        (locate_all w city amenitiesNeeded specificBrands))).
Proof.
  unfold scoreNeighborhoodsByAmenities. cbn [fst].
  rewrite total_counted_rank by apply bucket_all_well_keyed.
  rewrite bucket_all_scores, grand_total_tally.
  cbn [no_buckets neighborhoodScores]. unfold grand_total at 1.
  rewrite map_fold_empty. rewrite attributions_tagged. lia.
Qed.

Lemma bump_nonempty (n t : string) (scores : gmap string (gmap string Z)) :
  counts_nonempty scores -> counts_nonempty (bump n t scores).
Proof.
  intros Hne n' counts' Hn'. unfold bump in Hn'.
  destruct (decide (n = n')) as [->|Hd].
  - rewrite lookup_insert_eq in Hn'. injection Hn' as <-. apply insert_non_empty.
  - rewrite lookup_insert_ne in Hn' by congruence. now apply (Hne n').
Qed.

Lemma bucket_all_nonempty (resolve : Place -> option string)
    (located : list (string * list Place)) :
  counts_nonempty (neighborhoodScores (bucket_all resolve located no_buckets)).
Proof.
  rewrite bucket_all_scores.
  assert (Hgen : forall l scores, counts_nonempty scores ->
            counts_nonempty
              (fold_left (fun s ta => bump_resolved ta.1 (resolve ta.2) s) l scores)).
  { induction l as [|[t a] l IH]; intros scores Hs; [exact Hs|].
    cbn [fold_left fst snd]. apply IH. unfold bump_resolved.
    destruct (resolve a) as [n|]; [|exact Hs].
    destruct (nonempty_string n); [|exact Hs]. now apply bump_nonempty. }
  apply Hgen. intros n counts Hn. cbn in Hn. rewrite lookup_empty in Hn. discriminate.
Qed.

Lemma size_le_sum (m : gmap string Z) :
  (forall t c, m !! t = Some c -> 1 <= c) ->
  Z.of_nat (size m) <= sum_of_values m.
Proof.
  induction m as [|t c m Ht IH] using map_ind; intros Hpos.
  - unfold sum_of_values. rewrite map_fold_empty, map_size_empty. lia.
  - rewrite sum_of_values_insert, map_size_insert_None by assumption.
    assert (1 <= c) by (apply (Hpos t); apply lookup_insert_eq).
    assert (Z.of_nat (size m) <= sum_of_values m).
    { apply IH. intros t' c' Hc'. apply (Hpos t').
      rewrite lookup_insert_ne; [assumption|]. intros ->. congruence. }
    lia.
Qed.

(** X3. Every ranked neighborhood has something: at least one amenity type,
    at least as many amenities as types, and a score of at least 6. *)
Theorem ranked_has_amenities (w : World) (city : string) (amenitiesNeeded : list string)
    (specificBrands : gmap string JSValue) (r : ScoredNeighborhood) :
  In r (scoreNeighborhoodsByAmenities w city amenitiesNeeded specificBrands).1 ->
  exists kinds,
    amenityTypes r = Some kinds
    /\ 1 <= kinds <= totalAmenities r
    /\ 6 <= amenityScore r.
Proof.
  unfold scoreNeighborhoodsByAmenities. cbn [fst].
  intros Hr. apply list_elem_of_In, rank_elem in Hr as (n & counts & Hn & ->).
  exists (Z.of_nat (size counts)).
  cbn [score_entry amenityTypes totalAmenities amenityScore].
  assert (Hpos : forall t c, counts !! t = Some c -> 1 <= c).
  { intros t c Hc. exact (bucket_all_positive _ _ _ _ _ _ Hn Hc). }
  assert (Hsize : (0 < size counts)%nat).
  { destruct (size counts) eqn:Hs; [|lia].
    apply map_size_empty_inv in Hs. exfalso.
    exact (bucket_all_nonempty _ _ _ _ Hn Hs). }
  pose proof (size_le_sum counts Hpos) as Hsum.
  rewrite reduce_sum_spec. repeat split; lia.
Qed.

Lemma ranked_has_amenities_witness :
  exists kinds,
    amenityTypes downtown_aggregate = Some kinds
    /\ 1 <= kinds <= totalAmenities downtown_aggregate
    /\ 6 <= amenityScore downtown_aggregate.
Proof.
  apply (ranked_has_amenities scenario_world "Springfield" ["gym"] ∅ downtown_aggregate).
  vm_compute. left. reflexivity.
Defined.

(** X4. The ranking names each neighborhood once, and names exactly the
    neighborhoods to which the resolver attributed a located place. *)
Theorem ranking_names (w : World) (city : string) (amenitiesNeeded : list string)
    (specificBrands : gmap string JSValue) :
  let located := locate_all w city amenitiesNeeded specificBrands in
  let names := map neighborhood
                 (scoreNeighborhoodsByAmenities w city amenitiesNeeded specificBrands).1 in
  NoDup names
  /\ forall n, In n names <->
       nonempty_string n = true
       /\ exists t places p, (t, places) ∈ located /\ p ∈ places
                             /\ resolve_place w p = Some n.
Proof.
  cbn zeta. unfold scoreNeighborhoodsByAmenities. cbn [fst].
  set (located := locate_all w city amenitiesNeeded specificBrands).
  set (b := bucket_all (resolve_place w) located no_buckets).
  assert (Hwk : well_keyed b) by apply bucket_all_well_keyed.
  split; [now apply rank_names_unique|].
  intros n.
  assert (Hnames : In n (map neighborhood (rank b)) <-> is_Some (neighborhoodScores b !! n)).
  { rewrite <- list_elem_of_In. unfold rank.
    rewrite (Permutation_map neighborhood (sort_by_score_perm _)).
    rewrite entries_names by assumption. apply Hwk. }
  rewrite Hnames.
  assert (Hk : counts_match b).
  { unfold b. rewrite bucket_all_tagged. apply bucket_tagged_exact. }
  assert (Hex : forall n t, places_of b n t
                            = attributed_to n t (attributions (resolve_place w) located)).
  { intros n' t'. rewrite attributions_tagged. unfold b. rewrite bucket_all_tagged.
    apply bucket_tagged_exact. }
  split.
  - intros [counts Hn].
    assert (Hne : counts <> ∅) by exact (bucket_all_nonempty _ _ _ _ Hn).
    apply map_choose in Hne as (t & c & Hc).
    assert (Hpos : 1 <= c) by exact (bucket_all_positive _ _ _ _ _ _ Hn Hc).
    assert (Hcount : counts_of b n t = c).
    { unfold counts_of. rewrite Hn. cbn. now rewrite Hc. }
    pose proof (Hk n t) as Hlen. rewrite Hcount, Hex in Hlen.
    destruct (attributed_to n t (attributions (resolve_place w) located)) as [|p l] eqn:Hl;
      [cbn in Hlen; lia|].
    assert (Hp : p ∈ attributed_to n t (attributions (resolve_place w) located))
      by (rewrite Hl; left).
    apply elem_of_attributed_to, elem_of_attributions in Hp
      as (Hr & Hnon & places & Hloc & Hin).
    split; [assumption|]. exists t, places, p. auto.
  - intros (Hnon & t & places & p & Hloc & Hin & Hr).
    assert (Hp : p ∈ attributed_to n t (attributions (resolve_place w) located)).
    { apply elem_of_attributed_to, elem_of_attributions. eauto 6. }
    rewrite <- Hex in Hp.
    destruct (neighborhoodScores b !! n) as [counts|] eqn:Hn; [eauto|].
    exfalso. pose proof (Hk n t) as Hlen. unfold counts_of in Hlen.
    rewrite Hn in Hlen. cbn in Hlen. rewrite lookup_empty in Hlen. cbn in Hlen.
    destruct (places_of b n t); [inversion Hp|cbn in Hlen; lia].
Qed.

Lemma insert_by_score_sorted (x : ScoredNeighborhood) (l : list ScoredNeighborhood) :
  StronglySorted score_ge l -> StronglySorted score_ge (insert_by_score x l).
Proof.
  induction l as [|y ys IH]; intros Hs; cbn [insert_by_score].
  - repeat constructor.
  - apply StronglySorted_inv in Hs as [Hys Hall].
    destruct (amenityScore x <? amenityScore y) eqn:Hlt.
    + apply Z.ltb_lt in Hlt. constructor; [now apply IH|].
      rewrite insert_by_score_perm. constructor; [unfold score_ge; lia|assumption].
    + apply Z.ltb_ge in Hlt. constructor; [now constructor|].
      constructor; [exact Hlt|].
      eapply Forall_impl; [exact Hall|]. unfold score_ge. intros z Hz. lia.
Qed.

Lemma insert_by_score_stable (s : Z) (x : ScoredNeighborhood) (l : list ScoredNeighborhood) :
  StronglySorted score_ge l ->
  with_score s (insert_by_score x l) = with_score s (x :: l).
Proof.
  unfold with_score.
  induction l as [|y ys IH]; intros Hs; [reflexivity|].
  apply StronglySorted_inv in Hs as [Hys Hall].
  cbn [insert_by_score]. destruct (amenityScore x <? amenityScore y) eqn:Hlt;
    [|reflexivity].
  apply Z.ltb_lt in Hlt. cbn [List.filter]. rewrite (IH Hys). cbn [List.filter].
  destruct (amenityScore x =? s) eqn:Hx; [|reflexivity].
  apply Z.eqb_eq in Hx.
  destruct (amenityScore y =? s) eqn:Hy; [|reflexivity].
  apply Z.eqb_eq in Hy. lia.
Qed.

Lemma sort_by_score_sorted (l : list ScoredNeighborhood) :
  StronglySorted score_ge (sort_by_score l).
Proof.
  induction l as [|x l IH]; [constructor|].
  cbn [sort_by_score foldr]. now apply insert_by_score_sorted.
Qed.

(** X5. The ranking is the entries of the counts in descending order of
    amenityScore: every neighborhood scores at least as much as every one
    after it, none is dropped or added, and neighborhoods with the same
    score stay in the order of [Object.entries] (for names that are not
    array indices, the order in which they were created). *)
Theorem ranking_sorted_stable (b : Buckets) :
  StronglySorted score_ge (rank b)
  /\ rank b ≡ₚ map score_entry (entries b)
  /\ forall s, with_score s (rank b) = with_score s (map score_entry (entries b)).
Proof.
  unfold rank. split; [apply sort_by_score_sorted|]. split; [apply sort_by_score_perm|].
  intros s. induction (map score_entry (entries b)) as [|x l IH]; [reflexivity|].
  cbn [sort_by_score foldr].
  rewrite insert_by_score_stable by apply sort_by_score_sorted.
  unfold with_score in *. cbn [List.filter]. unfold sort_by_score in IH. now rewrite IH.
Qed.

(** ** The amenity locator *)

Lemma matches_brand_spec (brandName : string) (place : RawPlace) :
  matches_brand brandName place = true -> names_brand brandName (place_name place).
Proof.
  unfold matches_brand, names_brand, brandParts. intros H.
  apply existsb_exists in H as (part & Hin & Hinc).
  apply filter_In in Hin as [Hin Hlen]. apply Nat.ltb_lt in Hlen. eauto.
Qed.

Lemma map_completion_concat {A B} (f : A -> completion (list B)) (l : list A)
    (found : list (list B)) (b : B) :
  map_completion f l = Ok found ->
  In b (concat found) ->
  exists a bs, In a l /\ f a = Ok bs /\ In b bs.
Proof.
  revert found. induction l as [|a l IH]; intros found H Hb; cbn [map_completion] in H.
  - injection H as <-. destruct Hb.
  - bind_step H. bind_step H. injection H as <-. cbn [concat] in Hb.
    apply in_app_or in Hb as [Hb|Hb].
    + exists a, x. split; [now left|]. split; assumption.
    + destruct (IH _ eq_refl Hb) as (a' & bs & Ha' & Hf & Hbs).
      exists a', bs. split; [now right|]. split; assumption.
Qed.

Lemma elem_of_brand_results (w : World) (cityCoords : Z * Z) (amenityType : string)
    (brandName : JSValue) (found : list RawPlace) (raw : RawPlace) :
  brand_results w cityCoords amenityType brandName = Ok found ->
  In raw found ->
  exists brand, brandName = JStr brand /\ matches_brand_strict brand raw = true.
Proof.
  unfold brand_results. intros H Hraw. bind_step H. injection H as <-.
  destruct brandName as [| | | | |brand| |]; try (destruct Hraw).
  destruct (placesNearbyKeyword w cityCoords 8000 (JStr brand) amenityType)
    as [response|]; [|destruct Hraw].
  destruct (results response) as [rs|]; [|destruct Hraw].
  apply filter_In in Hraw as [_ Hkeep]. eauto.
Qed.

Lemma elem_of_display_brand_results (w : World) (cityCoords : Z * Z)
    (amenityType : string) (brandName : JSValue) (found : list RawPlace)
    (raw : RawPlace) :
  display_brand_results w cityCoords amenityType brandName = Ok found ->
  In raw found ->
  exists brand, brandName = JStr brand /\ matches_brand brand raw = true.
Proof.
  unfold display_brand_results. intros H Hraw.
  destruct (placesNearbyKeyword w cityCoords 8000 brandName amenityType) as [response|].
  - destruct (results response) as [rs|]; [|injection H as <-; destruct Hraw].
    destruct brandName as [| | | | |brand| |];
      try (bind_step H; injection H as <-; destruct Hraw).
    injection H as <-. apply filter_In in Hraw as [_ Hkeep]. eauto.
  - bind_step H. injection H as <-. destruct Hraw.
Qed.

(** A brand of one letter has no significant word. *)
Lemma one_letter_brand (c : ascii) (raw : RawPlace) :
  matches_brand (String c EmptyString) raw = false.
Proof.
  unfold matches_brand, brandParts. cbn [toLowerCase words_from].
  destruct (is_space (lower_ascii c)); reflexivity.
Qed.

(** The brands a value lists when it is iterated: the strings of an array.
    The letters of a string name no brand. *)
Lemma iterated_brand (specificNames : JSValue) (brands : list JSValue) (brand : string)
    (raw : RawPlace) :
  iterate specificNames = Ok brands ->
  In (JStr brand) brands ->
  matches_brand brand raw = true ->
  exists items, specificNames = JArr items /\ In (JStr brand) items.
Proof.
  intros Hiterate Hin Hkeep.
  destruct specificNames as [| | | | |s|items|]; try discriminate Hiterate.
  - injection Hiterate as <-. apply in_map_iff in Hin as (letter & Hletter & Hin).
    injection Hletter as <-. unfold chars in Hin.
    apply in_map_iff in Hin as (c & <- & _).
    rewrite one_letter_brand in Hkeep. discriminate.
  - injection Hiterate as <-. eauto.
Qed.

(** X6. The brand search of the scoring locator is sound: when brand names
    are given, every place it returns carries the requested amenity type,
    has a name in which a significant word of one of the brands occurs
    (ignoring case), and has no "google" and no "test" in its name.  The
    brands are the strings of an array: no other value yields a place. *)
Theorem brand_search_sound (w : World) (city amenityType : string)
    (specificNames : JSValue) (p : Place) :
  length_gt_zero specificNames = Ok true ->
  In p (getAllAmenityCoordinates w city amenityType specificNames) ->
  type p = amenityType
  /\ (exists items brandName,
        specificNames = JArr items
        /\ In (JStr brandName) items /\ names_brand brandName (name p))
  /\ includes (toLowerCase (name p)) "google" = false
  /\ includes (toLowerCase (name p)) "test" = false.
Proof.
  intros Hnames Hp. unfold getAllAmenityCoordinates in Hp.
  destruct (getCityCoordinates w city) as [cityCoords|]; [|inversion Hp].
  rewrite Hnames in Hp. cbn [mbind completion_bind] in Hp.
  destruct (iterate specificNames) as [brands|] eqn:Hiterate;
    cbn [mbind completion_bind] in Hp; [|inversion Hp].
  destruct (map_completion (brand_results w cityCoords amenityType) brands)
    as [found|] eqn:Hfound; cbn [mbind completion_bind] in Hp; [|inversion Hp].
  apply in_map_iff in Hp as (raw & <- & Hraw).
  destruct (map_completion_concat _ _ _ _ Hfound Hraw) as (brandName & bs & Hin & Hbs & Hraw').
  destruct (elem_of_brand_results _ _ _ _ _ _ Hbs Hraw') as (brand & -> & Hkeep).
  unfold matches_brand_strict in Hkeep.
  apply andb_prop in Hkeep as [Hkeep Htest]. apply andb_prop in Hkeep as [Hbrand Hgoogle].
  apply negb_true_iff in Htest. apply negb_true_iff in Hgoogle.
  cbn [to_place type name]. repeat split; try assumption.
  destruct (iterated_brand _ _ _ _ Hiterate Hin Hbrand) as (items & -> & Hitem).
  exists items, brand. split; [reflexivity|]. split; [assumption|].
  now apply matches_brand_spec.
Qed.

Lemma brand_search_sound_witness :
  type (to_place "gym" crunch_downtown) = "gym"
  /\ includes (toLowerCase (name (to_place "gym" crunch_downtown))) "test" = false.
Proof.
  destruct (brand_search_sound brand_world "Springfield" "gym"
              (JArr [JStr "Crunch Fitness"])
              (to_place "gym" crunch_downtown) ltac:(reflexivity)
              ltac:(vm_compute; left; reflexivity))
    as (Htype & _ & _ & Htest).
  split; assumption.
Defined.

Lemma generic_pages_length (w : World) (k : nat) (cityCoords : Z * Z)
    (amenityType : string) :
  pages_at_most w k ->
  forall pages token,
    (length (generic_pages w pages cityCoords amenityType token) <= pages * k)%nat.
Proof.
  intros Hk. induction pages as [|pages IH]; intros token; [cbn; lia|].
  cbn [generic_pages].
  destruct (placesNearbyType w cityCoords 8000 amenityType token) as [response|] eqn:Hr;
    [|cbn; lia].
  rewrite length_app. specialize (Hk _ _ _ _ _ Hr).
  destruct (token_truthy (next_page_token response)).
  - specialize (IH (next_page_token response)). lia.
  - cbn [length]. lia.
Qed.

(** X7. The generic search of the scoring locator reads at most three
    pages: when no brand names are given and the provider's pages hold at
    most [k] places, at most [3 * k] places come back, all carrying the
    requested amenity type. *)
Theorem generic_search_bounded (w : World) (k : nat) (city amenityType : string)
    (specificNames : JSValue) :
  pages_at_most w k ->
  length_gt_zero specificNames = Ok false ->
  (length (getAllAmenityCoordinates w city amenityType specificNames) <= 3 * k)%nat
  /\ forall p, In p (getAllAmenityCoordinates w city amenityType specificNames) ->
               type p = amenityType.
Proof.
  intros Hk Hnames. unfold getAllAmenityCoordinates.
  destruct (getCityCoordinates w city) as [cityCoords|]; [|split; [cbn; lia|intros p []]].
  rewrite Hnames. cbn [mbind completion_bind].
  split.
  - rewrite length_map. now apply generic_pages_length.
  - intros p Hp. apply in_map_iff in Hp as (raw & <- & _). reflexivity.
Qed.

Lemma generic_search_bounded_witness :
  (length (getAllAmenityCoordinates scenario_world "Springfield" "gym" (JArr []))
   <= 3 * 2)%nat.
Proof.
  apply (generic_search_bounded scenario_world 2 "Springfield" "gym" (JArr [])).
  - intros cityCoords radius amenityType token response Hr.
    injection Hr as <-. cbn. lia.
  - reflexivity.
Defined.

(** ** The neighborhood resolver *)

Lemma before_comma_no_comma (s : string) :
  includes (before_comma s) "," = false.
Proof.
  induction s as [|c t IH]; [reflexivity|].
  cbn [before_comma]. destruct (Ascii.eqb c ","%char) eqn:Hc; [reflexivity|].
  cbn [includes String.prefix].
  destruct (ascii_dec ","%char c) as [<-|Hne].
  - rewrite Ascii.eqb_refl in Hc. discriminate.
  - exact IH.
Qed.

Lemma find_none_forall {A} (f : A -> bool) (l : list A) :
  List.find f l = None -> forall x, In x l -> f x = false.
Proof. intros H x Hx. exact (find_none f l H x Hx). Qed.

(** X8. The resolver prefers a neighborhood to a locality and a locality to
    the address: the name it returns is the long name of a component typed
    "neighborhood"; or, when no component is one, of a component typed
    "locality"; or, when none is either, the formatted address up to its
    first comma, which contains no comma. *)
Theorem resolver_priority (w : World) (lat lng : Z) (n : string) :
  getNeighborhoodFromCoordinates w lat lng = Some n ->
  exists result rest,
    reverseGeocode w (lat, lng) = Ok (Some (result :: rest))
    /\ let components := default [] (address_components result) in
       (exists c, In c components /\ has_type "neighborhood" c = true /\ n = long_name c)
       \/ ((forall c, In c components -> has_type "neighborhood" c = false)
           /\ exists c, In c components /\ has_type "locality" c = true /\ n = long_name c)
       \/ ((forall c, In c components -> has_type "neighborhood" c = false)
           /\ (forall c, In c components -> has_type "locality" c = false)
           /\ n = before_comma (formatted_address result)
           /\ includes n "," = false).
Proof.
  unfold getNeighborhoodFromCoordinates. intros H.
  destruct (reverseGeocode w (lat, lng)) as [[[|result rest]|]|]; try discriminate.
  exists result, rest. split; [reflexivity|]. cbn zeta.
  destruct (List.find (has_type "neighborhood") (default [] (address_components result)))
    as [c|] eqn:Hn.
  - injection H as <-. apply find_some in Hn as [Hin Hc]. left. eauto.
  - right. pose proof (find_none_forall _ _ Hn) as Hnone.
    destruct (List.find (has_type "locality") (default [] (address_components result)))
      as [c|] eqn:Hl.
    + injection H as <-. apply find_some in Hl as [Hin Hc]. left. eauto.
    + injection H as <-. right. pose proof (find_none_forall _ _ Hl) as Hnol.
      repeat split; try assumption. apply before_comma_no_comma.
Qed.

Lemma resolver_priority_witness :
  exists result rest,
    reverseGeocode scenario_world (1, 1) = Ok (Some (result :: rest)).
Proof.
  destruct (resolver_priority scenario_world 1 1 "Downtown" eq_refl)
    as (result & rest & Hr & _).
  exists result, rest. exact Hr.
Defined.

(** ** Forum discovery and post retrieval *)

Lemma subreddit_isRelevant_spec (city : string) (sr : Subreddit) :
  subreddit_isRelevant city sr = Ok true ->
  exists n, relevant_subreddit city sr n.
Proof.
  unfold subreddit_isRelevant, relevant_subreddit. intros H.
  destruct (100 <? subscribers sr) eqn:Hsub; cbn [negb] in H; [|discriminate].
  apply Z.ltb_lt in Hsub.
  destruct (over18 sr) eqn:Hadult; [discriminate|].
  destruct (display_name sr) as [n|]; cbn in H; [|discriminate].
  exists n. repeat split; try assumption.
  destruct (includes (toLowerCase n) (toLowerCase city)) eqn:Hname; [now left|].
  right. destruct (public_description sr) as [d|]; cbn in H; [|discriminate].
  exists d. split; [reflexivity|]. injection H as H.
  apply orb_prop in H as [H|H]; [apply orb_prop in H as [H|H]|]; auto.
Qed.

Lemma collect_subreddits_spec (city : string) (children : list Subreddit) :
  forall found,
    collect_subreddits city children = Ok found ->
    found `sublist_of` omap display_name children
    /\ forall n, In n found -> exists sr, In sr children /\ relevant_subreddit city sr n.
Proof.
  induction children as [|sr rest IH]; intros found H; cbn [collect_subreddits] in H.
  - injection H as <-. split; [constructor|intros n []].
  - bind_step H. bind_step H. injection H as <-.
    destruct (IH _ eq_refl) as [Hsub Hall].
    cbn [omap list_omap]. destruct x.
    + apply subreddit_isRelevant_spec in Hx as (n & Hrel).
      pose proof Hrel as [Hname _]. rewrite Hname. split.
      * now apply sublist_skip.
      * intros n' [<-|Hn'].
        -- exists sr. split; [now left|assumption].
        -- destruct (Hall n' Hn') as (sr' & Hin & Hr). exists sr'. split; [now right|assumption].
    + split.
      * destruct (display_name sr); [now apply sublist_cons|assumption].
      * intros n' Hn'. destruct (Hall n' Hn') as (sr' & Hin & Hr).
        exists sr'. split; [now right|assumption].
Qed.

(** X9. What forum discovery returns is one of its two generated
    fallbacks, or names the search found: then each is the display name of
    a result with more than 100 subscribers that is not flagged adult and
    that mentions the city in its name or one of the three keywords in its
    description, and the names are in the provider's order. *)
Theorem discovered_are_relevant (w : World) (city : string) (names : list string) :
  discoverSubreddits w city = Ok names ->
  names = ultimateFallback city
  \/ names = fallbackSubreddits city
  \/ exists children,
       subredditSearch w city = Ok (Some children)
       /\ names <> []
       /\ names `sublist_of` omap display_name children
       /\ forall n, In n names ->
            exists sr, In sr children /\ relevant_subreddit city sr n.
Proof.
  unfold discoverSubreddits. intros H.
  destruct (subredditSearch w city) as [[children|]|e]; cbn in H.
  - destruct (collect_subreddits city children) as [found|e] eqn:Hc; cbn in H.
    + destruct found as [|n0 found]; cbn in H; injection H as <-; [now right; left|].
      right. right. exists children. split; [reflexivity|]. split; [discriminate|].
      now apply collect_subreddits_spec.
    + injection H as <-. now left.
  - injection H as <-. now right; left.
  - injection H as <-. now left.
Qed.

Lemma discovered_are_relevant_witness :
  exists children,
    subredditSearch forum_world "Springfield" = Ok (Some children)
    /\ ["SpringfieldIL"] `sublist_of` omap display_name children.
Proof.
  destruct (discovered_are_relevant forum_world "Springfield" ["SpringfieldIL"] eq_refl)
    as [H|[H|(children & Hs & _ & Hsub & _)]]; [discriminate H|discriminate H|].
  exists children. split; assumption.
Defined.

Lemma substring_to_spec (n : nat) (s : string) :
  (String.length (substring_to n s) <= n)%nat
  /\ String.prefix (substring_to n s) s = true.
Proof.
  revert s. induction n as [|n IH]; intros s; [split; cbn; [lia|now destruct s]|].
  destruct s as [|c t]; [split; cbn; [lia|reflexivity]|].
  cbn [substring_to String.length String.prefix]. destruct (IH t) as [Hlen Hpre].
  split; [lia|]. destruct (ascii_dec c c); [assumption|congruence].
Qed.

Lemma scrape_query_spec (w : World) (searchSubreddits : list string) (query p : string) :
  In p (scrape_query w searchSubreddits query) ->
  exists fullQuery children child excerpt,
    postSearch w fullQuery = Ok (Some children)
    /\ In child children
    /\ title child <> "" /\ selftext child <> ""
    /\ p = post_text child excerpt
    /\ (String.length excerpt <= 300)%nat
    /\ String.prefix excerpt (selftext child) = true.
Proof.
  unfold scrape_query. intros Hp.
  match type of Hp with
  | context [postSearch w ?q] =>
      destruct (postSearch w q) as [[children|]|] eqn:Hs; try (now inversion Hp);
      exists q, children
  end.
  apply in_map_iff in Hp as (child & <- & Hchild).
  apply filter_In in Hchild as [Hin Hboth]. unfold has_title_and_text in Hboth.
  apply andb_prop in Hboth as [Ht Hb].
  exists child, (substring_to 300 (selftext child)).
  destruct (substring_to_spec 300 (selftext child)) as [Hlen Hpre].
  repeat split; try assumption; try reflexivity.
  - intros Hempty. rewrite Hempty in Ht. discriminate.
  - intros Hempty. rewrite Hempty in Hb. discriminate.
Qed.

Lemma scrape_query_length (w : World) (k : nat) (searchSubreddits : list string)
    (query : string) :
  searches_at_most w k ->
  (length (scrape_query w searchSubreddits query) <= k)%nat.
Proof.
  intros Hk. unfold scrape_query.
  match goal with
  | |- context [postSearch w ?q] =>
      destruct (postSearch w q) as [[children|]|] eqn:Hs; try (cbn; lia)
  end.
  rewrite length_map. specialize (Hk _ _ Hs).
  pose proof (filter_length_le has_title_and_text children). lia.
Qed.

Lemma search_subreddits_returns (w : World) (city : option string)
    (subreddits : option (list string)) :
  exists searchSubreddits,
    match subreddits, city with
    | Some subs, _ => Ok subs
    | None, Some c => if nonempty_string c then discoverSubreddits w c else Ok ["AskReddit"]
    | None, None => Ok ["AskReddit"]
    end = Ok searchSubreddits.
Proof.
  destruct subreddits as [subs|]; [eauto|].
  destruct city as [c|]; [|eauto].
  destruct (nonempty_string c); [|eauto].
  apply discoverSubreddits_returns.
Qed.

Lemma map_completion_throws {A B} (f : A -> completion B) (l : list A) (e : error) :
  map_completion f l = Throw e -> exists a, In a l /\ f a = Throw e.
Proof.
  induction l as [|a l IH]; intros H; cbn [map_completion] in H; [discriminate H|].
  destruct (f a) as [b|e'] eqn:Hfa; cbn [mbind completion_bind] in H.
  - destruct (map_completion f l) as [bs|e'']; cbn [mbind completion_bind] in H;
      [discriminate H|].
    injection H as ->. destruct (IH eq_refl) as (a' & Ha' & Hf).
    exists a'. split; [now right|assumption].
  - injection H as ->. exists a. split; [now left|assumption].
Qed.

(** Induction on a parsed value through the entries of arrays. *)
Lemma JSValue_array_ind (P : JSValue -> Prop) :
  (forall v, (forall items, v <> JArr items) -> P v) ->
  (forall items, Forall P items -> P (JArr items)) ->
  forall v, P v.
Proof.
  intros Hleaf HArr.
  refine (fix IH (v : JSValue) : P v :=
            match v with
            | JArr items =>
                HArr items ((fix go (l : list JSValue) : Forall P l :=
                               match l with
                               | [] => @List.Forall_nil JSValue P
                               | x :: r => @List.Forall_cons JSValue P x r (IH x) (go r)
                               end) items)
            | _ => Hleaf _ _
            end); intros items'; discriminate.
Qed.

(** ToString throws nothing but a TypeError. *)
Lemma to_string_error (v : JSValue) (e : error) :
  to_string v = Throw e -> e = TypeError.
Proof.
  revert e. induction v as [v Hv|items IH] using JSValue_array_ind; intros e H.
  - destruct v as [| |b|z|lit|s|items|fields]; cbn [to_string] in H;
      try discriminate H.
    + now destruct (Hv items).
    + destruct (assoc "toString" fields); [now injection H as <-|discriminate H].
  - cbn [to_string] in H.
    destruct (map_completion _ items) as [parts|e'] eqn:Hparts;
      cbn [mbind completion_bind] in H; [discriminate H|].
    injection H as <-. apply map_completion_throws in Hparts as (item & Hin & Hitem).
    rewrite Forall_forall in IH. specialize (IH item).
    destruct item; try discriminate Hitem; apply IH; try assumption;
      now apply list_elem_of_In.
Qed.

Lemma map_completion_returns {A B} (f : A -> completion B) (l : list A) :
  Forall (fun a => returns (f a)) l -> returns (map_completion f l).
Proof.
  induction 1 as [|a l [b Hb] _ [bs Hbs]]; [now exists []|].
  exists (b :: bs). cbn [map_completion]. now rewrite Hb, Hbs.
Qed.

Lemma map_completion_app {A B} (f : A -> completion B) (l1 l2 : list A)
    (bs1 bs2 : list B) :
  map_completion f l1 = Ok bs1 -> map_completion f l2 = Ok bs2 ->
  map_completion f (l1 ++ l2)%list = Ok (bs1 ++ bs2)%list.
Proof.
  revert bs1. induction l1 as [|a l1 IH]; intros bs1 H1 H2; cbn [map_completion] in H1.
  - now injection H1 as <-.
  - bind_step H1. bind_step H1. injection H1 as <-.
    cbn [app map_completion]. rewrite Hx, (IH _ eq_refl H2). reflexivity.
Qed.

Lemma queries_of_array_texts (items : list JSValue) (texts : list string) :
  map_completion to_string items = Ok texts -> Forall printable items.
Proof.
  revert texts. induction items as [|item rest IH]; intros texts Htexts; [constructor|].
  cbn [map_completion] in Htexts. bind_step Htexts. bind_step Htexts.
  constructor; [now exists x|now apply (IH x0)].
Qed.

(** The queries of an array: their texts when all can be made strings, a
    TypeError otherwise. *)
Lemma queries_of_array (items : list JSValue) :
  (Forall printable items -> returns (queries_of (JArr items)))
  /\ (~ Forall printable items -> queries_of (JArr items) = Throw TypeError).
Proof.
  cbn [queries_of]. split.
  - apply map_completion_returns.
  - intros Hnot. destruct (map_completion to_string items) as [texts|e] eqn:Htexts.
    + exfalso. apply Hnot. now apply (queries_of_array_texts items texts).
    + apply map_completion_throws in Htexts as (item & _ & Hitem).
      now rewrite (to_string_error _ _ Hitem).
Qed.

(** X10. Post retrieval on an array of queries fails in one case only,
    whatever the searches do: when a query cannot be made a string, it
    throws a TypeError, out of its own [catch].  Otherwise it returns, and
    it works query by query: the posts of two arrays put end to end are
    the posts of the first followed by the posts of the second. *)
Theorem scrape_batch (w : World) (items1 items2 : list JSValue) (city : option string)
    (subreddits : option (list string)) :
  (Forall printable items1 -> Forall printable items2 ->
   exists posts1 posts2,
     scrapeReddit w (JArr items1) city subreddits = Ok posts1
     /\ scrapeReddit w (JArr items2) city subreddits = Ok posts2
     /\ scrapeReddit w (JArr (items1 ++ items2)%list) city subreddits
        = Ok (posts1 ++ posts2)%list)
  /\ (~ Forall printable items1 ->
      scrapeReddit w (JArr items1) city subreddits = Throw TypeError).
Proof.
  unfold scrapeReddit. split.
  - intros H1 H2.
    destruct (proj1 (queries_of_array items1) H1) as [texts1 Htexts1].
    destruct (proj1 (queries_of_array items2) H2) as [texts2 Htexts2].
    cbn [queries_of] in *.
    rewrite Htexts1, Htexts2, (map_completion_app _ _ _ _ _ Htexts1 Htexts2).
    cbn [mbind completion_bind].
    destruct (search_subreddits_returns w city subreddits) as [subs ->].
    cbn [mbind completion_bind]. do 2 eexists. split; [reflexivity|]. split; [reflexivity|].
    now rewrite !map_app, concat_app.
  - intros Hnot. now rewrite (proj2 (queries_of_array items1) Hnot).
Qed.

Lemma scrape_batch_witness :
  (exists posts,
     scrapeReddit scenario_world (JArr [JStr "quiet neighborhoods"; JNum 5]) None None
     = Ok posts)
  /\ scrapeReddit scenario_world (JArr [JStr "quiet neighborhoods"; JObj [("toString", JNum 1)]])
       None None
     = Throw TypeError.
Proof.
  split.
  - destruct (proj1 (scrape_batch scenario_world [JStr "quiet neighborhoods"] [JNum 5]
                       None None))
      as (posts1 & posts2 & _ & _ & Hboth).
    + repeat constructor. now exists "quiet neighborhoods".
    + repeat constructor. now exists "5".
    + exists (posts1 ++ posts2)%list. exact Hboth.
  - apply (proj2 (scrape_batch scenario_world
                    [JStr "quiet neighborhoods"; JObj [("toString", JNum 1)]] []
                    None None)).
    intros Hall. inversion Hall as [|? ? _ Hrest]. inversion Hrest as [|? ? [text Htext] _].
    discriminate Htext.
Defined.

(** X11. Every post that post retrieval returns was made from a search
    result with a title and a body, and carries at most the first 300
    characters of that body; when every search yields at most [k] results,
    a batch of queries yields at most [k] posts per query. *)
Theorem scraped_posts_shape (w : World) (queries : JSValue) (city : option string)
    (subreddits : option (list string)) (posts : list string) :
  scrapeReddit w queries city subreddits = Ok posts ->
  (forall p, In p posts ->
     exists fullQuery children child excerpt,
       postSearch w fullQuery = Ok (Some children)
       /\ In child children
       /\ title child <> "" /\ selftext child <> ""
       /\ p = post_text child excerpt
       /\ (String.length excerpt <= 300)%nat
       /\ String.prefix excerpt (selftext child) = true)
  /\ (forall k qs, searches_at_most w k -> queries_of queries = Ok qs ->
        (length posts <= k * length qs)%nat).
Proof.
  unfold scrapeReddit. intros H. bind_step H. bind_step H. injection H as <-.
  split.
  - intros p Hp. apply in_concat in Hp as (l & Hl & Hp).
    apply in_map_iff in Hl as (query & <- & _).
    now apply scrape_query_spec in Hp.
  - intros k qs Hk Hqs. injection Hqs as <-. clear Hx.
    induction x as [|q qs IH]; [cbn; lia|].
    cbn [map concat]. rewrite length_app. cbn [length].
    pose proof (scrape_query_length w k x0 q Hk). nia.
Qed.

Lemma scraped_posts_shape_witness :
  (length scraped_posts <= 4 * 1)%nat.
Proof.
  apply (proj2 (scraped_posts_shape scenario_world (JArr [JStr "quiet neighborhoods"])
                  (Some "Springfield") None scraped_posts eq_refl) 4%nat
               ["quiet neighborhoods"]).
  - intros fullQuery children Hs. injection Hs as <-. cbn. lia.
  - reflexivity.
Defined.

(** X12. A reply to the qualitative-queries prompt that is valid JSON but
    neither an array nor a string (an object, a number, null) is not
    caught: scraping throws a TypeError on it and the amenity-first request
    ends with status 500. *)
Theorem non_iterable_queries_fail_request (JSON_parse : string -> option JSValue)
    (w : World) (req : Request) (queries : JSValue) :
  queries_of queries = Throw TypeError ->
  scrape_reached JSON_parse w req queries ->
  post_recommendations JSON_parse w req = Status500 TypeError.
Proof.
  intros Hq (Hwf & amenityText & needed & brands & qualText
             & Hamenity & Hextract & Hne & Hscored & Hqual & Hparse).
  apply present_cases in Hwf.
  unfold post_recommendations, recommendations_try.
  rewrite Hwf, Hamenity. cbn [mbind completion_bind].
  rewrite Hextract. cbn [mbind completion_bind].
  destruct needed as [|t rest]; [congruence|].
  change (0 <? length (t :: rest))%nat with true. cbn iota.
  destruct (scoreNeighborhoodsByAmenities w (default "" (body_city req)) (t :: rest) brands)
    as [scored found].
  cbn [fst] in Hscored. destruct scored as [|s scored]; [congruence|].
  change (length (s :: scored) =? 0)%nat with false. cbn iota.
  unfold qualitative_and_assembly. rewrite Hqual. cbn [mbind completion_bind].
  rewrite Hparse. unfold scrapeReddit. rewrite Hq. reflexivity.
Qed.

Lemma non_iterable_queries_fail_request_witness :
  post_recommendations sample_parse object_queries_world sample_request
  = Status500 TypeError.
Proof.
  apply (non_iterable_queries_fail_request sample_parse object_queries_world
           sample_request (JObj []) eq_refl).
  split; [split; reflexivity|].
  exists gym_text, ["gym"], {["gym" := JArr []]}, "{}".
  split; [reflexivity|]. split; [reflexivity|]. split; [discriminate|].
  split; [vm_compute; discriminate|]. split; reflexivity.
Defined.

(** ** The relevance filter, on any reply *)

Lemma filter_from_sublist (v : JSValue) (posts : list string) :
  forall i kept, filter_from v i posts = Ok kept -> kept `sublist_of` posts.
Proof.
  induction posts as [|p rest IH]; intros i kept H; cbn [filter_from] in H.
  - injection H as <-. constructor.
  - bind_step H. bind_step H. injection H as <-.
    destruct x; [apply sublist_skip|apply sublist_cons]; now apply (IH (S i)).
Qed.

Lemma filtered_is_sublist (JSON_parse : string -> option JSValue) (w : World)
    (posts : list string) (preferences : string) (kept : list string) :
  filterRelevantPosts JSON_parse w posts preferences = Ok kept ->
  kept `sublist_of` posts.
Proof.
  unfold filterRelevantPosts. intros H. bind_step H.
  destruct (JSON_parse (strip_fences x)) as [v|].
  - now apply filter_from_sublist in H.
  - now injection H as <-.
Qed.

(** X13. Whatever the language model replies, when the relevance filter
    returns, it returns a subsequence of the posts it was given: it never
    adds, repeats or reorders a post. *)
Theorem filter_result_sublist (JSON_parse : string -> option JSValue) (w : World)
    (posts : list string) (preferences : string) (kept : list string) :
  filterRelevantPosts JSON_parse w posts preferences = Ok kept ->
  kept `sublist_of` posts /\ (length kept <= length posts)%nat.
Proof.
  intros H. apply filtered_is_sublist in H.
  split; [assumption|now apply sublist_length].
Qed.

Lemma filter_result_sublist_witness :
  ["first post"] `sublist_of` ["first post"; "second post"; "third post"].
Proof.
  apply (filter_result_sublist sample_parse scenario_world
           ["first post"; "second post"; "third post"] "quiet area" ["first post"]).
  reflexivity.
Defined.

(** ** The test and debug endpoints *)

(** X14. POST /api/test-scrape answers 400 exactly when [queries] is not an
    array, and 500 exactly when it is an array with a query that cannot be
    made a string (a TypeError; no search failure becomes a 500).  For any
    other array it answers 200, searching r/AskReddit only, and the two
    counters of the report are the lengths of the query array and of the
    post list. *)
Theorem test_scrape_report (w : World) (queries : option JSValue) :
  (is_400 (post_test_scrape w queries) <-> forall items, queries <> Some (JArr items))
  /\ (forall e, post_test_scrape w queries = Status500 e <->
        e = TypeError
        /\ exists items, queries = Some (JArr items) /\ ~ Forall printable items)
  /\ forall items texts,
       queries = Some (JArr items) ->
       map_completion to_string items = Ok texts ->
       exists report,
         post_test_scrape w queries = Status200 report
         /\ queriesCount report = length items
         /\ postsScraped report = length (posts report)
         /\ posts report = concat (map (scrape_query w ["AskReddit"]) texts).
Proof.
  unfold post_test_scrape, test_scrape_try, is_400.
  destruct queries as [[| |b|z|lit|s|items|fields]|];
    try (split; [split; [intros _ items; discriminate|eauto]
                |split; [intros e; split;
                           [discriminate|intros [_ (items & Heq & _)]; discriminate]
                        |intros items texts; discriminate]]).
  unfold scrapeReddit. cbn [queries_of].
  destruct (map_completion to_string items) as [texts|e] eqn:Htexts;
    cbn [mbind completion_bind].
  - split; [|split].
    + split; [intros [m Hm]; discriminate|intros H; now destruct (H items)].
    + intros e. split; [discriminate|].
      intros [_ (items' & Heq & Hnot)]. injection Heq as <-.
      destruct Hnot. now apply (queries_of_array_texts items texts).
    + intros items' texts' Heq Htexts'. injection Heq as <-.
      rewrite Htexts in Htexts'. injection Htexts' as <-.
      eexists. repeat split.
  - assert (Hnot : ~ Forall printable items).
    { intros Hall. destruct (proj1 (queries_of_array items) Hall) as [texts Hq].
      cbn [queries_of] in Hq. congruence. }
    pose proof (proj2 (queries_of_array items) Hnot) as Hthrow.
    cbn [queries_of] in Hthrow. rewrite Htexts in Hthrow. injection Hthrow as ->.
    split; [|split].
    + split; [intros [m Hm]; discriminate|intros H; now destruct (H items)].
    + intros e. split.
      * intros [= <-]. split; [reflexivity|]. exists items. split; [reflexivity|assumption].
      * intros [-> _]. reflexivity.
    + intros items' texts' Heq Htexts'. injection Heq as <-. congruence.
Qed.

Lemma test_scrape_report_witness :
  (exists report,
     post_test_scrape scenario_world (Some (JArr [JStr "quiet neighborhoods"; JNum 5]))
     = Status200 report /\ queriesCount report = 2%nat)
  /\ post_test_scrape scenario_world (Some (JArr [JObj [("toString", JNum 1)]]))
     = Status500 TypeError.
Proof.
  pose proof (test_scrape_report scenario_world
                (Some (JArr [JStr "quiet neighborhoods"; JNum 5]))) as (_ & _ & H200).
  pose proof (test_scrape_report scenario_world
                (Some (JArr [JObj [("toString", JNum 1)]]))) as (_ & H500 & _).
  split.
  - destruct (H200 _ ["quiet neighborhoods"; "5"] eq_refl eq_refl)
      as (report & Hr & Hcount & _).
    exists report. split; assumption.
  - apply H500. split; [reflexivity|]. eexists. split; [reflexivity|].
    intros Hall. inversion Hall as [|? ? [text Htext] _]. discriminate Htext.
Defined.

Lemma debug_filter_sublist (JSON_parse : string -> option JSValue) (w : World)
    (allPosts : list string) (preferences : string) (kept : list string) :
  (if (0 <? length allPosts)%nat
   then filterRelevantPosts JSON_parse w allPosts preferences
   else Ok []) = Ok kept ->
  kept `sublist_of` allPosts.
Proof.
  destruct (0 <? length allPosts)%nat; intros H.
  - now apply filtered_is_sublist in H.
  - injection H as <-. apply sublist_nil_l.
Qed.

Lemma discoverSubreddits_nonempty (w : World) (city : string) (names : list string) :
  city <> "" -> discoverSubreddits w city = Ok names -> names <> [].
Proof.
  intros Hcity. unfold discoverSubreddits. intros H.
  destruct (subredditSearch w city) as [[children|]|e];
    cbn -[fallbackSubreddits ultimateFallback] in H.
  - destruct (collect_subreddits city children) as [[|n0 found]|e];
      cbn -[fallbackSubreddits ultimateFallback] in H;
      injection H as <-; try discriminate.
    rewrite fallbackSubreddits_nonempty by assumption. discriminate.
  - injection H as <-. rewrite fallbackSubreddits_nonempty by assumption. discriminate.
  - injection H as <-. discriminate.
Qed.

(** X15. A 200 report of POST /api/debug-recommendations is consistent:
    the discovered forums are those of forum discovery for the city and
    there is at least one, the filtered posts are a subsequence of the
    scraped posts, and the two totals are the lengths of the two lists, so
    totalKept is at most totalScraped. *)
Theorem debug_report_consistent (JSON_parse : string -> option JSValue) (w : World)
    (req : Request) (report : DebugReport) :
  post_debug_recommendations JSON_parse w req = Status200 report ->
  discoverSubreddits w (debug_city report) = Ok (subredditsDiscovered report)
  /\ subredditsDiscovered report <> []
  /\ filteredPosts report `sublist_of` allPostsScraped report
  /\ totalScraped report = length (allPostsScraped report)
  /\ totalKept report = length (filteredPosts report)
  /\ (totalKept report <= totalScraped report)%nat.
Proof.
  unfold post_debug_recommendations. intros Hr.
  destruct (debug_recommendations_try JSON_parse w req) as [r|e] eqn:Htry;
    [subst r|discriminate].
  unfold debug_recommendations_try in Htry.
  destruct (negb (present (body_city req)) || negb (present (body_preferences req)))
    eqn:Hpresent; [discriminate|].
  apply present_cases in Hpresent as [Hcity _].
  repeat bind_step Htry. injection Htry as <-.
  cbn [debug_city subredditsDiscovered filteredPosts allPostsScraped totalScraped totalKept].
  pose proof (debug_filter_sublist _ _ _ _ _ Hx4) as Hsub.
  split; [assumption|]. split.
  - eapply discoverSubreddits_nonempty; [|eassumption].
    destruct (body_city req) as [c|]; [|discriminate]. cbn in *.
    intros ->. discriminate.
  - repeat split; try assumption. now apply sublist_length.
Qed.

Lemma debug_report_consistent_witness :
  exists report,
    post_debug_recommendations sample_parse debug_world sample_request = Status200 report
    /\ (totalKept report <= totalScraped report)%nat.
Proof.
  destruct (post_debug_recommendations sample_parse debug_world sample_request)
    as [report|m|e] eqn:Hr.
  - exists report. split; [reflexivity|].
    apply (debug_report_consistent sample_parse debug_world sample_request report Hr).
  - vm_compute in Hr. discriminate.
  - vm_compute in Hr. discriminate.
Defined.

(** ** The first version of the recommendations handler *)

Lemma fold_assign_lookup {X V} (key : X -> string) (g : string -> V) (l : list X)
    (k : string) :
  forall m : gmap string V,
    fold_left (fun m x => <[key x := g (key x)]> m) l m !! k
    = if decide (k ∈ map key l) then Some (g k) else m !! k.
Proof.
  induction l as [|x l IH]; intros m; cbn [fold_left map].
  - destruct (decide (k ∈ [])) as [Hin|]; [inversion Hin|reflexivity].
  - rewrite IH. destruct (decide (k ∈ map key l)) as [Hin|Hnin].
    + rewrite decide_True by (now right). reflexivity.
    + destruct (decide (k = key x)) as [->|Hne].
      * rewrite decide_True by left. now rewrite lookup_insert_eq.
      * rewrite decide_False.
        -- now rewrite lookup_insert_ne by congruence.
        -- intros Hin. apply elem_of_cons in Hin as [?|?]; congruence.
Qed.

Lemma keyword_amenities_spec (preferences t : string) :
  In t (keyword_amenities preferences) <->
  (t = "gym" /\ mentions preferences ["gym"; "fitness"] = true)
  \/ (t = "grocery_or_supermarket"
      /\ mentions preferences ["grocery"; "supermarket"] = true)
  \/ (t = "transit_station"
      /\ mentions preferences ["transit"; "bus"; "metro"] = true).
Proof.
  unfold keyword_amenities.
  destruct (mentions preferences ["gym"; "fitness"]),
           (mentions preferences ["grocery"; "supermarket"]),
           (mentions preferences ["transit"; "bus"; "metro"]); cbn;
    intuition (try discriminate; auto).
Qed.

(** X16. In the first version the map shows amenities for at most three
    types, decided by substring search in the lower-cased preferences: gym
    when they mention "gym" or "fitness", grocery_or_supermarket for
    "grocery" or "supermarket", transit_station for "transit", "bus" or
    "metro"; each shown sequence has at most 5 places of that type. *)
Theorem first_version_map (JSON_parse : string -> option JSValue) (w : World)
    (req : Request) (body : QueryBody) (md : QueryMapData) :
  post_recommendations_first_version JSON_parse w req = Status200 body ->
  q_mapData body = Some md ->
  let preferences := default "" (body_preferences req) in
  (forall t, is_Some (q_amenities md !! t) <->
     (t = "gym" /\ mentions preferences ["gym"; "fitness"] = true)
     \/ (t = "grocery_or_supermarket"
         /\ mentions preferences ["grocery"; "supermarket"] = true)
     \/ (t = "transit_station"
         /\ mentions preferences ["transit"; "bus"; "metro"] = true))
  /\ (forall t places, q_amenities md !! t = Some places ->
        (length places <= 5)%nat /\ forall p, In p places -> type p = t).
Proof.
  unfold post_recommendations_first_version. intros Hr Hmd.
  destruct (first_recommendations_try JSON_parse w req) as [r|e] eqn:Htry;
    [subst r|discriminate].
  unfold first_recommendations_try in Htry.
  destruct (negb (present (body_city req)) || negb (present (body_preferences req)));
    [discriminate|].
  do 7 bind_step Htry.
  destruct (match_braces (strip_fences x5)).
  2:{ injection Htry as <-. discriminate. }
  do 4 bind_step Htry. injection Htry as <-. cbn in Hmd. injection Hmd as <-.
  cbn [q_amenities]. cbn zeta. unfold keyword_display_amenities.
  assert (Hlookup := fun t =>
            fold_assign_lookup (fun t : string => t)
              (fun t => getAmenityCoordinates_simple w (default "" (body_city req)) t 5)
              (keyword_amenities (default "" (body_preferences req))) t ∅).
  cbn beta in Hlookup. split.
  - intros t. rewrite Hlookup, map_id, <- keyword_amenities_spec, <- list_elem_of_In.
    destruct (decide (t ∈ keyword_amenities (default "" (body_preferences req))));
      [split; eauto|].
    rewrite lookup_empty. split; [intros [? ?]; discriminate|contradiction].
  - intros t places. rewrite Hlookup.
    destruct (decide (t ∈ map (fun t0 : string => t0)
                             (keyword_amenities (default "" (body_preferences req)))));
      [|rewrite lookup_empty; discriminate].
    intros Heq. injection Heq as <-. split.
    + apply getAmenityCoordinates_simple_length.
    + intros p Hp. unfold getAmenityCoordinates_simple in Hp.
      destruct (getCityCoordinates w (default "" (body_city req))); [|inversion Hp].
      destruct (placesNearbyType w p0 5000 t None); [|inversion Hp].
      apply in_map_iff in Hp as (raw & <- & _). reflexivity.
Qed.

Lemma first_version_map_witness :
  exists body md,
    post_recommendations_first_version sample_parse scenario_world sample_request
      = Status200 body
    /\ q_mapData body = Some md
    /\ is_Some (q_amenities md !! "gym")
    /\ q_amenities md !! "transit_station" = None.
Proof.
  destruct (post_recommendations_first_version sample_parse scenario_world sample_request)
    as [body|m|e] eqn:Hr; [|vm_compute in Hr; discriminate..].
  destruct (q_mapData body) as [md|] eqn:Hmd; [|vm_compute in Hr; injection Hr as <-; discriminate].
  exists body, md. split; [reflexivity|]. split; [exact Hmd|].
  pose proof (proj1 (first_version_map sample_parse scenario_world sample_request body md
                       Hr Hmd)) as Hkeys.
  split.
  - apply Hkeys. left. split; reflexivity.
  - destruct (q_amenities md !! "transit_station") eqn:Ht; [|reflexivity].
    exfalso. assert (Hs : is_Some (q_amenities md !! "transit_station")) by eauto.
    apply Hkeys in Hs as [[H _]|[[H _]|[_ H]]]; [discriminate H|discriminate H|].
    vm_compute in H. discriminate.
Defined.

(** ** Code fences and brace matching *)

Lemma remove_all_clean (pat_tail : string) (body rest : string) :
  no_backtick body = true ->
  remove_all (String "`"%char pat_tail) 0 (body ++ rest)
  = body ++ remove_all (String "`"%char pat_tail) 0 rest.
Proof.
  induction body as [|c t IH]; intros Hclean; [reflexivity|].
  cbn [no_backtick] in Hclean. apply andb_prop in Hclean as [Hc Ht].
  apply negb_true_iff in Hc.
  change (String c t ++ rest) with (String c (t ++ rest)).
  change (String c t ++ remove_all (String "`"%char pat_tail) 0 rest)
    with (String c (t ++ remove_all (String "`"%char pat_tail) 0 rest)).
  cbn [remove_all String.eqb String.prefix negb andb].
  destruct (ascii_dec "`"%char c) as [<-|Hne].
  - rewrite Ascii.eqb_refl in Hc. discriminate.
  - now rewrite IH.
Qed.

Lemma append_empty (s : string) : s ++ "" = s.
Proof.
  induction s as [|c t IH]; [reflexivity|].
  change (String c t ++ "") with (String c (t ++ "")). now rewrite IH.
Qed.

Lemma json_fence_opens (rest : string) :
  remove_all "```json" 0 ("```json" ++ newline ++ rest) = remove_all "```json" 0 rest.
Proof. destruct rest; vm_compute; reflexivity. Qed.

Lemma plain_fence_opens (rest : string) :
  remove_all "```" 0 ("```" ++ newline ++ rest) = remove_all "```" 0 rest.
Proof. destruct rest; vm_compute; reflexivity. Qed.

Lemma plain_fence_kept (rest : string) :
  remove_all "```json" 0 ("```" ++ newline ++ rest)
  = "```" ++ newline ++ remove_all "```json" 0 rest.
Proof. destruct rest; vm_compute; reflexivity. Qed.

Lemma trim_end_newline (s : string) : trim_end (s ++ newline) = trim_end s.
Proof.
  induction s as [|c t IH]; [reflexivity|].
  change (String c t ++ newline) with (String c (t ++ newline)).
  cbn [trim_end]. now rewrite IH.
Qed.

Lemma trim_newline (s : string) : trim (s ++ newline) = trim s.
Proof.
  unfold trim. induction s as [|c t IH]; [reflexivity|].
  change (String c t ++ newline) with (String c (t ++ newline)).
  cbn [trim_start]. destruct (is_space c); [exact IH|].
  apply (trim_end_newline (String c t)).
Qed.

(** X17. Unwrapping a reply: for a body without backticks, the body alone,
    the body in a [```json] fence and the body in a plain [```] fence are
    all read as the trimmed body. *)
Theorem fenced_body_unwrapped (body : string) :
  no_backtick body = true ->
  strip_fences body = trim body
  /\ strip_fences ("```json" ++ newline ++ body ++ newline ++ "```") = trim body
  /\ strip_fences ("```" ++ newline ++ body ++ newline ++ "```") = trim body.
Proof.
  intros Hclean. unfold strip_fences, remove_fences.
  assert (Hplain : forall pat_tail,
             remove_all (String "`"%char pat_tail) 0 body = body).
  { intros pat_tail. rewrite <- (append_empty body) at 1.
    rewrite remove_all_clean by assumption. apply append_empty. }
  assert (Hjson_tail : remove_all "```json" 0 (newline ++ "```") = newline ++ "```")
    by (vm_compute; reflexivity).
  assert (Hplain_tail : remove_all "```" 0 (newline ++ "```") = newline)
    by (vm_compute; reflexivity).
  split; [|split].
  - now rewrite !(Hplain _).
  - rewrite json_fence_opens, (remove_all_clean "``json") by assumption.
    rewrite Hjson_tail, (remove_all_clean "``") by assumption.
    rewrite Hplain_tail. apply trim_newline.
  - rewrite plain_fence_kept, (remove_all_clean "``json") by assumption.
    rewrite Hjson_tail, plain_fence_opens, (remove_all_clean "``") by assumption.
    rewrite Hplain_tail. apply trim_newline.
Qed.

Lemma fenced_body_unwrapped_witness :
  strip_fences ("```json" ++ newline ++ gym_text ++ newline ++ "```") = trim gym_text.
Proof.
  apply (proj1 (proj2 (fenced_body_unwrapped gym_text eq_refl))).
Defined.

Lemma prefix_empty (s : string) : String.prefix "" s = true.
Proof. now destruct s. Qed.

Lemma index_brace (text : string) :
  forall i,
    String.index 0 "{" text = Some i ->
    exists pre rest,
      text = pre ++ String "{"%char rest
      /\ lacks "{"%char pre = true
      /\ drop_string i text = String "{"%char rest.
Proof.
  induction text as [|a t IH]; intros i H; [discriminate|].
  cbn [String.index String.prefix] in H.
  destruct (ascii_dec "{"%char a) as [<-|Hne].
  - rewrite prefix_empty in H. injection H as <-.
    exists "", t. repeat split.
  - destruct (String.index 0 "{" t) as [k|] eqn:Hk; [|discriminate].
    injection H as <-. destruct (IH k eq_refl) as (pre & rest & -> & Hpre & Hdrop).
    exists (String a pre), rest. repeat split.
    + cbn [lacks]. rewrite Hpre.
      destruct (Ascii.eqb_spec "{"%char a); [contradiction|reflexivity].
    + exact Hdrop.
Qed.

Lemma index_brace_none (text : string) :
  String.index 0 "{" text = None -> lacks "{"%char text = true.
Proof.
  induction text as [|a t IH]; intros H; [reflexivity|].
  cbn [String.index String.prefix] in H. cbn [lacks].
  destruct (ascii_dec "{"%char a) as [<-|Hne].
  - rewrite prefix_empty in H. discriminate.
  - destruct (String.index 0 "{" t); [discriminate|].
    rewrite IH by reflexivity.
    destruct (Ascii.eqb_spec "{"%char a); [contradiction|reflexivity].
Qed.

Lemma last_index_none (c : ascii) (s : string) :
  last_index c s = None -> lacks c s = true.
Proof.
  induction s as [|c' t IH]; intros H; [reflexivity|].
  cbn [last_index] in H. cbn [lacks].
  destruct (last_index c t); [discriminate|].
  destruct (Ascii.eqb c c'); [discriminate|]. now rewrite IH.
Qed.

Lemma last_index_spec (c : ascii) (s : string) :
  forall j,
    last_index c s = Some j ->
    exists a b,
      s = a ++ String c b /\ String.length a = j /\ lacks c b = true
      /\ String.substring 0 (S j) s = a ++ String c "".
Proof.
  induction s as [|c' t IH]; intros j H; [discriminate|].
  cbn [last_index] in H.
  destruct (last_index c t) as [i|] eqn:Hi.
  - injection H as <-. destruct (IH i eq_refl) as (a & b & -> & Hlen & Hb & Hsub).
    exists (String c' a), b. repeat split; [cbn; lia|assumption|].
    change (String c' (a ++ String c b)) with (String c' a ++ String c b) in *.
    change (String c' a ++ String c "") with (String c' (a ++ String c "")).
    rewrite <- Hsub. reflexivity.
  - destruct (Ascii.eqb_spec c c') as [<-|]; [|discriminate].
    injection H as <-. exists "", t.
    split; [reflexivity|]. split; [reflexivity|].
    split; [now apply last_index_none|]. now destruct t.
Qed.

Lemma append_assoc_one (a b : string) (c : ascii) :
  (a ++ String c "") ++ b = a ++ String c b.
Proof.
  induction a as [|x a IH]; [reflexivity|].
  change ((String x a ++ String c "") ++ b) with (String x ((a ++ String c "") ++ b)).
  now rewrite IH.
Qed.

(** X18. What is handed to the JSON parser from the analysis reply is the
    span from the first opening brace to the last closing brace: the text
    before it has no opening brace and the text after it no closing one.
    Nothing is handed over only when the reply has no opening brace, or no
    closing brace after the first opening one. *)
Theorem braces_span (text : string) :
  (forall jsonMatch,
     match_braces text = Some jsonMatch ->
     exists pre inner post,
       text = pre ++ jsonMatch ++ post
       /\ jsonMatch = "{" ++ inner ++ "}"
       /\ lacks "{"%char pre = true
       /\ lacks "}"%char post = true)
  /\ (match_braces text = None ->
      lacks "{"%char text = true
      \/ exists pre rest,
           text = pre ++ String "{"%char rest
           /\ lacks "{"%char pre = true /\ lacks "}"%char rest = true).
Proof.
  unfold match_braces. split.
  - intros jsonMatch H.
    destruct (String.index 0 "{" text) as [i|] eqn:Hi; [|discriminate].
    apply index_brace in Hi as (pre & rest & -> & Hpre & Hdrop).
    rewrite Hdrop in H.
    destruct (last_index "}"%char (String "{"%char rest)) as [j|] eqn:Hj; [|discriminate].
    injection H as <-.
    apply last_index_spec in Hj as (a & b & Heq & _ & Hb & Hsub).
    change (String "{"%char (String.substring 0 j rest))
      with (String.substring 0 (S j) (String "{"%char rest)).
    rewrite Hsub. clear Hsub.
    destruct a as [|x inner]; [discriminate Heq|].
    injection Heq as <- ->.
    exists pre, inner, b. repeat split; try assumption.
    now rewrite append_assoc_one.
  - intros H.
    destruct (String.index 0 "{" text) as [i|] eqn:Hi;
      [|left; now apply index_brace_none].
    right. apply index_brace in Hi as (pre & rest & -> & Hpre & Hdrop).
    rewrite Hdrop in H.
    destruct (last_index "}"%char (String "{"%char rest)) as [j|] eqn:Hj; [discriminate|].
    apply last_index_none in Hj. cbn [lacks] in Hj.
    apply andb_prop in Hj as [_ Hrest].
    exists pre, rest. repeat split; assumption.
Qed.

(** ** The responses of the amenity-first handler *)

Lemma fallback_concerns_nonempty (amenitiesNeeded redditPosts : list string)
    (n : ScoredNeighborhood) :
  fallback_concerns amenitiesNeeded redditPosts n <> [].
Proof.
  unfold fallback_concerns.
  match goal with
  | |- context [(length ?l =? 0)%nat] => destruct l eqn:Hl; cbn; discriminate
  end.
Qed.

Lemma fallback_concerns_some (amenitiesNeeded redditPosts : list string)
    (n : ScoredNeighborhood) :
  some_concern (JArr (map JStr (fallback_concerns amenitiesNeeded redditPosts n))) = true.
Proof.
  pose proof (fallback_concerns_nonempty amenitiesNeeded redditPosts n) as Hne.
  destruct (fallback_concerns amenitiesNeeded redditPosts n); [congruence|reflexivity].
Qed.

Lemma concerns_lookup_assign (cm : ConcernsMap) (k k' : string) (v : JSValue) (fields : list (string * JSValue)) :
  parsed_concerns cm = JObj fields ->
  concerns_lookup (concerns_assign cm k v) k'
  = if decide (k' = k) then Ok v else concerns_lookup cm k'.
Proof.
  intros Hobj. unfold concerns_assign, concerns_lookup. rewrite Hobj. cbn.
  rewrite ?Hobj. destruct (decide (k' = k)) as [->|Hne].
  - now rewrite lookup_insert_eq.
  - now rewrite lookup_insert_ne by congruence.
Qed.

(** After the fallback loop every neighborhood it visited has a concern,
    and concerns that were there stay. *)
Lemma fill_concerns_spec (amenitiesNeeded redditPosts : list string)
    (fields : list (string * JSValue)) (top : list ScoredNeighborhood) :
  forall cm cm',
    parsed_concerns cm = JObj fields ->
    fill_concerns amenitiesNeeded redditPosts top cm = Ok cm' ->
    parsed_concerns cm' = JObj fields
    /\ (forall k v, concerns_lookup cm k = Ok v -> some_concern v = true ->
          concerns_lookup cm' k = Ok v)
    /\ (forall n, In n top ->
          exists v, concerns_lookup cm' (neighborhood n) = Ok v /\ some_concern v = true).
Proof.
  induction top as [|n rest IH]; intros cm cm' Hobj H; cbn [fill_concerns] in H.
  - injection H as <-. split; [assumption|]. split; [auto|intros n []].
  - bind_step H.
    set (cm1 := if negb (truthy x) || length_is_zero x
                then concerns_assign cm (neighborhood n)
                       (JArr (map JStr (fallback_concerns amenitiesNeeded redditPosts n)))
                else cm) in H.
    assert (Hobj1 : parsed_concerns cm1 = JObj fields).
    { unfold cm1. destruct (negb (truthy x) || length_is_zero x); [|assumption].
      unfold concerns_assign. now rewrite Hobj. }
    assert (Hkeep : forall k v, concerns_lookup cm k = Ok v -> some_concern v = true ->
                      concerns_lookup cm1 k = Ok v).
    { intros k v Hk Hv. unfold cm1.
      destruct (negb (truthy x) || length_is_zero x) eqn:Hbad; [|assumption].
      rewrite (concerns_lookup_assign _ _ _ _ fields Hobj).
      destruct (decide (k = neighborhood n)) as [->|]; [|assumption].
      rewrite Hx in Hk. injection Hk as <-. unfold some_concern in Hv.
      apply andb_prop in Hv as [Ht Hz]. apply negb_true_iff in Hz.
      rewrite Ht, Hz in Hbad. discriminate. }
    assert (Hhere : exists v, concerns_lookup cm1 (neighborhood n) = Ok v
                              /\ some_concern v = true).
    { unfold cm1. destruct (negb (truthy x) || length_is_zero x) eqn:Hbad.
      - rewrite (concerns_lookup_assign _ _ _ _ fields Hobj), decide_True by reflexivity.
        eexists. split; [reflexivity|apply fallback_concerns_some].
      - exists x. split; [assumption|]. unfold some_concern.
        apply orb_false_elim in Hbad as [Ht Hz]. apply negb_false_iff in Ht.
        now rewrite Ht, Hz. }
    destruct (IH cm1 cm' Hobj1 H) as (Hobj' & Hkeep' & Hrest).
    split; [assumption|]. split.
    + intros k v Hk Hv. apply Hkeep'; [now apply Hkeep|assumption].
    + intros n' [<-|Hin]; [|now apply Hrest].
      destruct Hhere as (v & Hv & Hgood). exists v. split; [now apply Hkeep'|assumption].
Qed.

Lemma recommendations_spec (amenitiesNeeded redditPosts : list string) (cm : ConcernsMap)
    (top : list ScoredNeighborhood) :
  forall recs,
    map_completion (recommendation amenitiesNeeded redditPosts cm) top = Ok recs ->
    map rec_neighborhood recs = map neighborhood top
    /\ map amenityBreakdown recs = map amenityCounts top
    /\ (forall r, In r recs -> matchReasons r <> [])
    /\ (forall r, In r recs ->
          exists v, concerns_lookup cm (rec_neighborhood r) = Ok v
                    /\ concerns r = if truthy v then v else JArr []).
Proof.
  induction top as [|n rest IH]; intros recs H; cbn [map_completion] in H.
  - injection H as <-. repeat split; intros r [].
  - bind_step H. bind_step H. injection H as <-.
    destruct (IH _ eq_refl) as (Hnames & Hcounts & Hreasons & Hconcerns).
    unfold recommendation in Hx. bind_step Hx. injection Hx as <-.
    cbn [map rec_neighborhood amenityBreakdown]. rewrite Hnames, Hcounts.
    split; [reflexivity|]. split; [reflexivity|]. split.
    + intros r [<-|Hr]; [|now apply Hreasons]. cbn [matchReasons].
      match goal with
      | |- (if (0 <? length ?l)%nat then _ else _) <> [] =>
          destruct l; cbn; discriminate
      end.
    + intros r [<-|Hr]; [|now apply Hconcerns]. cbn [rec_neighborhood concerns]. eauto.
Qed.

(** X19. Every recommendation of the amenity-first handler has at least one
    match reason; and when the concerns reply does not parse, or parses to an
    object, every recommendation has concerns: a value that is there and is
    not an empty list. *)
Theorem recommendations_have_reasons_and_concerns
    (JSON_parse : string -> option JSValue) (w : World) (req : Request) (body : Body) :
  post_recommendations JSON_parse w req = Status200 body ->
  (forall r, In r (recommendations body) -> matchReasons r <> [])
  /\ (concerns_usable JSON_parse w ->
      forall r, In r (recommendations body) -> some_concern (concerns r) = true).
Proof.
  unfold post_recommendations. intros Hr.
  destruct (recommendations_try JSON_parse w req) as [r0|e] eqn:Htry; [|discriminate].
  subst r0. apply recommendations_try_cases in Htry
    as [[_ Hr]|(_ & amenityText & needed & brands & _ & _ & _ & Hcase)];
    [discriminate|].
  destruct Hcase as [[_ Hr]|[_ Hq]]; [discriminate|].
  unfold qualitative_and_assembly in Hq. do 7 bind_step Hq.
  injection Hq as <-. cbn [recommendations].
  destruct (recommendations_spec _ _ _ _ _ Hx5) as (_ & _ & Hreasons & Hconcerns).
  split; [assumption|].
  intros (concernsText & Hreply & Hparse) r Hin.
  rewrite Hreply in Hx3. injection Hx3 as <-.
  assert (Hobj : exists fields,
             default (JObj []) (JSON_parse (strip_fences concernsText)) = JObj fields).
  { destruct Hparse as [->|[fields ->]]; eauto. }
  destruct Hobj as [fields Hobj].
  destruct (fill_concerns_spec needed x0 fields _
              {| parsed_concerns := default (JObj []) (JSON_parse (strip_fences concernsText));
                 assigned := ∅ |} x4 Hobj Hx4) as (_ & _ & Hfilled).
  destruct (Hconcerns r Hin) as (v & Hv & ->).
  assert (Hname : In (rec_neighborhood r)
                     (map neighborhood
                        (take 5 (scoreNeighborhoodsByAmenities w (default "" (body_city req))
                                   needed brands).1))).
  { destruct (recommendations_spec _ _ _ _ _ Hx5) as (<- & _). now apply in_map. }
  apply in_map_iff in Hname as (n & Hn & Hin').
  destruct (Hfilled n Hin') as (v' & Hv' & Hgood).
  rewrite Hn, Hv in Hv'. injection Hv' as <-.
  unfold some_concern in Hgood |- *. apply andb_prop in Hgood as [Ht Hz].
  now rewrite Ht, Ht, Hz.
Qed.

Lemma recommendations_have_reasons_and_concerns_witness :
  match post_recommendations sample_parse scenario_world sample_request with
  | Status200 body =>
      forall r, In r (recommendations body) ->
        matchReasons r <> [] /\ some_concern (concerns r) = true
  | _ => False
  end.
Proof.
  assert (Husable : concerns_usable sample_parse scenario_world).
  { exists "{}". split; [reflexivity|]. right. exists []. reflexivity. }
  pose proof (recommendations_have_reasons_and_concerns
                sample_parse scenario_world sample_request) as Hprop.
  destruct (post_recommendations sample_parse scenario_world sample_request)
    as [body|message|e] eqn:Hr.
  - destruct (Hprop body eq_refl) as [Hreasons Hconcerns].
    intros r Hin. split; [now apply Hreasons|now apply Hconcerns].
  - vm_compute in Hr. discriminate.
  - vm_compute in Hr. discriminate.
Defined.

Lemma present_some (field : option string) :
  present field = true -> field = Some (default "" field).
Proof. destruct field; [reflexivity|discriminate]. Qed.

Lemma amenities_of_neighborhood_lookup (amenitiesNeeded : list string)
    (found : option (gmap string (list Place))) (t : string) :
  amenities_of_neighborhood amenitiesNeeded found !! t
  = if decide (t ∈ amenitiesNeeded)
    then Some (take 5 (default [] (found ≫= fun byType => byType !! t)))
    else None.
Proof.
  unfold amenities_of_neighborhood.
  rewrite (fold_assign_lookup (fun t : string => t)
             (fun t => match found with
                       | Some byType => match byType !! t with
                                        | Some places => take 5 places
                                        | None => []
                                        end
                       | None => []
                       end) amenitiesNeeded t ∅).
  rewrite map_id. destruct (decide (t ∈ amenitiesNeeded)); [|apply lookup_empty].
  destruct found as [byType|]; cbn; [|reflexivity].
  destruct (byType !! t); reflexivity.
Qed.

(** X20. A 200 response of the amenity-first handler follows the ranking:
    it echoes the request's city and preferences; its recommendations are,
    in order, the first five neighborhoods of the scorer's ranking (at least
    one), each with the scorer's counts as its breakdown; the map data has
    one display list per requested amenity type, and, for every recommended
    neighborhood and no other, one list per requested amenity type, the first
    five of the places the scorer lists there. *)
Theorem response_follows_ranking (JSON_parse : string -> option JSValue) (w : World)
    (req : Request) (body : Body) :
  post_recommendations JSON_parse w req = Status200 body ->
  exists amenitiesNeeded specificBrands,
    amenities_extracted JSON_parse w amenitiesNeeded specificBrands /\
    let scored :=
      scoreNeighborhoodsByAmenities w (city body) amenitiesNeeded specificBrands in
    let top := take 5 scored.1 in
    body_city req = Some (city body)
    /\ body_preferences req = Some (userPreferences body)
    /\ recommendations body <> []
    /\ map rec_neighborhood (recommendations body) = map neighborhood top
    /\ map amenityBreakdown (recommendations body) = map amenityCounts top
    /\ (forall t, amenities (mapData body) !! t
                  = if decide (t ∈ amenitiesNeeded)
                    then Some (getAmenityCoordinates w (city body) t 10
                                 (brands_of specificBrands t))
                    else None)
    /\ (forall n, mapNeighborhoodAmenities (mapData body) !! n = None
                  <-> ~ In n (map neighborhood top))
    /\ (forall n byType t,
          mapNeighborhoodAmenities (mapData body) !! n = Some byType ->
          byType !! t = if decide (t ∈ amenitiesNeeded)
                        then Some (take 5 (listed_under scored.2 n t))
                        else None).
Proof.
  unfold post_recommendations. intros Hr.
  destruct (recommendations_try JSON_parse w req) as [r0|e] eqn:Htry; [|discriminate].
  subst r0. apply recommendations_try_cases in Htry
    as [[_ Hr]|(Hwf & amenityText & needed & brands & Hreply & Hextract & _ & Hcase)];
    [discriminate|].
  destruct Hcase as [[_ Hr]|[Hne Hq]]; [discriminate|].
  exists needed, brands. split; [exists amenityText; auto|].
  unfold qualitative_and_assembly in Hq. do 7 bind_step Hq.
  injection Hq as <-.
  cbn [recommendations city userPreferences mapData mapNeighborhoodAmenities amenities].
  destruct (recommendations_spec _ _ _ _ _ Hx5) as (Hnames & Hcounts & _ & _).
  destruct Hwf as [Hcity Hprefs].
  split; [now apply present_some|]. split; [now apply present_some|].
  split.
  { intros ->. cbn in Hnames.
    destruct (scoreNeighborhoodsByAmenities w (default "" (body_city req)) needed brands).1;
      [congruence|discriminate]. }
  split; [assumption|]. split; [assumption|]. split.
  { intros t. unfold display_amenities.
    rewrite (fold_assign_lookup (fun t : string => t)
               (fun t => getAmenityCoordinates w (default "" (body_city req)) t 10
                           (brands_of brands t)) needed t ∅).
    rewrite map_id. destruct (decide (t ∈ needed)); [reflexivity|apply lookup_empty]. }
  assert (Hlookup : forall n,
            neighborhood_amenities needed
              (scoreNeighborhoodsByAmenities w (default "" (body_city req)) needed brands).2
              x5 !! n
            = if decide (n ∈ map rec_neighborhood x5)
              then Some (amenities_of_neighborhood needed
                           ((scoreNeighborhoodsByAmenities w (default "" (body_city req))
                               needed brands).2 !! n))
              else None).
  { intros n. unfold neighborhood_amenities.
    rewrite (fold_assign_lookup rec_neighborhood
               (fun k => amenities_of_neighborhood needed
                           ((scoreNeighborhoodsByAmenities w (default "" (body_city req))
                               needed brands).2 !! k)) x5 n ∅).
    destruct (decide (n ∈ map rec_neighborhood x5)); [reflexivity|apply lookup_empty]. }
  split.
  - intros n. rewrite Hlookup, <- Hnames, <- list_elem_of_In.
    destruct (decide (n ∈ map rec_neighborhood x5)); split; intros H;
      try discriminate; try reflexivity; tauto.
  - intros n byType t. rewrite Hlookup.
    destruct (decide (n ∈ map rec_neighborhood x5)); [|discriminate].
    intros [= <-]. apply amenities_of_neighborhood_lookup.
Qed.

Lemma response_follows_ranking_witness :
  match post_recommendations sample_parse scenario_world sample_request with
  | Status200 body =>
      body_city sample_request = Some (city body) /\ recommendations body <> []
  | _ => False
  end.
Proof.
  pose proof (response_follows_ranking sample_parse scenario_world sample_request) as Hprop.
  destruct (post_recommendations sample_parse scenario_world sample_request)
    as [body|message|e] eqn:Hr.
  - destruct (Hprop body eq_refl) as (needed & brands & _ & Hcity & _ & Hne & _).
    split; assumption.
  - vm_compute in Hr. discriminate.
  - vm_compute in Hr. discriminate.
Defined.

(** ** The query-first handler *)

(** What the handler's [try] block does once the analysis reply is in. *)
Lemma query_try_after_analysis (JSON_parse : string -> option JSValue) (w : World)
    (req : Request) (extracted : JSValue) (responseText : string) :
  analysis_reached JSON_parse w req extracted responseText ->
  match match_braces (strip_fences responseText) with
  | None =>
      query_recommendations_try JSON_parse w req
      = Ok (Status200 {| q_city := default "" (body_city req);
                         q_userPreferences := default "" (body_preferences req);
                         q_recommendations := fallback_recommendations extracted;
                         q_mapData := None |})
  | Some jsonMatch =>
      (JSON_parse jsonMatch = None ->
       query_recommendations_try JSON_parse w req = Throw SyntaxError)
      /\ (forall r, query_recommendations_try JSON_parse w req = Ok r ->
            exists body md items,
              r = Status200 body /\ q_mapData body = Some md
              /\ JSON_parse jsonMatch = Some (q_recommendations body)
              /\ get (q_recommendations body) "recommendations" = Ok (JArr items)
              /\ returns (map_completion log_recommendation items)
              /\ neighborhood_boundaries w (default "" (body_city req)) items
                 = Ok (q_neighborhoods md))
  end.
Proof.
  intros (Hwf & parsingText & parsedData & redditQueries & redditPosts & Hparsing
          & Hparsed & Hprefs & Hqueries & Hscrape & Hfilter & Hanalysis).
  unfold query_recommendations_try.
  rewrite (proj2 (present_cases req) Hwf), Hparsing. cbn [mbind completion_bind].
  rewrite Hparsed. cbn [mbind completion_bind]. rewrite Hprefs, Hqueries.
  cbn [mbind completion_bind]. rewrite Hscrape. cbn [mbind completion_bind].
  assert (Hfiltered : exists filteredPosts,
             (if (0 <? length redditPosts)%nat
              then filterRelevantPosts JSON_parse w redditPosts
                     (default "" (body_preferences req))
              else Ok []) = Ok filteredPosts).
  { destruct Hfilter as [->|[filteredPosts Hf]]; [exists []; reflexivity|].
    destruct (0 <? length redditPosts)%nat; eauto. }
  destruct Hfiltered as [filteredPosts ->]. cbn [mbind completion_bind].
  rewrite Hanalysis. cbn [mbind completion_bind].
  destruct (match_braces (strip_fences responseText)) as [jsonMatch|]; [|reflexivity].
  split.
  - intros ->. reflexivity.
  - intros r H. destruct (JSON_parse jsonMatch) as [recommendations|]; [|discriminate H].
    cbn [mbind completion_bind] in H. repeat bind_step H. injection H as <-.
    destruct x as [| | | | | |items|]; try discriminate Hx0. injection Hx0 as <-.
    eexists. eexists. exists items. cbn [q_mapData q_recommendations q_neighborhoods].
    split; [reflexivity|]. split; [reflexivity|]. split; [reflexivity|].
    split; [assumption|]. split; [eexists; eassumption|assumption].
Qed.

(** X21. The two [JSON.parse] calls of the query-first handler are not
    guarded: with both fields present, a parsing reply that is not JSON once
    its fences are removed ends the request with status 500 (SyntaxError),
    and so does an analysis reply whose span from the first opening to the
    last closing brace is not JSON. *)
Theorem query_first_parse_errors_are_500 (JSON_parse : string -> option JSValue)
    (w : World) (req : Request) :
  well_formed req ->
  (forall parsingText,
      parsingReply w = Ok parsingText ->
      JSON_parse (remove_fences parsingText) = None ->
      post_recommendations_query_first JSON_parse w req = Status500 SyntaxError)
  /\ (forall extracted responseText jsonMatch,
        analysis_reached JSON_parse w req extracted responseText ->
        match_braces (strip_fences responseText) = Some jsonMatch ->
        JSON_parse jsonMatch = None ->
        post_recommendations_query_first JSON_parse w req = Status500 SyntaxError).
Proof.
  intros Hwf. split.
  - intros parsingText Hparsing Hparsed.
    unfold post_recommendations_query_first, query_recommendations_try.
    rewrite (proj2 (present_cases req) Hwf), Hparsing. cbn [mbind completion_bind].
    rewrite Hparsed. reflexivity.
  - intros extracted responseText jsonMatch Hreached Hmatch Hparsed.
    apply query_try_after_analysis in Hreached. rewrite Hmatch in Hreached.
    unfold post_recommendations_query_first.
    now rewrite (proj1 Hreached Hparsed).
Qed.

Lemma query_first_parse_errors_are_500_witness :
  post_recommendations_query_first sample_parse prose_parsing_world sample_request
    = Status500 SyntaxError
  /\ post_recommendations_query_first sample_parse broken_analysis_world sample_request
     = Status500 SyntaxError.
Proof.
  split.
  - apply (proj1 (query_first_parse_errors_are_500 sample_parse prose_parsing_world
                    sample_request (conj eq_refl eq_refl))
             "Here are some queries you could try."); reflexivity.
  - apply (proj2 (query_first_parse_errors_are_500 sample_parse broken_analysis_world
                    sample_request (conj eq_refl eq_refl))
             (JArr [JStr "quiet"]) "{ recommendations: see above }"
             "{ recommendations: see above }").
    + split; [split; reflexivity|].
      eexists. eexists. eexists. eexists.
      split; [reflexivity|]. split; [vm_compute; reflexivity|].
      split; [reflexivity|]. split; [reflexivity|].
      split; [vm_compute; reflexivity|].
      split; [right; eexists; vm_compute; reflexivity|reflexivity].
    + vm_compute. reflexivity.
    + vm_compute. reflexivity.
Defined.

(** X22. When the analysis reply has no opening brace followed by a closing
    one, the query-first handler answers 200 with the fallback: one
    recommendation, Downtown, whose match reasons are the extracted
    preferences, and no map data.  It is the only 200 response without map
    data. *)
Theorem downtown_fallback (JSON_parse : string -> option JSValue) (w : World)
    (req : Request) (extracted : JSValue) (responseText : string) :
  analysis_reached JSON_parse w req extracted responseText ->
  let fallback :=
    {| q_city := default "" (body_city req);
       q_userPreferences := default "" (body_preferences req);
       q_recommendations := fallback_recommendations extracted;
       q_mapData := None |} in
  (match_braces (strip_fences responseText) = None ->
   post_recommendations_query_first JSON_parse w req = Status200 fallback)
  /\ (forall body,
        post_recommendations_query_first JSON_parse w req = Status200 body ->
        q_mapData body = None ->
        match_braces (strip_fences responseText) = None /\ body = fallback)
  /\ (exists entry,
        listed_recommendations fallback = Some [entry]
        /\ get entry "neighborhood" = Ok (JStr "Downtown")
        /\ get entry "matchReasons" = Ok extracted).
Proof.
  intros Hreached fallback. apply query_try_after_analysis in Hreached.
  unfold post_recommendations_query_first. split; [|split].
  - intros Hmatch. rewrite Hmatch in Hreached. now rewrite Hreached.
  - intros body Hr Hmap.
    destruct (match_braces (strip_fences responseText)) as [jsonMatch|].
    + destruct Hreached as [_ Hrest].
      destruct (query_recommendations_try JSON_parse w req) as [r|e] eqn:Htry;
        [|discriminate Hr].
      destruct (Hrest r eq_refl) as (body' & md & items & -> & Hmd & _).
      injection Hr as ->. congruence.
    + rewrite Hreached in Hr. injection Hr as <-. split; reflexivity.
  - eexists. split; [reflexivity|]. split; reflexivity.
Qed.

Lemma downtown_fallback_witness :
  exists body,
    post_recommendations_query_first sample_parse prose_analysis_world sample_request
      = Status200 body
    /\ q_mapData body = None
    /\ q_recommendations body = fallback_recommendations (JArr [JStr "quiet"]).
Proof.
  assert (Hreached : analysis_reached sample_parse prose_analysis_world sample_request
                       (JArr [JStr "quiet"]) "Sorry, nothing specific came up.").
  { split; [split; reflexivity|].
    eexists. eexists. eexists. eexists.
    split; [reflexivity|]. split; [vm_compute; reflexivity|].
    split; [reflexivity|]. split; [reflexivity|].
    split; [vm_compute; reflexivity|].
    split; [right; eexists; vm_compute; reflexivity|reflexivity]. }
  eexists. split.
  - apply (proj1 (downtown_fallback sample_parse prose_analysis_world sample_request
                    _ _ Hreached)).
    vm_compute. reflexivity.
  - split; reflexivity.
Defined.

Lemma logged_have_reasons (items : list JSValue) :
  returns (map_completion log_recommendation items) ->
  forall rec, In rec items ->
    exists fields reasons,
      rec = JObj fields /\ assoc "matchReasons" fields = Some (JArr reasons).
Proof.
  induction items as [|item rest IH]; intros [logged H] rec Hin; [destruct Hin|].
  cbn [map_completion] in H. bind_step H. bind_step H.
  destruct Hin as [<-|Hin]; [|apply IH; [eexists; reflexivity|assumption]].
  unfold log_recommendation in Hx. repeat bind_step Hx.
  destruct x5 as [| | | | | |reasons|]; try discriminate Hx6.
  destruct item as [| | | | | | |fields]; try discriminate Hx5.
  exists fields, reasons. split; [reflexivity|].
  cbn [get] in Hx5. destruct (assoc "matchReasons" fields) as [v|]; [|discriminate Hx5].
  cbn [default from_option id] in Hx5. congruence.
Qed.

Lemma map_completion_elem {A B} (f : A -> completion B) (l : list A) (bs : list B) (b : B) :
  map_completion f l = Ok bs -> In b bs -> exists a, In a l /\ f a = Ok b.
Proof.
  revert bs. induction l as [|a l IH]; intros bs H Hb; cbn [map_completion] in H.
  - injection H as <-. destruct Hb.
  - bind_step H. bind_step H. injection H as <-. destruct Hb as [<-|Hb].
    + exists a. split; [now left|assumption].
    + destruct (IH _ eq_refl Hb) as (a' & Ha' & Hf). exists a'. split; [now right|assumption].
Qed.

Lemma omap_image {A B} (f : A -> option B) (l : list A) :
  (length (omap f l) <= length l)%nat
  /\ forall b, In b (omap f l) -> exists a, In a l /\ f a = Some b.
Proof.
  induction l as [|a l [IHlen IHin]]; [split; [reflexivity|intros b []]|].
  cbn. destruct (f a) as [b0|] eqn:Hfa; cbn; (split; [lia|]).
  - intros b [<-|Hin]; [exists a; split; [now left|assumption]|].
    destruct (IHin b Hin) as (a' & Ha' & Hb). exists a'. split; [now right|assumption].
  - intros b Hin. destruct (IHin b Hin) as (a' & Ha' & Hb).
    exists a'. split; [now right|assumption].
Qed.

(** X23. A 200 response of the query-first handler that carries map data
    returns as recommendations the parsed span from the first opening to the
    last closing brace of the analysis reply; that value is an object whose
    [recommendations] is an array of objects, each with an array of match
    reasons; and every boundary in the map data answers the [neighborhood] of
    one of these recommendations, so there are at most as many boundaries as
    recommendations. *)
Theorem query_first_success_shape (JSON_parse : string -> option JSValue) (w : World)
    (req : Request) (extracted : JSValue) (responseText : string)
    (body : QueryBody) (md : QueryMapData) :
  analysis_reached JSON_parse w req extracted responseText ->
  post_recommendations_query_first JSON_parse w req = Status200 body ->
  q_mapData body = Some md ->
  exists jsonMatch items,
    match_braces (strip_fences responseText) = Some jsonMatch
    /\ JSON_parse jsonMatch = Some (q_recommendations body)
    /\ listed_recommendations body = Some items
    /\ (forall rec, In rec items ->
          exists reasons, get rec "matchReasons" = Ok (JArr reasons))
    /\ (length (q_neighborhoods md) <= length items)%nat
    /\ (forall b, In b (q_neighborhoods md) ->
          exists rec, In rec items
                      /\ get rec "neighborhood" = Ok (boundary_neighborhood b)).
Proof.
  intros Hreached Hr Hmd. apply query_try_after_analysis in Hreached.
  unfold post_recommendations_query_first in Hr.
  destruct (match_braces (strip_fences responseText)) as [jsonMatch|].
  - destruct Hreached as [_ Hrest].
    destruct (query_recommendations_try JSON_parse w req) as [r|e] eqn:Htry;
      [|discriminate Hr].
    destruct (Hrest r eq_refl)
      as (body' & md' & items & -> & Hmd' & Hparsed & Hlisted & Hlogged & Hbounds).
    injection Hr as ->. rewrite Hmd in Hmd'. injection Hmd' as <-.
    exists jsonMatch, items. split; [reflexivity|]. split; [assumption|].
    pose proof (logged_have_reasons items Hlogged) as Hreasons.
    split; [|split; [|split]].
    + unfold listed_recommendations.
      destruct (q_recommendations body) as [| | | | | | |fields];
        try discriminate Hlisted.
      cbn [get] in Hlisted.
      destruct (assoc "recommendations" fields) as [v|]; [|discriminate Hlisted].
      cbn [default from_option id] in Hlisted. injection Hlisted as ->. reflexivity.
    + intros rec Hin. destruct (Hreasons rec Hin) as (fields & reasons & -> & Hassoc).
      exists reasons. cbn [get]. now rewrite Hassoc.
    + unfold neighborhood_boundaries in Hbounds.
      match type of Hbounds with
      | match ?answers with Ok _ => _ | Throw _ => _ end = _ =>
          destruct answers as [found|] eqn:Hfound; [|discriminate Hbounds]
      end.
      injection Hbounds as <-. rewrite <- (map_completion_length _ _ _ Hfound).
      apply omap_image.
    + intros b Hin. unfold neighborhood_boundaries in Hbounds.
      match type of Hbounds with
      | match ?answers with Ok _ => _ | Throw _ => _ end = _ =>
          destruct answers as [found|] eqn:Hfound; [|discriminate Hbounds]
      end.
      injection Hbounds as Hbounds. rewrite <- Hbounds in Hin.
      apply omap_image in Hin as (answer & Hanswer & ->).
      destruct (map_completion_elem _ _ _ _ Hfound Hanswer) as (rec & Hrec & Hb).
      exists rec. split; [assumption|].
      destruct (Hreasons rec Hrec) as (fields & reasons & -> & _).
      unfold getNeighborhoodBoundaries in Hb. bind_step Hb. cbn [get].
      destruct (nominatimSearch w _) as [[feature|]|]; try discriminate Hb.
      injection Hb as <-. reflexivity.
  - rewrite Hreached in Hr. injection Hr as <-. discriminate Hmd.
Qed.

Lemma query_first_success_shape_witness :
  exists body md items,
    post_recommendations_query_first sample_parse chatty_world sample_request
      = Status200 body
    /\ q_mapData body = Some md
    /\ listed_recommendations body = Some items
    /\ (length (q_neighborhoods md) <= length items)%nat.
Proof.
  assert (Hreached : analysis_reached sample_parse chatty_world sample_request
                       (JArr [JStr "quiet"]) six_text).
  { split; [split; reflexivity|].
    eexists. eexists. eexists. eexists.
    split; [reflexivity|]. split; [vm_compute; reflexivity|].
    split; [reflexivity|]. split; [reflexivity|].
    split; [vm_compute; reflexivity|].
    split; [right; eexists; vm_compute; reflexivity|reflexivity]. }
  destruct (post_recommendations_query_first sample_parse chatty_world sample_request)
    as [body|message|e] eqn:Hr.
  - destruct (q_mapData body) as [md|] eqn:Hmd.
    + destruct (query_first_success_shape sample_parse chatty_world sample_request
                  _ _ body md Hreached Hr Hmd)
        as (jsonMatch & items & _ & _ & Hlisted & _ & Hlen & _).
      exists body, md, items. repeat split; assumption.
    + exfalso. vm_compute in Hr. injection Hr as <-. discriminate Hmd.
  - exfalso. vm_compute in Hr. discriminate Hr.
  - exfalso. vm_compute in Hr. discriminate Hr.
Defined.

(** ** The display locator *)

(** X24. The display locator of the amenity-first version returns at most
    [limit] places, each with the requested amenity type; when brand names
    are given, a significant word of one of the brands occurs (ignoring
    case) in the name of every place it returns.  The brands are the
    strings of an array: no other value yields a place. *)
Theorem display_search_sound (w : World) (city amenityType : string) (limit : nat)
    (specificNames : JSValue) :
  (length (getAmenityCoordinates w city amenityType limit specificNames) <= limit)%nat
  /\ (forall p,
        In p (getAmenityCoordinates w city amenityType limit specificNames) ->
        type p = amenityType
        /\ (length_gt_zero specificNames = Ok true ->
            exists items brandName,
              specificNames = JArr items
              /\ In (JStr brandName) items /\ names_brand brandName (name p))).
Proof.
  split; [apply getAmenityCoordinates_length|].
  unfold getAmenityCoordinates.
  destruct (getCityCoordinates w city) as [cityCoords|]; [|intros p []].
  destruct (length_gt_zero specificNames) as [[|]|]; cbn [mbind completion_bind];
    [| |intros p []].
  - destruct (iterate specificNames) as [brands|] eqn:Hiterate;
      cbn [mbind completion_bind]; [|intros p []].
    destruct (map_completion (display_brand_results w cityCoords amenityType) brands)
      as [found|] eqn:Hfound; cbn [mbind completion_bind]; [|intros p []].
    intros p Hp. apply in_map_iff in Hp as (raw & <- & Hraw).
    split; [reflexivity|]. intros _.
    assert (Hall : In raw (concat found)).
    { rewrite <- (firstn_skipn limit (concat found)). apply in_or_app. now left. }
    destruct (map_completion_concat _ _ _ _ Hfound Hall)
      as (brandName & bs & Hin & Hbs & Hraw').
    destruct (elem_of_display_brand_results _ _ _ _ _ _ Hbs Hraw') as (brand & -> & Hkeep).
    destruct (iterated_brand _ _ _ _ Hiterate Hin Hkeep) as (items & -> & Hitem).
    exists items, brand. split; [reflexivity|]. split; [assumption|].
    now apply matches_brand_spec.
  - destruct (placesNearbyType w cityCoords 8000 amenityType None) as [response|];
      cbn [mbind completion_bind]; [|intros p []].
    intros p Hp. apply in_map_iff in Hp as (raw & <- & _).
    split; [reflexivity|discriminate].
Qed.
